(** * update-passwd: the reconciler and the commit protocol

    A shallow embedding of [update-passwd.c] (version 3.1.1): the record
    store ([add_node], [find_by_name], ...), the policy table
    ([specialusers], [scan_users]), the three reconciliation loops
    ([process_new_entries], [process_old_entries],
    [process_changed_accounts] / [process_changed_groups]) and the commit
    path ([write_passwd], [put_file_in_place], [commit_files], [main]).

    Conventions.
    - [unsigned] values (ids, flag words) are [N]; [int] values (the dirty
      counter, exit codes, buffer indices) are [Z].  The program does no
      arithmetic on ids, only comparisons, so no wrap-around occurs; the
      dirty counter only grows by one per change and is kept unbounded.
    - A [char*] that the program itself tests against [NULL]
      ([pw_gecos], [pw_dir], [pw_shell]) and the other string fields that the
      C library may leave [NULL] are [option string]; names are [string].
    - A linked list of [struct _node] is a [list node]; the [next] pointer is
      the list structure and [buf] is the storage of the string fields.
    - Behaviour that the C standard leaves undefined (a [NULL] dereference,
      a conversion specification without argument) is the outcome [Undef].
    - A file name that the program builds with [snprintf] into a buffer of
      [PATH_MAX] bytes is the concatenation of its parts; this is the name
      the program uses when the name fits into the buffer. *)

From Stdlib Require Import ZArith NArith List String Ascii Bool Lia.
From stdpp Require Import gmap strings list fin_maps.

Local Open Scope Z_scope.

(** ** Outcomes of a computation *)

Inductive outcome (A : Type) : Type :=
| Ret (a : A)          (* normal return *)
| Undef                (* undefined behaviour *)
| Exit (code : Z)      (* exit(code) *)
| Abort.               (* a failed assert *)

Arguments Ret {A} a.
Arguments Undef {A}.
Arguments Exit {A} code.
Arguments Abort {A}.

#[global] Instance outcome_ret : MRet outcome := fun A a => Ret a.
#[global] Instance outcome_bind : MBind outcome := fun A B f m =>
  match m with
  | Ret a => f a
  | Undef => Undef
  | Exit c => Exit c
  | Abort => Abort
  end.

(** ** Constants *)

Definition FL_KEEPHOME : N := 0x0001.
Definition FL_KEEPSHELL : N := 0x0002.
Definition FL_KEEPGECOS : N := 0x0004.
Definition FL_KEEPALL : N := 0x000f.
Definition FL_NOAUTOREMOVE : N := 0x0010.
Definition FL_NOAUTOADD : N := 0x0020.

Definition WRITE_EXTENSION : string := ".upwd-write".
Definition UNLINK_EXTENSION : string := ".upwd-unlink".

(** [INT_MAX] of <limits.h> for a 32-bit [int]. *)
Definition INT_MAX : N := 2147483647.

(** [NSS_BUFLEN_PASSWD] of <pwd.h> (glibc). *)
Definition NSS_BUFLEN_PASSWD : Z := 1024.

(** ** The policy table *)

Record userinfo : Type := { ui_id : N; ui_flags : N }.

Definition flag_or (a b : N) : N := N.lor a b.
Infix ".|" := flag_or (at level 40, left associativity).

(** The entries of [specialusers] that precede the terminating [{0, 0}]. *)
Definition specialusers : list userinfo :=
  [ {| ui_id := 0;  ui_flags := FL_KEEPALL .| FL_NOAUTOREMOVE |};
    {| ui_id := 11; ui_flags := FL_KEEPHOME .| FL_NOAUTOADD .| FL_NOAUTOREMOVE |};
    {| ui_id := 33; ui_flags := FL_KEEPHOME |};
    {| ui_id := 70; ui_flags := FL_NOAUTOREMOVE |};
    {| ui_id := 71; ui_flags := FL_KEEPALL .| FL_KEEPHOME .| FL_NOAUTOADD .| FL_NOAUTOREMOVE |};
    {| ui_id := 72; ui_flags := FL_KEEPALL .| FL_KEEPHOME .| FL_NOAUTOADD .| FL_NOAUTOREMOVE |};
    {| ui_id := 73; ui_flags := FL_KEEPALL .| FL_KEEPHOME .| FL_NOAUTOADD .| FL_NOAUTOREMOVE |};
    {| ui_id := 74; ui_flags := FL_KEEPALL .| FL_KEEPHOME .| FL_NOAUTOADD .| FL_NOAUTOREMOVE |};
    {| ui_id := 75; ui_flags := FL_KEEPALL .| FL_KEEPHOME .| FL_NOAUTOADD .| FL_NOAUTOREMOVE |};
    {| ui_id := 76; ui_flags := FL_KEEPALL .| FL_KEEPHOME .| FL_NOAUTOADD .| FL_NOAUTOREMOVE |} ].

(** ** Records and list nodes *)

Record passwd : Type := {
  pw_name : string;
  pw_passwd : option string;
  pw_uid : N;
  pw_gid : N;
  pw_gecos : option string;
  pw_dir : option string;
  pw_shell : option string
}.

Record spwd : Type := {
  sp_namp : string;
  sp_pwdp : option string;
  sp_lstchg : Z;
  sp_min : Z;
  sp_max : Z;
  sp_warn : Z;
  sp_inact : Z;
  sp_expire : Z
}.

Record group : Type := {
  gr_name : string;
  gr_passwd : option string;
  gr_gid : N;
  gr_mem : list string
}.

(** The union [d] together with its tag [t]. *)
Inductive entry : Type :=
| t_passwd (pw : passwd)
| t_shadow (sp : spwd)
| t_group (gr : group).

Record node : Type := {
  n_d : entry;
  n_name : string;
  n_id : N
}.

#[global] Instance passwd_eq_dec : EqDecision passwd.
Proof. solve_decision. Defined.
#[global] Instance spwd_eq_dec : EqDecision spwd.
Proof. solve_decision. Defined.
#[global] Instance group_eq_dec : EqDecision group.
Proof. solve_decision. Defined.
#[global] Instance entry_eq_dec : EqDecision entry.
Proof. solve_decision. Defined.
#[global] Instance node_eq_dec : EqDecision node.
Proof. solve_decision. Defined.

(** ** The record store *)

(** The scan of [add_node]: [walk] is the current node, [next] what follows
    it. *)
Fixpoint add_node_walk (walk : node) (next : list node) (n : node) : list node :=
  match next with
  | nx :: rest =>
      if (n_id nx <=? n_id n)%N
      then walk :: add_node_walk nx rest n
      else walk :: n :: next
  | [] => walk :: [n]
  end.

(** [add_node(&head, node)]: [node->next] is set to [NULL] first, so the
    branch that makes [node] the new head leaves nothing behind it. *)
Definition add_node (head : list node) (n : node) : list node :=
  match head with
  | [] => [n]
  | h :: rest =>
      if (n_id n <? n_id h)%N
      then [n]
      else add_node_walk h rest n
  end.

Fixpoint find_by_name (head : list node) (name : string) : option node :=
  match head with
  | [] => None
  | h :: next => if String.eqb name (n_name h) then Some h else find_by_name next name
  end.

Fixpoint find_by_named_entry (head : list node) (entry : node) : option node :=
  match head with
  | [] => None
  | h :: next =>
      if String.eqb (n_name entry) (n_name h) then Some h
      else find_by_named_entry next entry
  end.

Fixpoint find_by_id (head : list node) (id : N) : option node :=
  match head with
  | [] => None
  | h :: next => if (id =? n_id h)%N then Some h else find_by_id next id
  end.

(** ** Copying a node *)

(** [sprintf(dst, fmt)] without further arguments: ordinary characters are
    copied, [%%] writes one [%], any other conversion has no argument to
    read. *)
Fixpoint format (fmt : string) : outcome string :=
  match fmt with
  | EmptyString => Ret EmptyString
  | String "%"%char (String "%"%char rest) =>
      s ← format rest; Ret (String "%"%char s)
  | String "%"%char _ => Undef
  | String c rest => s ← format rest; Ret (String c s)
  end.

Definition sprintf (fmt : option string) : outcome string :=
  match fmt with
  | None => Undef
  | Some f => format f
  end.

Definition strlen (s : string) : Z := Z.of_nat (String.length s).

Definition copy_passwd (pw : passwd) : outcome passwd :=
  let idx := 0 in
  nm ← sprintf (Some (pw_name pw));
  let idx := idx + (strlen nm + 1) in
  pass ← sprintf (pw_passwd pw);
  let idx := idx + (strlen pass + 1) in
  gecos ← sprintf (pw_gecos pw);
  let idx := idx + (strlen gecos + 1) in
  dir ← sprintf (pw_dir pw);
  let idx := idx + (strlen dir + 1) in
  shell ← sprintf (pw_shell pw);
  let idx := idx + (strlen shell + 1) in
  if NSS_BUFLEN_PASSWD <? idx then Exit 100
  else Ret {| pw_name := nm; pw_passwd := Some pass;
              pw_uid := pw_uid pw; pw_gid := pw_gid pw;
              pw_gecos := Some gecos; pw_dir := Some dir;
              pw_shell := Some shell |}.

Definition copy_shadow (sp : spwd) : outcome spwd :=
  let idx := 0 in
  nm ← sprintf (Some (sp_namp sp));
  let idx := idx + (strlen nm + 1) in
  pass ← sprintf (sp_pwdp sp);
  let idx := idx + (strlen pass + 1) in
  if NSS_BUFLEN_PASSWD <? idx then Exit 100
  else Ret {| sp_namp := nm; sp_pwdp := Some pass;
              sp_lstchg := sp_lstchg sp; sp_min := sp_min sp;
              sp_max := sp_max sp; sp_warn := sp_warn sp;
              sp_inact := sp_inact sp; sp_expire := sp_expire sp |}.

(** [copy_group] writes the name, the password and then the name a second
    time; [gr_name] ends up pointing at the second copy.  The member list is
    shared with the source node. *)
Definition copy_group (gr : group) : outcome group :=
  let idx := 0 in
  nm1 ← sprintf (Some (gr_name gr));
  let idx := idx + (strlen nm1 + 1) in
  pass ← sprintf (gr_passwd gr);
  let idx := idx + (strlen pass + 1) in
  nm2 ← sprintf (Some (gr_name gr));
  let idx := idx + (strlen nm2 + 1) in
  if NSS_BUFLEN_PASSWD <? idx then Exit 100
  else Ret {| gr_name := nm2; gr_passwd := Some pass;
              gr_gid := gr_gid gr; gr_mem := gr_mem gr |}.

(** [copy_node]: [id] and [name] are taken over as they are ([name] keeps
    pointing at the source's string). *)
Definition copy_node (n : node) : outcome node :=
  match n_d n with
  | t_passwd pw =>
      pw' ← copy_passwd pw;
      Ret {| n_d := t_passwd pw'; n_name := n_name n; n_id := n_id n |}
  | t_shadow sp =>
      sp' ← copy_shadow sp;
      Ret {| n_d := t_shadow sp'; n_name := n_name n; n_id := n_id n |}
  | t_group gr =>
      gr' ← copy_group gr;
      Ret {| n_d := t_group gr'; n_name := n_name n; n_id := n_id n |}
  end.

(** ** The nodes the readers make

    The line parser ([fgetpwent_r] and friends) is outside the program; the
    read loops (below, with the files) are given the records it delivers, in
    file order, and make one node of each. *)

Definition starts_with_plus (s : string) : bool :=
  match s with
  | String "+"%char _ => true
  | _ => false
  end.

Definition passwd_node (pw : passwd) : node :=
  {| n_d := t_passwd pw;
     n_name := pw_name pw;
     n_id := if starts_with_plus (pw_name pw) then INT_MAX else pw_uid pw |}.

Definition group_node (gr : group) : node :=
  {| n_d := t_group gr;
     n_name := gr_name gr;
     n_id := if starts_with_plus (gr_name gr) then INT_MAX else gr_gid gr |}.

Definition shadow_node (sp : spwd) : node :=
  {| n_d := t_shadow sp; n_name := sp_namp sp; n_id := 0 |}.

(** ** The policy lookup and the reconciliation loops

    [specialusers] is a constant of the program; the loops are written over
    an arbitrary table so that tables can be compared. *)

Section Reconciler.

Variable table : list userinfo.

(** The loop of [scan_users] over the entries that precede the terminator of
    the array; an entry [{0, 0}] among them ends the scan like the terminator
    does. *)
Fixpoint scan_table (walk : list userinfo) (id flag : N) : bool :=
  match walk with
  | [] => false
  | w :: walk' =>
      if (ui_id w =? 0)%N && (ui_flags w =? 0)%N then false
      else if (ui_id w =? id)%N then negb (N.land (ui_flags w) flag =? 0)%N
      else scan_table walk' id flag
  end.

Definition scan_users (id flag : N) : bool := scan_table table id flag.

Definition keephome (id : N) : bool := scan_users id FL_KEEPHOME.
Definition keepshell (id : N) : bool := scan_users id FL_KEEPSHELL.
Definition keepgecos (id : N) : bool := scan_users id FL_KEEPGECOS.
Definition noautoremove (id : N) : bool := scan_users id FL_NOAUTOREMOVE.
Definition noautoadd (id : N) : bool := scan_users id FL_NOAUTOREMOVE.

(** [process_new_entries(&passwd, master, descr)]; the result is the new
    list and the new value of [flag_dirty]. *)
Fixpoint process_new_entries (passwd master : list node) (flag_dirty : Z)
  : outcome (list node * Z) :=
  match master with
  | [] => Ret (passwd, flag_dirty)
  | m :: master' =>
      match find_by_named_entry passwd m with
      | None =>
          newnode ← copy_node m;
          process_new_entries (add_node passwd newnode) master' (flag_dirty + 1)
      | Some _ => process_new_entries passwd master' flag_dirty
      end
  end.

(** [process_old_entries(&passwd, master, descr)].  [passwd] points at the
    link to the current node.  After a removal the link holds the successor,
    and the increment of the [for] loop (which takes the address of the
    [next] field of the node the link now holds) moves on from there: the
    successor is stepped over without being examined, and when there is no
    successor the increment goes through [NULL]. *)
Fixpoint process_old_entries (passwd master : list node) (flag_dirty : Z)
  : outcome (list node * Z) :=
  match passwd with
  | [] => Ret ([], flag_dirty)
  | p :: next =>
      if (n_id p <? 0)%N || (99 <? n_id p)%N then
        '(l, dirty) ← process_old_entries next master flag_dirty;
        Ret (p :: l, dirty)
      else if noautoremove (n_id p) then
        '(l, dirty) ← process_old_entries next master flag_dirty;
        Ret (p :: l, dirty)
      else
        match find_by_named_entry master p with
        | None =>
            match next with
            | [] => Undef
            | q :: next' =>
                '(l, dirty) ← process_old_entries next' master (flag_dirty + 1);
                Ret (q :: l, dirty)
            end
        | Some _ =>
            '(l, dirty) ← process_old_entries next master flag_dirty;
            Ret (p :: l, dirty)
        end
  end.

(** One of the three string fields of [process_changed_accounts]:
    [if (!keep) if ((cur==NULL) || (strcmp(cur, mc)!=0)) { cur=mc; flag_dirty++; }].
    [strcmp] reads both strings. *)
Definition sync_field (keep : bool) (cur mc : option string) (flag_dirty : Z)
  : outcome (option string * Z) :=
  if keep then Ret (cur, flag_dirty)
  else
    match cur with
    | None => Ret (mc, flag_dirty + 1)
    | Some s =>
        match mc with
        | None => Undef
        | Some ms =>
            if String.eqb s ms then Ret (cur, flag_dirty)
            else Ret (mc, flag_dirty + 1)
        end
    end.

(** The body of the loop of [process_changed_accounts] for the node
    [passwd]. *)
Definition changed_account (passwd : node) (master : list node) (flag_dirty : Z)
  : outcome (node * Z) :=
  if (n_id passwd <? 0)%N || (99 <? n_id passwd)%N then Ret (passwd, flag_dirty)
  else
    match find_by_named_entry master passwd with
    | None => Ret (passwd, flag_dirty)
    | Some mc =>
        match n_d passwd, n_d mc with
        | t_passwd pw, t_passwd mpw =>
            let '(id, uid, dirty) :=
              if negb (n_id passwd =? n_id mc)%N
              then (n_id mc, pw_uid mpw, flag_dirty + 1)
              else (n_id passwd, pw_uid pw, flag_dirty) in
            let '(gid, dirty) :=
              if negb (pw_gid pw =? pw_gid mpw)%N
              then (pw_gid mpw, dirty + 1)
              else (pw_gid pw, dirty) in
            '(gecos, dirty) ← sync_field (keepgecos id) (pw_gecos pw) (pw_gecos mpw) dirty;
            '(dir, dirty) ← sync_field (keephome id) (pw_dir pw) (pw_dir mpw) dirty;
            '(shell, dirty) ← sync_field (keepshell id) (pw_shell pw) (pw_shell mpw) dirty;
            Ret ({| n_d := t_passwd {| pw_name := pw_name pw;
                                       pw_passwd := pw_passwd pw;
                                       pw_uid := uid; pw_gid := gid;
                                       pw_gecos := gecos; pw_dir := dir;
                                       pw_shell := shell |};
                    n_name := n_name passwd;
                    n_id := id |}, dirty)
        | _, _ => Undef
        end
    end.

Fixpoint process_changed_accounts (passwd master : list node) (flag_dirty : Z)
  : outcome (list node * Z) :=
  match passwd with
  | [] => Ret ([], flag_dirty)
  | p :: next =>
      '(p', dirty) ← changed_account p master flag_dirty;
      '(l, dirty) ← process_changed_accounts next master dirty;
      Ret (p' :: l, dirty)
  end.

(** The body of the loop of [process_changed_groups] for the node [group]. *)
Definition changed_group (group : node) (master : list node) (flag_dirty : Z)
  : outcome (node * Z) :=
  if (n_id group <? 0)%N || (99 <? n_id group)%N then Ret (group, flag_dirty)
  else
    match find_by_named_entry master group with
    | None => Ret (group, flag_dirty)
    | Some mc =>
        if negb (n_id group =? n_id mc)%N then
          match n_d group, n_d mc with
          | t_group gr, t_group mgr =>
              Ret ({| n_d := t_group {| gr_name := gr_name gr;
                                        gr_passwd := gr_passwd gr;
                                        gr_gid := gr_gid mgr;
                                        gr_mem := gr_mem gr |};
                      n_name := n_name group;
                      n_id := n_id mc |}, flag_dirty + 1)
          | _, _ => Undef
          end
        else Ret (group, flag_dirty)
    end.

Fixpoint process_changed_groups (group master : list node) (flag_dirty : Z)
  : outcome (list node * Z) :=
  match group with
  | [] => Ret ([], flag_dirty)
  | g :: next =>
      '(g', dirty) ← changed_group g master flag_dirty;
      '(l, dirty) ← process_changed_groups next master dirty;
      Ret (g' :: l, dirty)
  end.

(** The three calls of [main] for one category. *)
Definition reconcile_accounts (system master : list node) (flag_dirty : Z)
  : outcome (list node * Z) :=
  '(l, dirty) ← process_new_entries system master flag_dirty;
  '(l, dirty) ← process_old_entries l master dirty;
  process_changed_accounts l master dirty.

Definition reconcile_groups (system master : list node) (flag_dirty : Z)
  : outcome (list node * Z) :=
  '(l, dirty) ← process_new_entries system master flag_dirty;
  '(l, dirty) ← process_old_entries l master dirty;
  process_changed_groups l master dirty.

End Reconciler.

(** ** The environment: files, error numbers, injected failures *)

(** The error numbers the program tells apart; [EOTHER] stands for any
    other one. *)
Inductive errno : Type := ENOENT | ENOSYS | EOTHER.

#[global] Instance errno_eq_dec : EqDecision errno.
Proof. solve_decision. Defined.

(** A database file: its records in file order (one line each; the line
    format is the business of the C library), permission bits and owner. *)
Record file : Type := {
  f_lines : list entry;
  f_mode : N;
  f_uid : N;
  f_gid : N
}.

#[global] Instance file_eq_dec : EqDecision file.
Proof. solve_decision. Defined.

(** The state outside the program's variables.  [w_faults] is the schedule
    of failures the operating system will produce: every library call below
    takes the next element, [Some e] makes the call fail with [errno = e],
    [None] (or an exhausted schedule) lets it run.  [w_history] records the
    file system after every call that changed it. *)
Record world : Type := {
  w_fs : gmap string file;
  w_faults : list (option errno);
  w_errno : option errno;
  w_umask : N;
  w_euid : N;
  w_egid : N;
  w_locked : bool;
  w_history : list (gmap string file)
}.

Definition with_fs (fs : gmap string file) (w : world) : world :=
  {| w_fs := fs; w_faults := w_faults w; w_errno := w_errno w;
     w_umask := w_umask w; w_euid := w_euid w; w_egid := w_egid w;
     w_locked := w_locked w; w_history := w_history w ++ [fs] |}.

Definition with_faults (fl : list (option errno)) (w : world) : world :=
  {| w_fs := w_fs w; w_faults := fl; w_errno := w_errno w;
     w_umask := w_umask w; w_euid := w_euid w; w_egid := w_egid w;
     w_locked := w_locked w; w_history := w_history w |}.

Definition with_errno (e : errno) (w : world) : world :=
  {| w_fs := w_fs w; w_faults := w_faults w; w_errno := Some e;
     w_umask := w_umask w; w_euid := w_euid w; w_egid := w_egid w;
     w_locked := w_locked w; w_history := w_history w |}.

Definition with_umask (m : N) (w : world) : world :=
  {| w_fs := w_fs w; w_faults := w_faults w; w_errno := w_errno w;
     w_umask := m; w_euid := w_euid w; w_egid := w_egid w;
     w_locked := w_locked w; w_history := w_history w |}.

Definition with_locked (b : bool) (w : world) : world :=
  {| w_fs := w_fs w; w_faults := w_faults w; w_errno := w_errno w;
     w_umask := w_umask w; w_euid := w_euid w; w_egid := w_egid w;
     w_locked := b; w_history := w_history w |}.

(** Computations in the environment. *)
Definition io (A : Type) : Type := world → outcome A * world.

#[global] Instance io_ret : MRet io := fun A a w => (Ret a, w).
#[global] Instance io_bind : MBind io := fun A B f m w =>
  match m w with
  | (Ret a, w') => f a w'
  | (Undef, w') => (Undef, w')
  | (Exit c, w') => (Exit c, w')
  | (Abort, w') => (Abort, w')
  end.

Definition lift {A} (o : outcome A) : io A := fun w => (o, w).

(** The next element of the failure schedule. *)
Definition fault : io (option errno) := fun w =>
  match w_faults w with
  | [] => (Ret None, w)
  | f :: fl => (Ret f, with_faults fl w)
  end.

Definition set_errno (e : errno) : io unit := fun w => (Ret tt, with_errno e w).
Definition get_errno : io (option errno) := fun w => (Ret (w_errno w), w).
Definition get_fs : io (gmap string file) := fun w => (Ret (w_fs w), w).
Definition put_fs (fs : gmap string file) : io unit := fun w => (Ret tt, with_fs fs w).

(** *** Library calls; the result [true] is the C result 0 (or a non-[NULL]
    stream) *)

Definition sys_rename (source target : string) : io bool :=
  f ← fault;
  match f with
  | Some e => _ ← set_errno e; mret false
  | None =>
      fs ← get_fs;
      match fs !! source with
      | None => _ ← set_errno ENOENT; mret false
      | Some x => _ ← put_fs (<[target := x]> (delete source fs)); mret true
      end
  end.

Definition sys_unlink (path : string) : io bool :=
  f ← fault;
  match f with
  | Some e => _ ← set_errno e; mret false
  | None =>
      fs ← get_fs;
      match fs !! path with
      | None => _ ← set_errno ENOENT; mret false
      | Some _ => _ ← put_fs (delete path fs); mret true
      end
  end.

Definition sys_lstat (path : string) : io (option file) :=
  f ← fault;
  match f with
  | Some e => _ ← set_errno e; mret None
  | None =>
      fs ← get_fs;
      match fs !! path with
      | None => _ ← set_errno ENOENT; mret None
      | Some x => mret (Some x)
      end
  end.

Definition sys_chmod (path : string) (mode : N) : io bool :=
  f ← fault;
  match f with
  | Some e => _ ← set_errno e; mret false
  | None =>
      fs ← get_fs;
      match fs !! path with
      | None => _ ← set_errno ENOENT; mret false
      | Some x =>
          _ ← put_fs (<[path := {| f_lines := f_lines x; f_mode := mode;
                                    f_uid := f_uid x; f_gid := f_gid x |}]> fs);
          mret true
      end
  end.

(** [chown] and [lchown] coincide: the files of this model are regular
    files. *)
Definition sys_chown (path : string) (uid gid : N) : io bool :=
  f ← fault;
  match f with
  | Some e => _ ← set_errno e; mret false
  | None =>
      fs ← get_fs;
      match fs !! path with
      | None => _ ← set_errno ENOENT; mret false
      | Some x =>
          _ ← put_fs (<[path := {| f_lines := f_lines x; f_mode := f_mode x;
                                    f_uid := uid; f_gid := gid |}]> fs);
          mret true
      end
  end.

Definition sys_lchown (path : string) (uid gid : N) : io bool :=
  sys_chown path uid gid.

Definition sys_umask (mask : N) : io unit := fun w => (Ret tt, with_umask mask w).

(** [fopen(file, "wt")]: the file is created, or truncated when it
    exists. *)
Definition fopen_w (path : string) : io bool :=
  f ← fault;
  match f with
  | Some e => _ ← set_errno e; mret false
  | None =>
      fs ← get_fs;
      match fs !! path with
      | None =>
          fun w => put_fs (<[path := {| f_lines := [];
                                        f_mode := N.ldiff 438 (w_umask w);
                                        f_uid := w_euid w;
                                        f_gid := w_egid w |}]> fs) w
      | Some x =>
          put_fs (<[path := {| f_lines := []; f_mode := f_mode x;
                               f_uid := f_uid x; f_gid := f_gid x |}]> fs)
      end;;
      mret true
  end.

(** [putpwent], [putspent], [putgrent] on the stream opened on [path]: one
    more line. *)
Definition putent (path : string) (e : entry) : io bool :=
  f ← fault;
  match f with
  | Some err => _ ← set_errno err; mret false
  | None =>
      fs ← get_fs;
      match fs !! path with
      | None => _ ← set_errno EOTHER; mret false
      | Some x =>
          _ ← put_fs (<[path := {| f_lines := f_lines x ++ [e]; f_mode := f_mode x;
                                    f_uid := f_uid x; f_gid := f_gid x |}]> fs);
          mret true
      end
  end.

Definition fclose : io bool :=
  f ← fault;
  match f with
  | Some e => _ ← set_errno e; mret false
  | None => mret true
  end.

(** [fopen(file, "r")]: the lines of the file. *)
Definition fopen_r (path : string) : io (option (list entry)) :=
  f ← fault;
  match f with
  | Some e => _ ← set_errno e; mret None
  | None =>
      fs ← get_fs;
      match fs !! path with
      | None => _ ← set_errno ENOENT; mret None
      | Some x => mret (Some (f_lines x))
      end
  end.

Definition lckpwdf : io bool :=
  f ← fault;
  match f with
  | Some e => _ ← set_errno e; mret false
  | None => fun w => (Ret true, with_locked true w)
  end.

Definition ulckpwdf : io bool :=
  f ← fault;
  match f with
  | Some e => _ ← set_errno e; mret false
  | None => fun w => (Ret true, with_locked false w)
  end.

(** ** Reading the files *)

Definition as_passwd (e : entry) : option passwd :=
  match e with t_passwd pw => Some pw | _ => None end.
Definition as_shadow (e : entry) : option spwd :=
  match e with t_shadow sp => Some sp | _ => None end.
Definition as_group (e : entry) : option group :=
  match e with t_group gr => Some gr | _ => None end.

(** The [while] loop of the three readers: one call of [fgetpwent_r]
    ([fgetgrent_r], [fgetspent_r]) per round, which at the end of the input
    fails with [ENOENT].  A record that the parser delivers has a name, so
    the [break] on a [NULL] name is never taken. *)
Fixpoint read_loop {A} (mk : A → node) (head : list node) (input : list A)
  : io (list node) :=
  f ← fault;
  match f with
  | Some e => _ ← set_errno e; mret head
  | None =>
      match input with
      | [] => _ ← set_errno ENOENT; mret head
      | r :: input' => read_loop mk (add_node head (mk r)) input'
      end
  end.

(** [read_passwd(&list, file)]: the value returned and the list.  The
    stream delivers the lines of the file that are account records. *)
Definition read_passwd (head : list node) (file : string) : io (Z * list node) :=
  input ← fopen_r file;
  match input with
  | None => mret (1, head)
  | Some lines =>
      head' ← read_loop passwd_node head (omap as_passwd lines);
      e ← get_errno;
      if bool_decide (e ≠ Some ENOENT) then mret (2, head')
      else _ ← fclose; mret (0, head')
  end.

Definition read_group (head : list node) (file : string) : io (Z * list node) :=
  input ← fopen_r file;
  match input with
  | None => mret (1, head)
  | Some lines =>
      head' ← read_loop group_node head (omap as_group lines);
      e ← get_errno;
      if bool_decide (e ≠ Some ENOENT) then mret (2, head')
      else _ ← fclose; mret (0, head')
  end.

Definition read_shadow (head : list node) (file : string) : io (Z * list node) :=
  input ← fopen_r file;
  match input with
  | None => mret (1, head)
  | Some lines =>
      head' ← read_loop shadow_node head (omap as_shadow lines);
      e ← get_errno;
      if bool_decide (e ≠ Some ENOENT) then mret (2, head')
      else _ ← fclose; mret (0, head')
  end.

(** ** Writing the files *)

Fixpoint write_passwd_loop (passwd : list node) (file : string) : io bool :=
  match passwd with
  | [] => mret true
  | p :: next =>
      match n_d p with
      | t_passwd pw =>
          r ← putent file (t_passwd pw);
          if negb r then mret false else write_passwd_loop next file
      | _ => lift Abort
      end
  end.

(** [write_passwd(passwd, file)]; [true] is the C result 1.  No path of it
    removes [file]. *)
Definition write_passwd (passwd : list node) (file : string) : io bool :=
  output ← fopen_w file;
  if negb output then mret false
  else
    r ← write_passwd_loop passwd file;
    if negb r then mret false
    else
      c ← fclose;
      if negb c then mret false else mret true.

Fixpoint write_shadow_loop (shadow : list node) (file : string) : io bool :=
  match shadow with
  | [] => mret true
  | p :: next =>
      match n_d p with
      | t_shadow sp =>
          r ← putent file (t_shadow sp);
          if negb r then mret false else write_shadow_loop next file
      | _ => lift Abort
      end
  end.

Definition write_shadow (shadow : list node) (file : string) : io bool :=
  output ← fopen_w file;
  if negb output then mret false
  else
    r ← write_shadow_loop shadow file;
    if negb r then mret false
    else
      c ← fclose;
      if negb c then mret false else mret true.

Fixpoint write_group_loop (group : list node) (file : string) : io bool :=
  match group with
  | [] => mret true
  | p :: next =>
      match n_d p with
      | t_group gr =>
          r ← putent file (t_group gr);
          if negb r then mret false else write_group_loop next file
      | _ => lift Abort
      end
  end.

Definition write_group (group : list node) (file : string) : io bool :=
  output ← fopen_w file;
  if negb output then mret false
  else
    r ← write_group_loop group file;
    if negb r then mret false
    else
      c ← fclose;
      if negb c then mret false else mret true.

(** ** Replacing a file *)

Definition unlink_file (file : string) : io bool :=
  r ← sys_unlink file;
  if negb r then mret false else mret true.

Definition rename_file (source target : string) : io bool :=
  r ← sys_rename source target;
  if negb r then mret false else mret true.

Definition copy_filemodes (source target : string) : io bool :=
  st ← sys_lstat source;
  match st with
  | None => mret false
  | Some st =>
      c ← sys_chmod target (f_mode st);
      if negb c then mret false
      else
        o ← sys_lchown target (f_uid st) (f_gid st);
        if negb o then
          e ← get_errno;
          if bool_decide (e = Some ENOSYS) then
            tst ← sys_lstat target;
            match tst with
            | None => mret false
            | Some _ =>
                o' ← sys_chown target (f_uid st) (f_gid st);
                if negb o' then mret false else mret true
            end
          else mret false
        else mret true
  end.

Definition put_file_in_place (source target : string) : io bool :=
  let uf := (target ++ UNLINK_EXTENSION)%string in
  _ ← sys_umask 63;
  r ← rename_file target uf;
  if negb r then _ ← unlink_file source; mret false
  else
    r ← rename_file source target;
    if negb r then _ ← rename_file uf target; mret false
    else
      r ← copy_filemodes uf target;
      if negb r then _ ← unlink_file uf; mret false
      else unlink_file uf.

(** ** The program's variables, [commit_files] and [main] *)

Record options : Type := {
  master_passwd : string;
  master_group : string;
  sys_passwd : string;
  sys_shadow : string;
  sys_group : string;
  opt_dryrun : bool;
  opt_verbose : bool;
  opt_nolock : bool;
  opt_sanity : bool
}.

Record globals : Type := {
  master_accounts : list node;
  master_groups : list node;
  system_accounts : list node;
  system_shadow : list node;
  system_groups : list node;
  flag_dirty : Z
}.

Definition is_null (l : list node) : bool :=
  match l with [] => true | _ => false end.

Definition commit_files (o : options) (g : globals) : io bool :=
  if (flag_dirty g =? 0) then mret true
  else if opt_dryrun o then mret true
  else
    let wf := (sys_passwd o ++ WRITE_EXTENSION)%string in
    r ← write_passwd (system_accounts g) wf;
    if negb r then mret false
    else
      r ← put_file_in_place wf (sys_passwd o);
      if negb r then mret false
      else
        r ← (if negb (is_null (system_shadow g)) then
               let wf := (sys_shadow o ++ WRITE_EXTENSION)%string in
               r ← write_shadow (system_shadow g) wf;
               if negb r then mret false
               else put_file_in_place wf (sys_shadow o)
             else mret true);
        if negb r then mret false
        else
          let wf := (sys_group o ++ WRITE_EXTENSION)%string in
          r ← write_group (system_groups g) wf;
          if negb r then mret false
          else
            r ← put_file_in_place wf (sys_group o);
            if negb r then mret false else mret true.

Definition lock_files : io bool :=
  r ← lckpwdf;
  if negb r then mret false else mret true.

Definition unlock_files : io bool :=
  r ← ulckpwdf;
  if negb r then mret false else mret true.

Section Main.

Variable table : list userinfo.

(** [main] after the options have been parsed: the exit status and the
    final values of the program's variables. *)
Definition main (o : options) : io (Z * globals) :=
  let g0 := {| master_accounts := []; master_groups := [];
               system_accounts := []; system_shadow := [];
               system_groups := []; flag_dirty := 0 |} in
  '(r, ma) ← read_passwd (master_accounts g0) (master_passwd o);
  let g := {| master_accounts := ma; master_groups := master_groups g0;
              system_accounts := system_accounts g0; system_shadow := system_shadow g0;
              system_groups := system_groups g0; flag_dirty := flag_dirty g0 |} in
  if negb (r =? 0) then mret (2, g)
  else
  '(r, mg) ← read_group (master_groups g) (master_group o);
  let g := {| master_accounts := master_accounts g; master_groups := mg;
              system_accounts := system_accounts g; system_shadow := system_shadow g;
              system_groups := system_groups g; flag_dirty := flag_dirty g |} in
  if negb (r =? 0) then mret (2, g)
  else
  '(r, sa) ← read_passwd (system_accounts g) (sys_passwd o);
  let g := {| master_accounts := master_accounts g; master_groups := master_groups g;
              system_accounts := sa; system_shadow := system_shadow g;
              system_groups := system_groups g; flag_dirty := flag_dirty g |} in
  if negb (r =? 0) then mret (2, g)
  else
  '(r, ss) ← read_shadow (system_shadow g) (sys_shadow o);
  let g := {| master_accounts := master_accounts g; master_groups := master_groups g;
              system_accounts := system_accounts g; system_shadow := ss;
              system_groups := system_groups g; flag_dirty := flag_dirty g |} in
  e ← get_errno;
  if negb (r =? 0) && bool_decide (e ≠ Some ENOENT) then mret (2, g)
  else
  '(r, sg) ← read_group (system_groups g) (sys_group o);
  let g := {| master_accounts := master_accounts g; master_groups := master_groups g;
              system_accounts := system_accounts g; system_shadow := system_shadow g;
              system_groups := sg; flag_dirty := flag_dirty g |} in
  if negb (r =? 0) then mret (2, g)
  else
  '(sa, dirty) ← lift (reconcile_accounts table (system_accounts g) (master_accounts g)
                         (flag_dirty g));
  '(sg, dirty) ← lift (reconcile_groups table (system_groups g) (master_groups g) dirty);
  let g := {| master_accounts := master_accounts g; master_groups := master_groups g;
              system_accounts := sa; system_shadow := system_shadow g;
              system_groups := sg; flag_dirty := dirty |} in
  if opt_sanity o then mret (0, g)
  else
  l ← (if negb (opt_nolock o) && negb (opt_dryrun o) then lock_files else mret true);
  if negb l then mret (3, g)
  else
  c ← commit_files o g;
  if negb c then _ ← unlock_files; mret (4, g)
  else
  u ← (if negb (opt_nolock o) && negb (opt_dryrun o) then unlock_files else mret true);
  if negb u then mret (5, g)
  else if opt_dryrun o then mret (flag_dirty g, g)
  else mret (0, g).

End Main.

(** ** Notions used in the statements *)

(** The reserved range is 0-99; a node is outside it when its id is above
    99. *)
Definition outside_range (n : node) : bool := (99 <? n_id n)%N.

(** A list is ordered when the ids never decrease from one node to the
    next. *)
Fixpoint ordered (l : list node) : bool :=
  match l with
  | [] => true
  | a :: l' =>
      match l' with
      | [] => true
      | b :: _ => (n_id a <=? n_id b)%N && ordered l'
      end
  end.

(** What [read_passwd] establishes for every node it makes, and what
    [copy_node] and the reconciliation loops keep: an account node whose id
    is the uid, or [INT_MAX] when the name begins with [+]. *)
Definition account_ok (n : node) : bool :=
  match n_d n with
  | t_passwd pw =>
      bool_decide (n_id n = if starts_with_plus (n_name n) then INT_MAX else pw_uid pw)
  | _ => false
  end.

(** An account node of the master list whose description, home and shell
    are present (the parser leaves them [NULL] only for a line that consists
    of a [+] or [-] name alone). *)
Definition master_ok (n : node) : bool :=
  account_ok n &&
  match n_d n with
  | t_passwd pw =>
      bool_decide (is_Some (pw_gecos pw)) && bool_decide (is_Some (pw_dir pw))
      && bool_decide (is_Some (pw_shell pw))
  | _ => false
  end.

(** The account node that the body of the loop computes: the live node [p]
    (with record [pw]) synchronised with its master copy [mc] (with record
    [mpw]).  [keepgecos], [keephome] and [keepshell] are asked about the id
    the node has once its id has been synchronised, which is the master's. *)
Definition synced_account (table : list userinfo) (p : node) (pw : passwd)
  (mc : node) (mpw : passwd) : node :=
  {| n_d := t_passwd
       {| pw_name := pw_name pw;
          pw_passwd := pw_passwd pw;
          pw_uid := pw_uid mpw;
          pw_gid := pw_gid mpw;
          pw_gecos := if keepgecos table (n_id mc) then pw_gecos pw else pw_gecos mpw;
          pw_dir := if keephome table (n_id mc) then pw_dir pw else pw_dir mpw;
          pw_shell := if keepshell table (n_id mc) then pw_shell pw else pw_shell mpw |};
     n_name := n_name p;
     n_id := n_id mc |}.

Definition differs {A} `{EqDecision A} (a b : A) : Z :=
  if bool_decide (a = b) then 0 else 1.

(** The number of changes the body of the loop counts for the live node
    [p]; 0 for a node outside the reserved range or without a master copy. *)
Definition pending_account (table : list userinfo) (master : list node) (p : node)
  : Z :=
  if outside_range p then 0
  else
    match find_by_named_entry master p with
    | None => 0
    | Some mc =>
        match n_d p, n_d mc with
        | t_passwd pw, t_passwd mpw =>
            differs (n_id p) (n_id mc)
            + differs (pw_gid pw) (pw_gid mpw)
            + (if keepgecos table (n_id mc) then 0
               else differs (pw_gecos pw) (pw_gecos mpw))
            + (if keephome table (n_id mc) then 0
               else differs (pw_dir pw) (pw_dir mpw))
            + (if keepshell table (n_id mc) then 0
               else differs (pw_shell pw) (pw_shell mpw))
        | _, _ => 0
        end
    end.

Fixpoint pending_changes (table : list userinfo) (master passwd : list node) : Z :=
  match passwd with
  | [] => 0
  | p :: next => pending_account table master p + pending_changes table master next
  end.

(** Two policy tables that differ at most in the [FL_NOAUTOADD] bit of their
    entries.  An entry [{0, FL_NOAUTOADD}] would turn into the terminator if
    the bit were cleared, so the entries must also agree on being one. *)
Definition is_terminator (a : userinfo) : bool :=
  (ui_id a =? 0)%N && (ui_flags a =? 0)%N.

Definition entry_agrees (a b : userinfo) : bool :=
  (ui_id a =? ui_id b)%N
  && (N.lor (ui_flags a) FL_NOAUTOADD =? N.lor (ui_flags b) FL_NOAUTOADD)%N
  && Bool.eqb (is_terminator a) (is_terminator b).

Fixpoint tables_agree (t1 t2 : list userinfo) : bool :=
  match t1, t2 with
  | [], [] => true
  | a :: t1', b :: t2' => entry_agrees a b && tables_agree t1' t2'
  | _, _ => false
  end.

(** [specialusers] with the [FL_NOAUTOADD] bit cleared everywhere. *)
Definition specialusers_without_noautoadd : list userinfo :=
  map (fun a => {| ui_id := ui_id a; ui_flags := N.ldiff (ui_flags a) FL_NOAUTOADD |})
      specialusers.

(** *** Changes of the file system *)

(** [quiet w w']: nothing on disk changed between [w] and [w']. *)
Definition quiet (w w' : world) : Prop :=
  w_fs w' = w_fs w ∧ w_history w' = w_history w.

(** [wrote w w']: one change of the file system. *)
Definition wrote (w w' : world) : Prop :=
  w_history w' = w_history w ++ [w_fs w'].

Definition set_attrs (x : file) (mode uid gid : N) : file :=
  {| f_lines := f_lines x; f_mode := mode; f_uid := uid; f_gid := gid |}.

(** [same_lines path fs0 fs]: [fs] is [fs0] but for the mode and owner of the
    file at [path]. *)
Definition same_lines (path : string) (fs0 fs : gmap string file) : Prop :=
  (∀ p, p ≠ path → fs !! p = fs0 !! p)
  ∧ f_lines <$> fs !! path = f_lines <$> fs0 !! path.

Definition attrs_only (path : string) (w w' : world) : Prop :=
  same_lines path (w_fs w) (w_fs w')
  ∧ ∃ hs, w_history w' = w_history w ++ hs ∧ Forall (same_lines path (w_fs w)) hs.

(** What a state of the file system may have at the destination [target]
    while [staged] replaces [orig]: nothing, with the original under the aside
    name [uf]; the original; or a file with all the staged lines. *)
Definition dest_ok (target uf : string) (orig staged : file) (fs : gmap string file)
  : Prop :=
  (fs !! target = None ∧ fs !! uf = Some orig)
  ∨ fs !! target = Some orig
  ∨ (∃ f, fs !! target = Some f ∧ f_lines f = f_lines staged).

(** [only_path path w w']: between [w] and [w'] no path but [path] changed,
    and unless nothing changed at all there is a file at [path] in [w']. *)
Definition only_path (path : string) (w w' : world) : Prop :=
  (∀ p, p ≠ path → w_fs w' !! p = w_fs w !! p)
  ∧ (w_fs w' = w_fs w ∨ is_Some (w_fs w' !! path)).

(** What a run returned, when it returned. *)
Definition returned {A} (r : outcome A * world) : option A :=
  match r.1 with
  | Ret a => Some a
  | _ => None
  end.

(** ** Concrete records, lists and environments for the examples *)

Module Ex.

Definition account (name : string) (uid gid : N) (gecos dir shell : string) : passwd :=
  {| pw_name := name; pw_passwd := Some "x"%string; pw_uid := uid; pw_gid := gid;
     pw_gecos := Some gecos; pw_dir := Some dir; pw_shell := Some shell |}.

Definition grp (name : string) (gid : N) : group :=
  {| gr_name := name; gr_passwd := Some "x"%string; gr_gid := gid; gr_mem := [] |}.

Definition root : passwd := account "root" 0 0 "root" "/root" "/bin/bash".
Definition daemon : passwd := account "daemon" 1 1 "daemon" "/usr/sbin" "/bin/sh".
Definition games : passwd := account "games" 5 60 "games" "/usr/games" "/bin/sh".
Definition ftp : passwd := account "ftp" 11 11 "ftp" "/srv/ftp" "/bin/false".
Definition www_data : passwd :=
  account "www-data" 33 33 "www-data" "/var/www" "/usr/sbin/nologin".
Definition oldtool : passwd := account "oldtool" 60 60 "" "/var/lib/oldtool" "/bin/sh".
Definition legacy : passwd := account "legacy" 61 61 "" "/var/lib/legacy" "/bin/sh".
Definition alice : passwd := account "alice" 1000 1000 "Alice" "/home/alice" "/bin/bash".
Definition nobody : passwd :=
  account "nobody" 65534 65534 "nobody" "/nonexistent" "/bin/sh".
Definition nfsnobody : passwd :=
  account "nfsnobody" 4294967294 4294967294 "" "/var/lib/nfs" "/sbin/nologin".

(** The line [+::::::] of a compat-mode passwd file. *)
Definition plus : passwd := account "+" 0 0 "" "" "".

(** Live accounts that differ from the master's. *)
Definition live_root : passwd := account "root" 0 0 "Super User" "/root" "/bin/zsh".
Definition live_games : passwd := account "games" 5 100 "games" "/usr/games" "/bin/sh".
Definition live_www_data : passwd :=
  account "www-data" 33 33 "web" "/srv/www" "/bin/sh".

Definition g_root : group := grp "root" 0.
Definition g_users : group := grp "users" 100.
Definition g_plus : group := grp "+" 0.

Definition n (pw : passwd) : node := passwd_node pw.

(** A master list and live lists. *)
Definition master : list node := [n root].
Definition master_nobody : list node := [n root; n nobody].
Definition master_sync : list node := [n root; n games; n www_data].
Definition live_stale : list node := [n root; n oldtool; n legacy; n alice].
Definition live_stale_last : list node := [n root; n oldtool].
Definition live_plain : list node := [n root; n alice].
Definition live_sync : list node := [n live_root; n live_games; n live_www_data; n alice].
Definition live_plus : list node := [n root; n alice; n plus].
Definition live_plus_stale : list node := [n root; n oldtool; n alice; n plus].
Definition master_ftp : list node := [n root; n ftp].

Definition regular (lines : list entry) : file :=
  {| f_lines := lines; f_mode := 420; f_uid := 0; f_gid := 0 |}.

Definition staged_file (lines : list entry) : file :=
  {| f_lines := lines; f_mode := 384; f_uid := 0; f_gid := 0 |}.

Definition world_of (fs : gmap string file) (faults : list (option errno)) : world :=
  {| w_fs := fs; w_faults := faults; w_errno := None; w_umask := 18;
     w_euid := 0; w_egid := 0; w_locked := false; w_history := [] |}.

Definition opts (sanity : bool) : options :=
  {| master_passwd := "/usr/share/base-passwd/passwd.master";
     master_group := "/usr/share/base-passwd/group.master";
     sys_passwd := "/etc/passwd";
     sys_shadow := "/etc/shadow";
     sys_group := "/etc/group";
     opt_dryrun := false; opt_verbose := false; opt_nolock := false;
     opt_sanity := sanity |}.

(** The files of a small system: [oldtool] is no longer in the master. *)
Definition fs_system : gmap string file :=
  <["/usr/share/base-passwd/passwd.master"%string := regular [t_passwd root]]>
  (<["/usr/share/base-passwd/group.master"%string := regular [t_group g_root]]>
  (<["/etc/passwd"%string :=
       regular [t_passwd root; t_passwd oldtool; t_passwd alice]]>
  (<["/etc/group"%string := regular [t_group g_root; t_group g_users]]> ∅))).

(** The same with two stale accounts in a row. *)
Definition fs_stale : gmap string file :=
  <["/usr/share/base-passwd/passwd.master"%string := regular [t_passwd root]]>
  (<["/usr/share/base-passwd/group.master"%string := regular [t_group g_root]]>
  (<["/etc/passwd"%string :=
       regular [t_passwd root; t_passwd oldtool; t_passwd legacy; t_passwd alice]]>
  (<["/etc/group"%string := regular [t_group g_root; t_group g_users]]> ∅))).

(** A passwd file with an [+] line followed by an account with a large
    uid. *)
Definition fs_plus : gmap string file :=
  <["/etc/passwd"%string :=
      regular [t_passwd root; t_passwd plus; t_passwd nfsnobody]]> ∅.

(** A destination and the staged file that is to replace it. *)
Definition fs_publish : gmap string file :=
  <["/etc/passwd"%string := regular [t_passwd root; t_passwd oldtool; t_passwd alice]]>
  (<["/etc/passwd.upwd-write"%string := staged_file [t_passwd root; t_passwd alice]]> ∅).

Definition globals_dirty : globals :=
  {| master_accounts := master; master_groups := [group_node g_root];
     system_accounts := live_plain; system_shadow := [];
     system_groups := [group_node g_root; group_node g_users];
     flag_dirty := 1 |}.

End Ex.

(** ** Proof automation *)

Ltac io_unfold :=
  unfold sys_rename, sys_unlink, sys_lstat, sys_chmod, sys_chown, sys_lchown,
    fopen_w, putent, fclose, fopen_r, lckpwdf, ulckpwdf, fault, set_errno,
    get_fs, put_fs, get_errno, sys_umask, lift;
  unfold mbind, io_bind, mret, io_ret; cbn.

Ltac io_quiet := left; eexists; split; [reflexivity | by split].


(** ** Further notions used in the statements *)

(** A node that [process_old_entries] removes when it examines it: in the
    reserved range, without [FL_NOAUTOREMOVE], and without a node of its name
    in the master list. *)
Definition stale (table : list userinfo) (master : list node) (p : node) : bool :=
  negb ((n_id p <? 0)%N || (99 <? n_id p)%N)
  && negb (noautoremove table (n_id p))
  && match find_by_named_entry master p with
     | None => true
     | Some _ => false
     end.

(** Every stale node of the list is directly followed by a node that is not
    stale. *)
Fixpoint stale_apart (table : list userinfo) (master l : list node) : bool :=
  match l with
  | [] => true
  | p :: l' =>
      if stale table master p then
        match l' with
        | [] => false
        | q :: _ => negb (stale table master q) && stale_apart table master l'
        end
      else stale_apart table master l'
  end.

(** A string without [%], which [sprintf] copies as it is. *)
Fixpoint no_percent (s : string) : bool :=
  match s with
  | EmptyString => true
  | String c s' => negb (Ascii.eqb c "%") && no_percent s'
  end.

Definition plain_field (o : option string) : bool :=
  match o with
  | Some s => no_percent s
  | None => false
  end.

(** All the strings that [copy_node] copies are present and without [%]. *)
Definition plain (n : node) : bool :=
  match n_d n with
  | t_passwd pw =>
      no_percent (pw_name pw) && plain_field (pw_passwd pw)
      && plain_field (pw_gecos pw) && plain_field (pw_dir pw)
      && plain_field (pw_shell pw)
  | t_shadow sp => no_percent (sp_namp sp) && plain_field (sp_pwdp sp)
  | t_group gr => no_percent (gr_name gr) && plain_field (gr_passwd gr)
  end.

Definition field_size (o : option string) : Z :=
  match o with
  | Some s => strlen s + 1
  | None => 0
  end.

(** The number of bytes of [buf] that [copy_node] uses for a plain node. *)
Definition copy_size (n : node) : Z :=
  match n_d n with
  | t_passwd pw =>
      (strlen (pw_name pw) + 1) + field_size (pw_passwd pw)
      + field_size (pw_gecos pw) + field_size (pw_dir pw)
      + field_size (pw_shell pw)
  | t_shadow sp => (strlen (sp_namp sp) + 1) + field_size (sp_pwdp sp)
  | t_group gr =>
      (strlen (gr_name gr) + 1) + field_size (gr_passwd gr)
      + (strlen (gr_name gr) + 1)
  end.

(** The first node of the list has the least id. *)
Definition head_is_least (l : list node) : bool :=
  match l with
  | [] => true
  | h :: _ => forallb (fun x => (n_id h <=? n_id x)%N) l
  end.

(** What [read_group] establishes for every node it makes: a group node
    whose id is the gid, or [INT_MAX] when the name begins with [+]. *)
Definition group_ok (n : node) : bool :=
  match n_d n with
  | t_group gr =>
      bool_decide (n_id n = if starts_with_plus (n_name n) then INT_MAX else gr_gid gr)
  | _ => false
  end.

(** The group node [g] (with record [gr]) with the id and gid of its master
    copy [mc] (with record [mgr]). *)
Definition synced_group (g : node) (gr : group) (mc : node) (mgr : group) : node :=
  {| n_d := t_group {| gr_name := gr_name gr; gr_passwd := gr_passwd gr;
                       gr_gid := gr_gid mgr; gr_mem := gr_mem gr |};
     n_name := n_name g;
     n_id := n_id mc |}.

(** 1 for a group node of the reserved range whose id differs from that of
    its master copy, 0 otherwise. *)
Definition pending_group (master : list node) (g : node) : Z :=
  if outside_range g then 0
  else
    match find_by_named_entry master g with
    | None => 0
    | Some mc => differs (n_id g) (n_id mc)
    end.

Fixpoint pending_group_changes (master group : list node) : Z :=
  match group with
  | [] => 0
  | g :: next => pending_group master g + pending_group_changes master next
  end.

(** The list has a node with the name of [m]. *)
Definition has_name (l : list node) (m : node) : bool :=
  match find_by_named_entry l m with
  | Some _ => true
  | None => false
  end.

(** No two nodes of the list have the same name. *)
Fixpoint distinct_names (l : list node) : bool :=
  match l with
  | [] => true
  | x :: l' => negb (has_name l' x) && distinct_names l'
  end.

(** What the loops that change entries never touch: the name, the password
    field, the kind of record, the members of a group. *)
Definition same_identity (p p' : node) : Prop :=
  n_name p' = n_name p
  ∧ match n_d p, n_d p' with
    | t_passwd pw, t_passwd pw' =>
        pw_name pw' = pw_name pw ∧ pw_passwd pw' = pw_passwd pw
    | t_shadow sp, t_shadow sp' => sp' = sp
    | t_group gr, t_group gr' =>
        gr_name gr' = gr_name gr ∧ gr_passwd gr' = gr_passwd gr
        ∧ gr_mem gr' = gr_mem gr
    | _, _ => False
    end.

Definition is_account (n : node) : bool :=
  match n_d n with
  | t_passwd _ => true
  | _ => false
  end.

(** The file that [fopen(path, "wt")] leaves at [path]: empty, with the mode
    and owner of the file that was there, or those of a new file. *)
Definition opened (path : string) (w : world) : file :=
  match w_fs w !! path with
  | Some x => {| f_lines := []; f_mode := f_mode x; f_uid := f_uid x; f_gid := f_gid x |}
  | None => {| f_lines := []; f_mode := N.ldiff 438 (w_umask w);
               f_uid := w_euid w; f_gid := w_egid w |}
  end.

Definition with_lines (x : file) (lines : list entry) : file :=
  {| f_lines := lines; f_mode := f_mode x; f_uid := f_uid x; f_gid := f_gid x |}.

(** [untouched_outside ps w w']: between [w] and [w'] no path outside [ps]
    has changed. *)
Definition untouched_outside (ps : list string) (w w' : world) : Prop :=
  ∀ p, ¬ In p ps → w_fs w' !! p = w_fs w !! p.

Definition is_shadow (n : node) : bool :=
  match n_d n with
  | t_shadow _ => true
  | _ => false
  end.

Definition is_group (n : node) : bool :=
  match n_d n with
  | t_group _ => true
  | _ => false
  end.

(** The list a reader builds from the lines of a file, starting from the
    empty list. *)
Definition loaded {A} (mk : A → node) (sel : entry → option A) (x : file)
  : list node :=
  fold_left add_node (map mk (omap sel (f_lines x))) [].

(** The names [commit_files] uses: each of the three files, its staging name
    and its aside name. *)
Definition commit_paths (o : options) : list string :=
  [sys_passwd o; String.append (sys_passwd o) WRITE_EXTENSION;
   String.append (sys_passwd o) UNLINK_EXTENSION;
   sys_shadow o; String.append (sys_shadow o) WRITE_EXTENSION;
   String.append (sys_shadow o) UNLINK_EXTENSION;
   sys_group o; String.append (sys_group o) WRITE_EXTENSION;
   String.append (sys_group o) UNLINK_EXTENSION].

(** ** The program of version 0.5: [sanity_check] *)

Module V05.

(** One of the two [while] loops of [sanity_check], over the ids of the
    records that [getpwent] ([getgrent]) delivers; [false] is the
    [return -1].  [count] is an [int] and the id is unsigned, so the
    comparison is made on [(unsigned) count]. *)
Fixpoint sanity_loop (count : Z) (ids : list N) : bool :=
  match ids with
  | [] => true
  | id :: rest =>
      if Z.of_N id <? count mod 2 ^ 32 then false
      else sanity_loop (if (id <? 100)%N then Z.of_N id else count) rest
  end.

Definition sanity_check (pws : list passwd) (grs : list group) : Z :=
  if negb (sanity_loop 0 (map pw_uid pws)) then -1
  else if negb (sanity_loop 0 (map gr_gid grs)) then -1
  else 0.

End V05.

(** The ids of the list are in ascending order (equal neighbours allowed)
    and none is below [lo]. *)
Fixpoint ascending_from (lo : N) (ids : list N) : bool :=
  match ids with
  | [] => true
  | i :: rest => (lo <=? i)%N && ascending_from i rest
  end.

(** The ids below 100, taken in the order of the list, are in ascending
    order. *)
Definition reserved_in_order (ids : list N) : bool :=
  ascending_from 0 (List.filter (fun i => (i <? 100)%N) ids).

(** ** Further concrete values for the examples *)

Module Ex2.

(** The value a run returned, or [dflt]. *)
Definition value_of {A} (dflt : A) (o : outcome A) : A :=
  match o with
  | Ret a => a
  | _ => dflt
  end.

Definition shadow_of (name : string) : spwd :=
  {| sp_namp := name; sp_pwdp := Some "*"%string; sp_lstchg := 19000; sp_min := 0;
     sp_max := 99999; sp_warn := 7; sp_inact := -1; sp_expire := -1 |}.

Definition secret (lines : list entry) : file :=
  {| f_lines := lines; f_mode := 416; f_uid := 0; f_gid := 42 |}.

Definition passwd_file : file :=
  Ex.regular [t_passwd Ex.root; t_passwd Ex.oldtool; t_passwd Ex.alice].
Definition group_file : file := Ex.regular [t_group Ex.g_root; t_group Ex.g_users].
Definition shadow_file : file :=
  secret [t_shadow (shadow_of "root"); t_shadow (shadow_of "oldtool");
          t_shadow (shadow_of "alice")].
Definition passwd_master_file : file := Ex.regular [t_passwd Ex.root].
Definition group_master_file : file := Ex.regular [t_group Ex.g_root].

(** The files of [Ex.fs_system] and a shadow file. *)
Definition fs_full : gmap string file :=
  <["/etc/shadow"%string := shadow_file]> Ex.fs_system.

(** A live group list in which the gid of [root] differs from the
    master's. *)
Definition live_groups : list node :=
  [group_node (Ex.grp "root" 3); group_node Ex.g_users].
Definition master_groups : list node := [group_node Ex.g_root].

End Ex2.


(** ** The policy by the table, and the account the spec asks for *)

(** The table has no entry [{0, 0}]: it lists the entries that precede the
    terminator of the array. *)
Definition no_terminator (table : list userinfo) : bool :=
  forallb (fun e => negb (is_terminator e)) table.

(** [lookup(id)]: the flag set of the first entry of the table that has the
    id, and no flags for an id that the table does not have. *)
Fixpoint spec_lookup (table : list userinfo) (id : N) : N :=
  match table with
  | [] => 0%N
  | e :: table' => if (ui_id e =? id)%N then ui_flags e else spec_lookup table' id
  end.

(** The three preserve flags are single bits of the flag set:
    preserve-home is bit 0, preserve-shell bit 1, preserve-description
    bit 2. *)
Inductive account_field : Type := Description | Home | Shell.

Definition preserve_bit (f : account_field) : N :=
  match f with
  | Home => 0
  | Shell => 1
  | Description => 2
  end%N.

(** The policy of the id suppresses the overwrite of the field. *)
Definition spec_preserved (table : list userinfo) (id : N) (f : account_field) : bool :=
  N.testbit (spec_lookup table id) (preserve_bit f).

(** A field after the update: the value it had when the policy preserves
    it, the master's value otherwise. *)
Definition spec_field {A} (table : list userinfo) (id : N) (f : account_field)
  (cur mc : A) : A :=
  if spec_preserved table id f then cur else mc.

(** The account that the update is to leave for the live node [p] (with
    record [pw]) whose master copy is [mc] (with record [mpw]): the master's
    id, uid and gid; the master's description, home and shell, each unless
    the policy of the id preserves it; name and password as they were. *)
Definition spec_synced_account (table : list userinfo) (p : node) (pw : passwd)
  (mc : node) (mpw : passwd) : node :=
  {| n_d := t_passwd
       {| pw_name := pw_name pw;
          pw_passwd := pw_passwd pw;
          pw_uid := pw_uid mpw;
          pw_gid := pw_gid mpw;
          pw_gecos := spec_field table (n_id mc) Description (pw_gecos pw) (pw_gecos mpw);
          pw_dir := spec_field table (n_id mc) Home (pw_dir pw) (pw_dir mpw);
          pw_shell := spec_field table (n_id mc) Shell (pw_shell pw) (pw_shell mpw) |};
     n_name := n_name p;
     n_id := n_id mc |}.

(** 1 for a field that the policy does not preserve and that differs from
    the master's value, 0 for a preserved field and for a field that already
    has the master's value. *)
Definition spec_field_change {A} `{EqDecision A} (table : list userinfo) (id : N)
  (f : account_field) (cur mc : A) : Z :=
  if spec_preserved table id f then 0 else differs cur mc.

(** The changes the update is to count for the live node [p]: one for the
    id, one for the gid and one for each of the three fields, when it
    differs from the master's and is not preserved; none for a node outside
    the reserved range or without a master copy. *)
Definition spec_changes_of (table : list userinfo) (master : list node) (p : node)
  : Z :=
  if outside_range p then 0
  else
    match find_by_named_entry master p with
    | None => 0
    | Some mc =>
        match n_d p, n_d mc with
        | t_passwd pw, t_passwd mpw =>
            differs (n_id p) (n_id mc)
            + differs (pw_gid pw) (pw_gid mpw)
            + spec_field_change table (n_id mc) Description (pw_gecos pw) (pw_gecos mpw)
            + spec_field_change table (n_id mc) Home (pw_dir pw) (pw_dir mpw)
            + spec_field_change table (n_id mc) Shell (pw_shell pw) (pw_shell mpw)
        | _, _ => 0
        end
    end.

Fixpoint spec_changes (table : list userinfo) (master live : list node) : Z :=
  match live with
  | [] => 0
  | p :: next => spec_changes_of table master p + spec_changes table master next
  end.

(** ** The failure schedule and the names of [put_file_in_place] *)

(** [PATH_MAX] of <limits.h> (Linux).  [put_file_in_place] builds the aside
    name with [snprintf(uf, PATH_MAX, ...)]: the name is the concatenation
    when it fits into the buffer with its terminating byte. *)
Definition PATH_MAX : nat := 4096.

Definition aside_name_fits (target : string) : bool :=
  (String.length target + String.length UNLINK_EXTENSION <? PATH_MAX)%nat.

(** The next library call is not made to fail. *)
Definition next_call_runs (fl : list (option errno)) : bool :=
  match fl with
  | Some _ :: _ => false
  | _ => true
  end.

(** ** Strings as [printf] formats *)

(** Every [%] of the string is doubled: as a format the string has no
    conversion that reads an argument. *)
Fixpoint escaped (s : string) : bool :=
  match s with
  | EmptyString => true
  | String "%"%char (String "%"%char rest) => escaped rest
  | String "%"%char _ => false
  | String _ rest => escaped rest
  end.

Definition escaped_field (o : option string) : bool :=
  match o with
  | Some s => escaped s
  | None => false
  end.

(** All the strings that [copy_node] copies are present and have every [%]
    doubled. *)
Definition escaped_node (n : node) : bool :=
  match n_d n with
  | t_passwd pw =>
      escaped (pw_name pw) && escaped_field (pw_passwd pw)
      && escaped_field (pw_gecos pw) && escaped_field (pw_dir pw)
      && escaped_field (pw_shell pw)
  | t_shadow sp => escaped (sp_namp sp) && escaped_field (sp_pwdp sp)
  | t_group gr => escaped (gr_name gr) && escaped_field (gr_passwd gr)
  end.

(** What a copy [n'] of the node [n] has kept: the id and the name, the
    kind of record, the numbers and the member list of a group; and no
    string of the copy is longer than the string it was copied from. *)
Definition copy_keeps (n n' : node) : Prop :=
  n_id n' = n_id n ∧ n_name n' = n_name n
  ∧ match n_d n, n_d n' with
    | t_passwd pw, t_passwd pw' =>
        pw_uid pw' = pw_uid pw ∧ pw_gid pw' = pw_gid pw
        ∧ strlen (pw_name pw') <= strlen (pw_name pw)
        ∧ field_size (pw_passwd pw') <= field_size (pw_passwd pw)
        ∧ field_size (pw_gecos pw') <= field_size (pw_gecos pw)
        ∧ field_size (pw_dir pw') <= field_size (pw_dir pw)
        ∧ field_size (pw_shell pw') <= field_size (pw_shell pw)
    | t_shadow sp, t_shadow sp' =>
        (sp_lstchg sp', sp_min sp', sp_max sp', sp_warn sp', sp_inact sp', sp_expire sp')
        = (sp_lstchg sp, sp_min sp, sp_max sp, sp_warn sp, sp_inact sp, sp_expire sp)
        ∧ strlen (sp_namp sp') <= strlen (sp_namp sp)
        ∧ field_size (sp_pwdp sp') <= field_size (sp_pwdp sp)
    | t_group gr, t_group gr' =>
        gr_gid gr' = gr_gid gr ∧ gr_mem gr' = gr_mem gr
        ∧ strlen (gr_name gr') <= strlen (gr_name gr)
        ∧ field_size (gr_passwd gr') <= field_size (gr_passwd gr)
    | _, _ => False
    end.

(** An account whose description holds a doubled [%]. *)
Module Ex3.

Definition discount : passwd :=
  Ex.account "games" 5 60 "100%% fun" "/usr/games" "/bin/sh".
Definition discount_copy : passwd :=
  Ex.account "games" 5 60 "100% fun" "/usr/games" "/bin/sh".

(** The account [www-data] once it is synchronised: the home is kept. *)
Definition www_data_synced : passwd :=
  Ex.account "www-data" 33 33 "www-data" "/srv/www" "/usr/sbin/nologin".

End Ex3.

(** * Properties *)

(** ** Outcomes *)

Lemma bind_Ret {A B} (m : outcome A) (f : A → outcome B) (b : B) :
  mbind f m = Ret b → ∃ a, m = Ret a ∧ f a = Ret b.
Proof. destruct m; simpl; intros H; try discriminate. eauto. Qed.

(** ** The record store *)

Lemma ordered_cons a l : ordered (a :: l) = true → ordered l = true.
Proof.
  destruct l as [|b l]; [done|]. simpl. intros H.
  apply andb_true_iff in H as [_ H]. exact H.
Qed.

Lemma ordered_head_le a l :
  ordered (a :: l) = true → Forall (fun q => (n_id a <= n_id q)%N) l.
Proof.
  revert a. induction l as [|b l IH]; intros a H; [constructor|].
  simpl in H. apply andb_true_iff in H as [Hab Hl].
  apply N.leb_le in Hab. constructor; [exact Hab|].
  specialize (IH b Hl).
  eapply Forall_impl; [exact IH|]. simpl. intros q Hq. lia.
Qed.

Lemma ordered_after before n after :
  ordered (before ++ n :: after) = true →
  Forall (fun q => (n_id n <= n_id q)%N) after.
Proof.
  induction before as [|b before IH]; simpl app; intros H.
  - by apply ordered_head_le.
  - apply IH. by eapply ordered_cons.
Qed.

Lemma add_node_walk_ordered next : ∀ walk n,
  ordered (walk :: next) = true → (n_id walk <= n_id n)%N →
  ordered (add_node_walk walk next n) = true.
Proof.
  induction next as [|nx rest IH]; intros walk n Hord Hle.
  - simpl. apply N.leb_le in Hle. by rewrite Hle.
  - simpl in Hord. apply andb_true_iff in Hord as [Hwn Hrest].
    cbn [add_node_walk]. destruct (n_id nx <=? n_id n)%N eqn:Hnx.
    + apply N.leb_le in Hnx. specialize (IH nx n Hrest Hnx).
      destruct (add_node_walk nx rest n) as [|x l] eqn:Hw.
      * done.
      * assert (n_id x = n_id nx) as Hx.
        { destruct rest as [|r rest']; simpl in Hw.
          - by inversion Hw.
          - destruct (n_id r <=? n_id n)%N; by inversion Hw. }
        change (ordered (walk :: x :: l)) with ((n_id walk <=? n_id x)%N && ordered (x :: l)).
        rewrite Hx, Hwn. exact IH.
    + apply N.leb_gt in Hnx.
      change ((n_id walk <=? n_id n)%N && ((n_id n <=? n_id nx)%N && ordered (nx :: rest)) = true).
      apply N.leb_le in Hle. rewrite Hle. simpl.
      assert ((n_id n <=? n_id nx)%N = true) as -> by (apply N.leb_le; lia).
      exact Hrest.
Qed.

Lemma add_node_ordered head n :
  ordered head = true → ordered (add_node head n) = true.
Proof.
  destruct head as [|h rest]; [done|]. intros H. unfold add_node.
  destruct (n_id n <? n_id h)%N eqn:Hlt; [done|].
  apply N.ltb_ge in Hlt. by apply add_node_walk_ordered.
Qed.

Lemma add_node_walk_In next : ∀ walk n, In n (add_node_walk walk next n).
Proof.
  induction next as [|nx rest IH]; intros walk n; simpl.
  - auto.
  - destruct (n_id nx <=? n_id n)%N; simpl; auto.
Qed.

Lemma add_node_In head n : In n (add_node head n).
Proof.
  destruct head as [|h rest]; simpl; [auto|].
  destruct (n_id n <? n_id h)%N; simpl; [auto|]. apply add_node_walk_In.
Qed.

(** ** Removing and changing leave the nodes outside the range alone *)

Section Untouched.

Variable table : list userinfo.

Lemma process_old_entries_outside_len (k : nat) :
  ∀ passwd master d l d',
    (length passwd ≤ k)%nat →
    process_old_entries table passwd master d = Ret (l, d') →
    List.filter outside_range l = List.filter outside_range passwd.
Proof.
  induction k as [|k IH]; intros passwd master d l d' Hlen H.
  - destruct passwd; simpl in Hlen; [|lia]. simpl in H. by inversion H.
  - destruct passwd as [|p next]; [simpl in H; by inversion H|].
    simpl in Hlen. simpl in H.
    assert (Hkeep : ∀ d0,
      (l0 ← process_old_entries table next master d0;
       let '(l1, dirty) := l0 in Ret (p :: l1, dirty)) = Ret (l, d') →
      List.filter outside_range l = List.filter outside_range (p :: next)).
    { intros d0 Hb. apply bind_Ret in Hb as [[l1 d1] [H1 H2]]. inversion H2; subst.
      simpl. erewrite IH; [done| lia | exact H1]. }
    destruct ((n_id p <? 0)%N || (99 <? n_id p)%N) eqn:Hr; [by eapply Hkeep|].
    destruct (noautoremove table (n_id p)); [by eapply Hkeep|].
    destruct (find_by_named_entry master p); [by eapply Hkeep|].
    destruct next as [|q next']; [discriminate|].
    apply bind_Ret in H as [[l1 d1] [H1 H2]]. inversion H2; subst.
    apply orb_false_iff in Hr as [_ Hr].
    assert (Hp : outside_range p = false) by exact Hr.
    simpl. rewrite Hp.
    erewrite IH; [done | simpl in Hlen; lia | exact H1].
Qed.

Lemma process_old_entries_outside passwd master d l d' :
  process_old_entries table passwd master d = Ret (l, d') →
  List.filter outside_range l = List.filter outside_range passwd.
Proof. by apply (process_old_entries_outside_len (length passwd)). Qed.

Lemma changed_account_outside p master d :
  outside_range p = true → changed_account table p master d = Ret (p, d).
Proof.
  unfold outside_range, changed_account. intros ->. by rewrite orb_true_r.
Qed.

Lemma changed_group_outside g master d :
  outside_range g = true → changed_group g master d = Ret (g, d).
Proof.
  unfold outside_range, changed_group. intros ->. by rewrite orb_true_r.
Qed.

Lemma process_changed_accounts_outside passwd : ∀ master d l d',
  process_changed_accounts table passwd master d = Ret (l, d') →
  Forall2 (fun p p' => outside_range p = true → p' = p) passwd l.
Proof.
  induction passwd as [|p next IH]; intros master d l d' H; simpl in H.
  - inversion H. constructor.
  - apply bind_Ret in H as [[p' d1] [Hp H]].
    apply bind_Ret in H as [[l1 d2] [Hl H]]. inversion H; subst.
    constructor; [|by eapply IH].
    intros Hout. rewrite (changed_account_outside _ _ _ Hout) in Hp. by inversion Hp.
Qed.

Lemma process_changed_groups_outside group : ∀ master d l d',
  process_changed_groups group master d = Ret (l, d') →
  Forall2 (fun p p' => outside_range p = true → p' = p) group l.
Proof.
  induction group as [|p next IH]; intros master d l d' H; simpl in H.
  - inversion H. constructor.
  - apply bind_Ret in H as [[p' d1] [Hp H]].
    apply bind_Ret in H as [[l1 d2] [Hl H]]. inversion H; subst.
    constructor; [|by eapply IH].
    intros Hout. rewrite (changed_group_outside _ _ _ Hout) in Hp. by inversion Hp.
Qed.

End Untouched.

Lemma Forall2_same_at {A} (P : A → Prop) (l1 l2 : list A) i x :
  Forall2 (fun p p' => P p → p' = p) l1 l2 →
  l1 !! i = Some x → P x → l2 !! i = Some x.
Proof.
  intros HF. revert i. induction HF as [|a b l1 l2 Hab HF IH]; intros i Hi HP.
  - done.
  - destruct i as [|i]; simpl in *.
    + inversion Hi; subst. by rewrite (Hab HP).
    + by apply IH.
Qed.

Lemma In_filter_transfer (f : node → bool) (l1 l2 : list node) n :
  List.filter f l1 = List.filter f l2 → f n = true → In n l2 → In n l1.
Proof.
  intros Heq Hf Hin.
  assert (In n (List.filter f l2)) as H by (apply filter_In; auto).
  rewrite <- Heq in H. by apply filter_In in H as [H _].
Qed.

(** ** When [process_old_entries] returns

    The loop goes through [NULL] only when it removes the last node of the
    list; it returns whenever the last node is one it does not remove, for
    instance a node outside the reserved range. *)

Lemma process_old_entries_returns_len (table : list userinfo) (k : nat) :
  ∀ passwd master d z,
    (length passwd ≤ k)%nat →
    last passwd = Some z → outside_range z = true →
    ∃ l d', process_old_entries table passwd master d = Ret (l, d').
Proof.
  induction k as [|k IH]; intros passwd master d z Hlen Hlast Hz.
  - destruct passwd; [done | simpl in Hlen; lia].
  - destruct passwd as [|p next]; [done|]. simpl in Hlen.
    assert (Hkeep : ∀ d0, next ≠ [] →
      ∃ l d', (l0 ← process_old_entries table next master d0;
               let '(l1, dirty) := l0 in Ret (p :: l1, dirty)) = Ret (l, d')).
    { intros d0 Hne.
      assert (last next = Some z) as Hl.
      { destruct next; [done|]. by rewrite last_cons_cons in Hlast. }
      destruct (IH next master d0 z ltac:(lia) Hl Hz) as (l1 & d1 & ->).
      by eexists _, _. }
    destruct next as [|q next'].
    + (* [p] is the last node: it is outside the range and kept *)
      simpl in Hlast. inversion Hlast; subst z.
      simpl. unfold outside_range in Hz. rewrite Hz, orb_true_r. by eexists _, _.
    + cbn [process_old_entries].
      destruct ((n_id p <? 0)%N || (99 <? n_id p)%N); [by apply Hkeep|].
      destruct (noautoremove table (n_id p)); [by apply Hkeep|].
      destruct (find_by_named_entry master p); [by apply Hkeep|].
      destruct next' as [|r next''].
      * exists [q], (d + 1). reflexivity.
      * assert (last (r :: next'') = Some z) as Hl.
        { by rewrite !last_cons_cons in Hlast. }
        simpl in Hlen.
        destruct (IH (r :: next'') master (d + 1) z ltac:(simpl; lia) Hl Hz)
          as (l1 & d1 & ->).
        by eexists _, _.
Qed.

Lemma process_old_entries_returns table passwd master d z :
  last passwd = Some z → outside_range z = true →
  ∃ l d', process_old_entries table passwd master d = Ret (l, d').
Proof. by apply (process_old_entries_returns_len table (length passwd)). Qed.

(** ** What the lists of accounts keep

    [account_ok] holds for the nodes [read_passwd] makes and is kept by
    [copy_node], [add_node], [process_new_entries] and
    [process_old_entries]. *)

Lemma passwd_node_account_ok pw : account_ok (passwd_node pw) = true.
Proof. unfold account_ok, passwd_node. simpl. by apply bool_decide_eq_true. Qed.

Lemma copy_node_account_ok m m' :
  account_ok m = true → copy_node m = Ret m' → account_ok m' = true.
Proof.
  unfold account_ok, copy_node. destruct (n_d m) as [pw| |]; try done.
  intros Hok H. apply bind_Ret in H as [pw' [Hcopy H]]. inversion H; subst. simpl.
  assert (pw_uid pw' = pw_uid pw) as ->; [|done].
  unfold copy_passwd in Hcopy.
  repeat (apply bind_Ret in Hcopy as [? [_ Hcopy]]).
  destruct (NSS_BUFLEN_PASSWD <? _); [done|]. by inversion Hcopy.
Qed.

Lemma add_node_walk_Forall (P : node → Prop) next : ∀ walk x,
  P walk → Forall P next → P x → Forall P (add_node_walk walk next x).
Proof.
  induction next as [|nx rest IH]; intros walk x Hw Hn Hx; simpl.
  - by repeat apply List.Forall_cons.
  - apply Forall_cons_1 in Hn as [Hnx Hrest].
    destruct (n_id nx <=? n_id x)%N.
    + apply List.Forall_cons; [done|]. by apply IH.
    + by repeat apply List.Forall_cons.
Qed.

Lemma add_node_Forall (P : node → Prop) head x :
  Forall P head → P x → Forall P (add_node head x).
Proof.
  intros Hh Hx. destruct head as [|h rest]; simpl.
  - by apply List.Forall_cons.
  - destruct (n_id x <? n_id h)%N; [by apply List.Forall_cons|].
    apply Forall_cons_1 in Hh as [Hh Hrest]. by apply add_node_walk_Forall.
Qed.

Lemma process_new_entries_account_ok master : ∀ passwd d l d',
  Forall (fun x => account_ok x = true) master →
  Forall (fun x => account_ok x = true) passwd →
  process_new_entries passwd master d = Ret (l, d') →
  Forall (fun x => account_ok x = true) l.
Proof.
  induction master as [|m master' IH]; intros passwd d l d' Hm Hp H; simpl in H.
  - by inversion H; subst.
  - apply Forall_cons_1 in Hm as [Hm Hm'].
    destruct (find_by_named_entry passwd m).
    + by eapply IH.
    + apply bind_Ret in H as [m' [Hcopy H]].
      eapply IH; [done| |exact H].
      apply add_node_Forall; [done|]. by eapply copy_node_account_ok.
Qed.

Lemma process_old_entries_account_ok_len (table : list userinfo) (k : nat) :
  ∀ passwd master d l d',
    (length passwd ≤ k)%nat →
    Forall (fun x => account_ok x = true) passwd →
    process_old_entries table passwd master d = Ret (l, d') →
    Forall (fun x => account_ok x = true) l.
Proof.
  induction k as [|k IH]; intros passwd master d l d' Hlen Hp H.
  - destruct passwd; simpl in Hlen; [|lia]. simpl in H. by inversion H; subst.
  - destruct passwd as [|p next]; [simpl in H; by inversion H; subst|].
    simpl in Hlen. apply Forall_cons_1 in Hp as [Hp Hnext]. simpl in H.
    assert (Hkeep : ∀ d0,
      (l0 ← process_old_entries table next master d0;
       let '(l1, dirty) := l0 in Ret (p :: l1, dirty)) = Ret (l, d') →
      Forall (fun x => account_ok x = true) l).
    { intros d0 Hb. apply bind_Ret in Hb as [[l1 d1] [H1 H2]]. inversion H2; subst.
      apply List.Forall_cons; [done|]. eapply IH; [|done|exact H1]. lia. }
    destruct ((n_id p <? 0)%N || (99 <? n_id p)%N); [by eapply Hkeep|].
    destruct (noautoremove table (n_id p)); [by eapply Hkeep|].
    destruct (find_by_named_entry master p); [by eapply Hkeep|].
    destruct next as [|q next']; [discriminate|].
    apply bind_Ret in H as [[l1 d1] [H1 H2]]. inversion H2; subst.
    apply Forall_cons_1 in Hnext as [Hq Hnext'].
    apply List.Forall_cons; [done|]. eapply IH; [|done|exact H1]. simpl in Hlen. lia.
Qed.

Lemma process_old_entries_account_ok table passwd master d l d' :
  Forall (fun x => account_ok x = true) passwd →
  process_old_entries table passwd master d = Ret (l, d') →
  Forall (fun x => account_ok x = true) l.
Proof. by apply (process_old_entries_account_ok_len table (length passwd)). Qed.

(** ** Synchronising accounts *)

Lemma find_by_named_entry_Some master : ∀ p mc,
  find_by_named_entry master p = Some mc → In mc master ∧ n_name mc = n_name p.
Proof.
  induction master as [|h next IH]; intros p mc H; simpl in H; [done|].
  destruct (String.eqb (n_name p) (n_name h)) eqn:E.
  - inversion H; subst. apply String.eqb_eq in E. split; [by left | done].
  - destruct (IH _ _ H) as [Hin Hn]. split; [by right | done].
Qed.

Lemma account_ok_in_range p pw :
  account_ok p = true → n_d p = t_passwd pw → outside_range p = false →
  starts_with_plus (n_name p) = false ∧ n_id p = pw_uid pw.
Proof.
  unfold account_ok, outside_range. intros Hok Hd Hr. rewrite Hd in Hok.
  apply bool_decide_eq_true in Hok.
  destruct (starts_with_plus (n_name p)); [|done].
  rewrite Hok in Hr. vm_compute in Hr. discriminate.
Qed.

Section Sync.

Variable table : list userinfo.

Lemma sync_field_present keep cur ms d :
  sync_field keep cur (Some ms) d =
  Ret (if keep then cur else Some ms,
       d + (if keep then 0 else differs cur (Some ms))).
Proof.
  unfold sync_field, differs. destruct keep; [f_equal; f_equal; lia|].
  destruct cur as [s|].
  - destruct (String.eqb s ms) eqn:E.
    + apply String.eqb_eq in E. subst.
      rewrite bool_decide_eq_true_2 by done. f_equal. f_equal. lia.
    + apply String.eqb_neq in E.
      rewrite bool_decide_eq_false_2 by congruence. done.
  - rewrite bool_decide_eq_false_2 by done. done.
Qed.

Lemma changed_account_synced p pw mc mpw master d :
  account_ok p = true → master_ok mc = true →
  outside_range p = false →
  find_by_named_entry master p = Some mc →
  n_d p = t_passwd pw → n_d mc = t_passwd mpw →
  changed_account table p master d =
  Ret (synced_account table p pw mc mpw, d + pending_account table master p).
Proof.
  intros Hp Hmc Hr Hfind Hdp Hdmc.
  destruct (account_ok_in_range _ _ Hp Hdp Hr) as [Hplus Hid].
  destruct (find_by_named_entry_Some _ _ _ Hfind) as [_ Hname].
  unfold master_ok in Hmc. apply andb_true_iff in Hmc as [Hmok Hstr].
  rewrite Hdmc in Hstr.
  apply andb_true_iff in Hstr as [Hstr Hsh]. apply andb_true_iff in Hstr as [Hge Hdi].
  apply bool_decide_eq_true in Hge as [ge Hge].
  apply bool_decide_eq_true in Hdi as [di Hdi].
  apply bool_decide_eq_true in Hsh as [sh Hsh].
  assert (n_id mc = pw_uid mpw) as Hmid.
  { unfold account_ok in Hmok. rewrite Hdmc, Hname, Hplus in Hmok.
    by apply bool_decide_eq_true in Hmok. }
  assert (Hout : outside_range p = false) by exact Hr.
  unfold changed_account, pending_account, synced_account.
  rewrite Hout. unfold outside_range in Hr. rewrite Hr, orb_false_r.
  replace (n_id p <? 0)%N with false by (symmetry; apply N.ltb_ge; lia).
  rewrite Hfind, Hdp, Hdmc, Hge, Hdi, Hsh.
  unfold differs at 1 2.
  destruct (n_id p =? n_id mc)%N eqn:E1;
    [apply N.eqb_eq in E1; rewrite (bool_decide_eq_true_2 _ E1)
    |apply N.eqb_neq in E1; rewrite (bool_decide_eq_false_2 _ E1)];
  (destruct (pw_gid pw =? pw_gid mpw)%N eqn:E2;
    [apply N.eqb_eq in E2; rewrite (bool_decide_eq_true_2 _ E2)
    |apply N.eqb_neq in E2; rewrite (bool_decide_eq_false_2 _ E2)]);
  cbn [negb];
  rewrite sync_field_present; cbn [mbind outcome_bind];
  rewrite sync_field_present; cbn [mbind outcome_bind];
  rewrite sync_field_present; cbn [mbind outcome_bind];
  try rewrite E1; try rewrite <- E2;
  try (replace (pw_uid pw) with (pw_uid mpw) by congruence);
  f_equal; f_equal; lia.
Qed.
End Sync.

Lemma account_ok_passwd p : account_ok p = true → ∃ pw, n_d p = t_passwd pw.
Proof. unfold account_ok. destruct (n_d p); try discriminate. eauto. Qed.

Lemma changed_account_spec table p master d :
  account_ok p = true → forallb master_ok master = true →
  ∃ p', changed_account table p master d = Ret (p', d + pending_account table master p)
    ∧ ∀ mc, outside_range p = false → find_by_named_entry master p = Some mc →
        ∃ pw mpw, n_d p = t_passwd pw ∧ n_d mc = t_passwd mpw
                  ∧ p' = synced_account table p pw mc mpw.
Proof.
  intros Hp Hm.
  destruct (outside_range p) eqn:Hr.
  - exists p. split; [|done].
    rewrite changed_account_outside by done.
    unfold pending_account. rewrite Hr. f_equal. f_equal. lia.
  - destruct (find_by_named_entry master p) as [mc|] eqn:Hfind.
    + destruct (find_by_named_entry_Some _ _ _ Hfind) as [Hin _].
      assert (master_ok mc = true) as Hmc.
      { rewrite forallb_forall in Hm. by apply Hm. }
      destruct (account_ok_passwd _ Hp) as [pw Hpw].
      assert (account_ok mc = true) as Hmc'.
      { unfold master_ok in Hmc. by apply andb_true_iff in Hmc as [? _]. }
      destruct (account_ok_passwd _ Hmc') as [mpw Hmpw].
      exists (synced_account table p pw mc mpw). split.
      * by apply changed_account_synced.
      * intros mc' _ Heq. inversion Heq; subst. eauto.
    + exists p. split; [|done].
      unfold changed_account, pending_account. unfold outside_range in Hr.
      rewrite Hr, orb_false_r.
      replace (n_id p <? 0)%N with false by (symmetry; apply N.ltb_ge; lia).
      rewrite Hfind. unfold outside_range. rewrite Hr. f_equal. f_equal. lia.
Qed.

(** What [process_changed_accounts] computes, in terms of the flags as
    [keepgecos], [keephome] and [keepshell] answer them. *)
Lemma process_changed_accounts_computes table passwd master d :
  forallb account_ok passwd = true →
  forallb master_ok master = true →
  ∃ l, process_changed_accounts table passwd master d
       = Ret (l, d + pending_changes table master passwd)
    ∧ ∀ i p mc, passwd !! i = Some p → outside_range p = false →
        find_by_named_entry master p = Some mc →
        ∃ pw mpw, n_d p = t_passwd pw ∧ n_d mc = t_passwd mpw
                  ∧ l !! i = Some (synced_account table p pw mc mpw).
Proof.
  intros Hp Hm. revert d. induction passwd as [|p next IH]; intros d.
  - exists []. split; [simpl; f_equal; f_equal; lia | done].
  - simpl in Hp. apply andb_true_iff in Hp as [Hp Hnext].
    destruct (changed_account_spec table p master d Hp Hm) as [p' [Hp' Hsync]].
    destruct (IH Hnext (d + pending_account table master p)) as [l [Hl Hall]].
    exists (p' :: l). split.
    + simpl. rewrite Hp'. simpl. rewrite Hl. simpl. f_equal. f_equal. lia.
    + intros [|i] q mc Hq Hr Hfind; simpl in Hq.
      * inversion Hq; subst q.
        destruct (Hsync mc Hr Hfind) as (pw & mpw & H1 & H2 & H3).
        exists pw, mpw. by rewrite H3.
      * by apply (Hall i q mc).
Qed.

(** ** The policy table and [FL_NOAUTOADD] *)

Lemma land_lor_noautoadd x flag :
  N.land FL_NOAUTOADD flag = 0%N →
  N.land (N.lor x FL_NOAUTOADD) flag = N.land x flag.
Proof.
  intros H. rewrite N.land_lor_distr_l, H. apply N.lor_0_r.
Qed.

Lemma scan_table_agree flag : N.land FL_NOAUTOADD flag = 0%N →
  ∀ t1 t2 id, tables_agree t1 t2 = true →
    scan_table t1 id flag = scan_table t2 id flag.
Proof.
  intros Hflag. induction t1 as [|a t1 IH]; intros [|b t2] id H; simpl in H; try done.
  apply andb_true_iff in H as [Hab Ht].
  unfold entry_agrees in Hab.
  apply andb_true_iff in Hab as [Hab Hend]. apply andb_true_iff in Hab as [Hid Hfl].
  apply N.eqb_eq in Hid. apply N.eqb_eq in Hfl. apply Bool.eqb_prop in Hend.
  unfold is_terminator in Hend. simpl. rewrite Hend, Hid.
  destruct ((ui_id b =? 0)%N && (ui_flags b =? 0)%N); [done|].
  destruct (ui_id b =? id)%N; [|by apply IH].
  rewrite <- (land_lor_noautoadd (ui_flags a)) by done.
  rewrite <- (land_lor_noautoadd (ui_flags b)) by done.
  by rewrite Hfl.
Qed.

Section Agree.

Variables t1 t2 : list userinfo.
Hypothesis Hagree : tables_agree t1 t2 = true.

Lemma noautoremove_agree id : noautoremove t1 id = noautoremove t2 id.
Proof. by apply scan_table_agree. Qed.

Lemma keephome_agree id : keephome t1 id = keephome t2 id.
Proof. by apply scan_table_agree. Qed.

Lemma keepshell_agree id : keepshell t1 id = keepshell t2 id.
Proof. by apply scan_table_agree. Qed.

Lemma keepgecos_agree id : keepgecos t1 id = keepgecos t2 id.
Proof. by apply scan_table_agree. Qed.

Lemma process_old_entries_agree_len (k : nat) : ∀ passwd master d,
  (length passwd ≤ k)%nat →
  process_old_entries t1 passwd master d = process_old_entries t2 passwd master d.
Proof.
  induction k as [|k IH]; intros passwd master d Hlen.
  - destruct passwd; simpl in Hlen; [done | lia].
  - destruct passwd as [|p next]; [done|]. simpl in Hlen. simpl.
    rewrite noautoremove_agree.
    rewrite !(IH next) by lia.
    destruct next as [|q next']; [done|].
    simpl in Hlen. rewrite !(IH next') by lia. done.
Qed.

Lemma process_old_entries_agree passwd master d :
  process_old_entries t1 passwd master d = process_old_entries t2 passwd master d.
Proof. by apply (process_old_entries_agree_len (length passwd)). Qed.

Lemma changed_account_agree p master d :
  changed_account t1 p master d = changed_account t2 p master d.
Proof.
  unfold changed_account.
  destruct ((n_id p <? 0)%N || (99 <? n_id p)%N); [done|].
  destruct (find_by_named_entry master p) as [mc|]; [|done].
  destruct (n_d p); try done. destruct (n_d mc); try done.
  destruct (negb (n_id p =? n_id mc)%N);
    by rewrite keepgecos_agree, keephome_agree, keepshell_agree.
Qed.

Lemma process_changed_accounts_agree passwd : ∀ master d,
  process_changed_accounts t1 passwd master d
  = process_changed_accounts t2 passwd master d.
Proof.
  induction passwd as [|p next IH]; intros master d; [done|].
  simpl. rewrite changed_account_agree.
  destruct (changed_account t2 p master d) as [[p' d1]| | |]; simpl; try done.
  by rewrite IH.
Qed.

End Agree.

(** C9.  For two policy tables that differ at most in the [FL_NOAUTOADD]
    bits, the reconciliation of the accounts and of the groups gives the same
    result, whatever the lists are: the bit has no effect.  The helper
    [noautoadd] is [noautoremove] under another name, and
    [process_new_entries] copies a master node whose name is absent from the
    live list without looking at the table, also when the table has
    [FL_NOAUTOADD] for its id. *)
Theorem noautoadd_has_no_effect (t1 t2 : list userinfo) (system master : list node)
  (d : Z) (m : node) (master' : list node) :
  tables_agree t1 t2 = true →
  find_by_named_entry system m = None →
  reconcile_accounts t1 system master d = reconcile_accounts t2 system master d
  ∧ reconcile_groups t1 system master d = reconcile_groups t2 system master d
  ∧ (∀ id, noautoadd t1 id = noautoremove t1 id)
  ∧ process_new_entries system (m :: master') d
    = (newnode ← copy_node m;
       process_new_entries (add_node system newnode) master' (d + 1)).
Proof.
  intros Hagree Hfind. repeat split.
  - unfold reconcile_accounts.
    destruct (process_new_entries system master d) as [[l d1]| | |]; simpl; try done.
    rewrite (process_old_entries_agree t1 t2 Hagree).
    destruct (process_old_entries t2 l master d1) as [[l2 d2]| | |]; simpl; try done.
    by apply process_changed_accounts_agree.
  - unfold reconcile_groups.
    destruct (process_new_entries system master d) as [[l d1]| | |]; simpl; try done.
    by rewrite (process_old_entries_agree t1 t2 Hagree).
  - simpl. by rewrite Hfind.
Qed.

(** ** Nodes outside the reserved range *)

(** C3, as the program has it.  [process_old_entries] and
    [process_changed_accounts] / [process_changed_groups], whenever they
    return, leave the nodes whose id is above 99 in the list, in their order
    and as they are, whatever the master list holds.  [process_new_entries]
    has no test on the id: a master node whose name is absent from the live
    list is copied and handed to [add_node], which puts the copy in the
    list. *)
Theorem outside_range_kept (table : list userinfo) (live master : list node) (d : Z)
  (l1 : list node) (d1 : Z) (l2 : list node) (d2 : Z) :
  process_old_entries table live master d = Ret (l1, d1) →
  (process_changed_accounts table l1 master d1 = Ret (l2, d2)
   ∨ process_changed_groups l1 master d1 = Ret (l2, d2)) →
  List.filter outside_range l1 = List.filter outside_range live
  ∧ Forall2 (fun p p' => outside_range p = true → p' = p) l1 l2
  ∧ (∀ m m' rest d0, find_by_named_entry live m = None → copy_node m = Ret m' →
       process_new_entries live (m :: rest) d0
       = process_new_entries (add_node live m') rest (d0 + 1)
       ∧ In m' (add_node live m')).
Proof.
  intros Hold Hchg. split; [|split].
  - by eapply process_old_entries_outside.
  - destruct Hchg as [H|H].
    + by eapply process_changed_accounts_outside.
    + by eapply process_changed_groups_outside.
  - intros m m' rest d0 Hfind Hcopy. split.
    + simpl. by rewrite Hfind, Hcopy.
    + apply add_node_In.
Qed.

(** ** Records whose name begins with [+] *)

Lemma plus_node_id n pw gr :
  starts_with_plus (n_name n) = true →
  n = passwd_node pw ∨ n = group_node gr →
  n_id n = INT_MAX.
Proof.
  intros Hplus [-> | ->]; simpl in *; by rewrite Hplus.
Qed.

(** C10, as the program has it.  A record whose name begins with [+] gets
    the id [INT_MAX] from [read_passwd] and [read_group]; being outside the
    reserved range, the node is kept by [process_old_entries] and left as it
    is, at its place, by [process_changed_accounts] and
    [process_changed_groups], whenever these return.  [add_node] keeps an
    ordered list ordered, and in an ordered list the node is followed only by
    nodes whose id is at least [INT_MAX]. *)
Theorem plus_record_kept (table : list userinfo) (n : node) (pw : passwd) (gr : group)
  (head live master : list node) (d : Z) (l1 : list node) (d1 : Z)
  (l2 : list node) (d2 : Z) :
  starts_with_plus (n_name n) = true →
  n = passwd_node pw ∨ n = group_node gr →
  ordered head = true →
  process_old_entries table live master d = Ret (l1, d1) →
  (process_changed_accounts table l1 master d1 = Ret (l2, d2)
   ∨ process_changed_groups l1 master d1 = Ret (l2, d2)) →
  n_id n = INT_MAX
  ∧ (In n live → In n l1)
  ∧ (∀ i, l1 !! i = Some n → l2 !! i = Some n)
  ∧ (∀ x, ordered (add_node head x) = true)
  ∧ (∀ before after, head = before ++ n :: after →
       Forall (fun q => (INT_MAX <= n_id q)%N) after).
Proof.
  intros Hplus Hn Hord Hold Hchg.
  assert (Hid : n_id n = INT_MAX) by (by eapply plus_node_id).
  assert (Hout : outside_range n = true) by (unfold outside_range; by rewrite Hid).
  repeat split.
  - exact Hid.
  - intros Hin. eapply In_filter_transfer; [|exact Hout|exact Hin].
    by eapply process_old_entries_outside.
  - intros i Hi.
    eapply (Forall2_same_at (fun p => outside_range p = true)); [|exact Hi|exact Hout].
    destruct Hchg as [H|H].
    + by eapply process_changed_accounts_outside.
    + by eapply process_changed_groups_outside.
  - intros x. by apply add_node_ordered.
  - intros before after ->. rewrite <- Hid. by eapply ordered_after.
Qed.

(** ** Library calls: what they return and what they change *)

Lemma sys_rename_cases source target w :
  (∃ w', sys_rename source target w = (Ret false, w') ∧ quiet w w'
       ∧ ((∃ e, head (w_faults w) = Some (Some e)) ∨ w_fs w !! source = None))
  ∨ (∃ w' x, sys_rename source target w = (Ret true, w')
       ∧ w_fs w !! source = Some x
       ∧ w_fs w' = <[target:=x]> (delete source (w_fs w))
       ∧ wrote w w').
Proof.
  io_unfold.
  destruct (w_faults w) as [|[e|] fl]; cbn;
    try (left; eexists; split; [reflexivity | split; [by split | left; by exists e]]);
    destruct (w_fs w !! source) as [x|] eqn:E; cbn;
    try (left; eexists; split; [reflexivity | split; [by split | by right]]);
    right; eexists _, x; by repeat split.
Qed.

Lemma sys_unlink_cases path w :
  (∃ w', sys_unlink path w = (Ret false, w') ∧ quiet w w')
  ∨ (∃ w', sys_unlink path w = (Ret true, w')
       ∧ w_fs w' = delete path (w_fs w) ∧ wrote w w').
Proof.
  io_unfold.
  destruct (w_faults w) as [|[e|] fl]; cbn; try io_quiet;
    destruct (w_fs w !! path) as [x|] eqn:E; cbn; try io_quiet;
    right; eexists; by repeat split.
Qed.

Lemma sys_lstat_cases path w :
  ∃ w', quiet w w'
    ∧ (sys_lstat path w = (Ret None, w')
       ∨ ∃ x, w_fs w !! path = Some x ∧ sys_lstat path w = (Ret (Some x), w')).
Proof.
  io_unfold.
  destruct (w_faults w) as [|[e|] fl]; cbn;
    try (eexists; split; [|left; reflexivity]; by split);
    destruct (w_fs w !! path) as [x|] eqn:E; cbn;
    try (eexists; split; [|left; reflexivity]; by split);
    (eexists; split; [|right; exists x; split; reflexivity]; by split).
Qed.

Lemma sys_chmod_cases path mode w :
  (∃ w', sys_chmod path mode w = (Ret false, w') ∧ quiet w w')
  ∨ (∃ w' x, sys_chmod path mode w = (Ret true, w')
       ∧ w_fs w !! path = Some x
       ∧ w_fs w' = <[path := set_attrs x mode (f_uid x) (f_gid x)]> (w_fs w)
       ∧ wrote w w').
Proof.
  io_unfold.
  destruct (w_faults w) as [|[e|] fl]; cbn; try io_quiet;
    destruct (w_fs w !! path) as [x|] eqn:E; cbn; try io_quiet;
    right; eexists _, x; by repeat split.
Qed.

Lemma sys_chown_cases path uid gid w :
  (∃ w', sys_chown path uid gid w = (Ret false, w') ∧ quiet w w')
  ∨ (∃ w' x, sys_chown path uid gid w = (Ret true, w')
       ∧ w_fs w !! path = Some x
       ∧ w_fs w' = <[path := set_attrs x (f_mode x) uid gid]> (w_fs w)
       ∧ wrote w w').
Proof.
  io_unfold.
  destruct (w_faults w) as [|[e|] fl]; cbn; try io_quiet;
    destruct (w_fs w !! path) as [x|] eqn:E; cbn; try io_quiet;
    right; eexists _, x; by repeat split.
Qed.

Lemma rename_file_cases source target w :
  (∃ w', rename_file source target w = (Ret false, w') ∧ quiet w w'
       ∧ ((∃ e, head (w_faults w) = Some (Some e)) ∨ w_fs w !! source = None))
  ∨ (∃ w' x, rename_file source target w = (Ret true, w')
       ∧ w_fs w !! source = Some x
       ∧ w_fs w' = <[target:=x]> (delete source (w_fs w))
       ∧ wrote w w').
Proof.
  unfold rename_file, mbind, io_bind.
  destruct (sys_rename_cases source target w)
    as [(w' & -> & Hq & Hwhy) | (w' & x & -> & Hx & Hfs & Hw)]; cbn.
  - left. by exists w'.
  - right. by exists w', x.
Qed.

Lemma unlink_file_cases path w :
  (∃ w', unlink_file path w = (Ret false, w') ∧ quiet w w')
  ∨ (∃ w', unlink_file path w = (Ret true, w')
       ∧ w_fs w' = delete path (w_fs w) ∧ wrote w w').
Proof.
  unfold unlink_file, mbind, io_bind.
  destruct (sys_unlink_cases path w) as [(w' & -> & Hq) | (w' & -> & Hfs & Hw)]; cbn.
  - left. by exists w'.
  - right. by exists w'.
Qed.

Lemma same_lines_refl path fs : same_lines path fs fs.
Proof. by split. Qed.

Lemma same_lines_set_attrs path fs0 fs x mode uid gid :
  same_lines path fs0 fs → fs !! path = Some x →
  same_lines path fs0 (<[path := set_attrs x mode uid gid]> fs).
Proof.
  intros [Ho Hl] Hx. split.
  - intros p Hp. rewrite lookup_insert_ne by done. by apply Ho.
  - rewrite lookup_insert_eq. rewrite <- Hl, Hx. done.
Qed.

Lemma attrs_only_quiet path w w' : quiet w w' → attrs_only path w w'.
Proof.
  intros [Hfs Hh]. split.
  - rewrite Hfs. apply same_lines_refl.
  - exists []. by rewrite app_nil_r.
Qed.

Lemma attrs_only_trans path w1 w2 w3 :
  attrs_only path w1 w2 → attrs_only path w2 w3 → attrs_only path w1 w3.
Proof.
  intros [[Ho1 Hl1] (hs1 & Hh1 & HF1)] [[Ho2 Hl2] (hs2 & Hh2 & HF2)].
  assert (∀ fs, same_lines path (w_fs w2) fs → same_lines path (w_fs w1) fs) as Htr.
  { intros fs [Ho Hl]. split.
    - intros p Hp. by rewrite Ho, Ho1.
    - by rewrite Hl, Hl1. }
  split; [by apply Htr|].
  exists (hs1 ++ hs2). split.
  - by rewrite Hh2, Hh1, app_assoc.
  - apply Forall_app. split; [done|]. eapply Forall_impl; [exact HF2|]. exact Htr.
Qed.

Lemma attrs_only_set path w w' x mode uid gid :
  w_fs w !! path = Some x →
  w_fs w' = <[path := set_attrs x mode uid gid]> (w_fs w) →
  wrote w w' → attrs_only path w w'.
Proof.
  intros Hx Hfs Hw.
  assert (same_lines path (w_fs w) (w_fs w')) as Hs.
  { rewrite Hfs. apply same_lines_set_attrs; [apply same_lines_refl | done]. }
  split; [done|]. exists [w_fs w']. split; [done|]. by constructor.
Qed.

Lemma set_attrs_set_attrs x m u g m' u' g' :
  set_attrs (set_attrs x m u g) m' u' g' = set_attrs x m' u' g'.
Proof. done. Qed.

Lemma copy_filemodes_cases source target w :
  ∃ b w', copy_filemodes source target w = (Ret b, w')
    ∧ attrs_only target w w'
    ∧ (b = true → ∃ st x, w_fs w !! source = Some st ∧ w_fs w !! target = Some x
         ∧ w_fs w' !! target = Some (set_attrs x (f_mode st) (f_uid st) (f_gid st))).
Proof.
  unfold copy_filemodes, mbind, io_bind.
  destruct (sys_lstat_cases source w) as (w1 & Hq1 & [-> | (st & Hst & ->)]); cbn.
  { exists false, w1. split; [done|]. split; [by apply attrs_only_quiet | done]. }
  destruct (sys_chmod_cases target (f_mode st) w1)
    as [(w2 & -> & Hq2) | (w2 & x & -> & Hx & Hfs2 & Hw2)]; cbn.
  { exists false, w2. split; [done|]. split; [|done].
    eapply attrs_only_trans; by apply attrs_only_quiet. }
  assert (attrs_only target w w2) as Ha2.
  { eapply attrs_only_trans; [by apply attrs_only_quiet|]. by eapply attrs_only_set. }
  assert (w_fs w !! target = Some x) as Hx0 by (destruct Hq1 as [<- _]; done).
  assert (w_fs w !! source = Some st) as Hst0 by done.
  assert (w_fs w2 !! target = Some (set_attrs x (f_mode st) (f_uid x) (f_gid x))) as Hx2.
  { rewrite Hfs2. apply lookup_insert_eq. }
  assert (∀ w3 y, w_fs w3 = <[target := set_attrs y (f_mode y) (f_uid st) (f_gid st)]> (w_fs w2) →
            w_fs w2 !! target = Some y →
            w_fs w3 !! target = Some (set_attrs x (f_mode st) (f_uid st) (f_gid st))) as Hfin.
  { intros w3 y Hfs3 Hy. rewrite Hfs3, lookup_insert_eq.
    rewrite Hx2 in Hy. inversion Hy; subst. done. }
  unfold sys_lchown.
  destruct (sys_chown_cases target (f_uid st) (f_gid st) w2)
    as [(w3 & -> & Hq3) | (w3 & y & -> & Hy & Hfs3 & Hw3)]; cbn.
  - unfold get_errno.
    destruct (bool_decide (w_errno w3 = Some ENOSYS)); cbn.
    + destruct (sys_lstat_cases target w3) as (w4 & Hq4 & [-> | (tst & Htst & ->)]); cbn.
      { exists false, w4. split; [done|]. split; [|done].
        eapply attrs_only_trans; [exact Ha2|].
        eapply attrs_only_trans; by apply attrs_only_quiet. }
      destruct (sys_chown_cases target (f_uid st) (f_gid st) w4)
        as [(w5 & -> & Hq5) | (w5 & z & -> & Hz & Hfs5 & Hw5)]; cbn.
      { exists false, w5. split; [done|]. split; [|done].
        eapply attrs_only_trans; [exact Ha2|].
        eapply attrs_only_trans; [by apply attrs_only_quiet|].
        eapply attrs_only_trans; by apply attrs_only_quiet. }
      exists true, w5. split; [done|].
      assert (w_fs w4 = w_fs w2) as H42.
      { destruct Hq4 as [-> _]. by destruct Hq3 as [-> _]. }
      split.
      * eapply attrs_only_trans; [exact Ha2|].
        eapply attrs_only_trans; [by apply attrs_only_quiet|].
        eapply attrs_only_trans; [by apply attrs_only_quiet|].
        by eapply attrs_only_set.
      * intros _. exists st, x. split; [done|]. split; [done|].
        rewrite H42 in Hz, Hfs5. by eapply Hfin.
    + exists false, w3. split; [done|]. split; [|done].
      eapply attrs_only_trans; [exact Ha2|]. by apply attrs_only_quiet.
  - exists true, w3. split; [done|]. split.
    + eapply attrs_only_trans; [exact Ha2|]. by eapply attrs_only_set.
    + intros _. exists st, x. split; [done|]. split; [done|]. by eapply Hfin.
Qed.

(** ** Replacing a file *)

Lemma string_length_append s t :
  String.length (String.append s t) = (String.length s + String.length t)%nat.
Proof. induction s as [|c s IH]; simpl; [done | by rewrite IH]. Qed.

Lemma append_extension_ne s ext :
  (0 < String.length ext)%nat → s ≠ String.append s ext.
Proof.
  intros Hlen Heq. apply (f_equal String.length) in Heq.
  rewrite string_length_append in Heq. lia.
Qed.

Lemma same_lines_dest_ok target uf orig staged fs0 fs f :
  fs0 !! target = Some f → f_lines f = f_lines staged →
  same_lines target fs0 fs → dest_ok target uf orig staged fs.
Proof.
  intros Hf Hl [_ Hs]. right. right. rewrite Hf in Hs. simpl in Hs.
  destruct (fs !! target) as [f'|] eqn:E; simpl in Hs; [|done].
  exists f'. split; [done|]. inversion Hs. congruence.
Qed.

(** What holds of [put_file_in_place] whatever calls fail: it returns;
    every state of the file system on the way, and the last one, has at the
    destination either nothing (and then the original is intact under the
    aside name), or the original, or a file with the complete staged
    contents; the result 1 is returned only with the staged contents under
    the original's mode and owner at the destination and the aside copy and
    the staged file gone; and unless the first rename is made to fail, the
    state right after it has nothing at the destination. *)
Lemma put_file_in_place_safe (source target : string) (orig staged : file)
  (w : world) :
  w_fs w !! target = Some orig →
  w_fs w !! source = Some staged →
  source ≠ target →
  source ≠ String.append target UNLINK_EXTENSION →
  ∃ b w' hs,
    put_file_in_place source target w = (Ret b, w')
    ∧ w_history w' = w_history w ++ hs
    ∧ Forall (dest_ok target (String.append target UNLINK_EXTENSION) orig staged) hs
    ∧ dest_ok target (String.append target UNLINK_EXTENSION) orig staged (w_fs w')
    ∧ (b = true →
         w_fs w' !! target
         = Some (set_attrs staged (f_mode orig) (f_uid orig) (f_gid orig))
         ∧ w_fs w' !! String.append target UNLINK_EXTENSION = None
         ∧ w_fs w' !! source = None)
    ∧ ((∀ e, head (w_faults w) ≠ Some (Some e)) →
         ∃ fs1 hs', hs = fs1 :: hs' ∧ fs1 !! target = None
                    ∧ fs1 !! String.append target UNLINK_EXTENSION = Some orig).
Proof.
  intros Ht Hs Hst Hsu.
  set (uf := String.append target UNLINK_EXTENSION) in *.
  assert (target ≠ uf) as Htu by (apply append_extension_ne; simpl; lia).
  unfold put_file_in_place. fold uf.
  unfold mbind at 1, io_bind at 1. unfold sys_umask.
  set (w0 := with_umask 63 w).
  assert (w_fs w0 = w_fs w) as Hfs0 by done.
  assert (w_history w0 = w_history w) as Hh0 by done.
  assert (w_faults w0 = w_faults w) as Hf0 by done.
  unfold mbind, io_bind.
  destruct (rename_file_cases target uf w0)
    as [(w1 & -> & [Hfs1 Hh1] & Hwhy) | (w1 & x & -> & Hx & Hfs1 & Hw1)]; cbn.
  - (* the first rename fails *)
    rewrite Hfs0 in Hfs1. rewrite Hh0 in Hh1.
    assert (∀ P : Prop, (∀ e, head (w_faults w) ≠ Some (Some e)) → P) as Hno.
    { intros P Hhead. exfalso. destruct Hwhy as [[e He] | Hnone].
      - rewrite Hf0 in He. by apply (Hhead e).
      - rewrite Hfs0, Ht in Hnone. done. }
    destruct (unlink_file_cases source w1)
      as [(w2 & -> & [Hfs2 Hh2]) | (w2 & -> & Hfs2 & Hw2)]; cbn.
    + exists false, w2, []. split; [done|]. split; [by rewrite app_nil_r, Hh2, Hh1|].
      split; [constructor|]. split; [|split; [done | apply Hno]].
      right. left. by rewrite Hfs2, Hfs1.
    + assert (dest_ok target uf orig staged (w_fs w2)) as Hok.
      { right. left. rewrite Hfs2, Hfs1. by rewrite lookup_delete_ne. }
      exists false, w2, [w_fs w2]. split; [done|].
      split; [by rewrite Hw2, Hh1|].
      split; [apply List.Forall_cons; [done|]; apply List.Forall_nil|].
      split; [done|]. split; [done | apply Hno].
  - (* the destination has been renamed aside *)
    rewrite Hfs0 in Hx, Hfs1. rewrite Ht in Hx. inversion Hx; subst x. clear Hx.
    unfold wrote in Hw1. rewrite Hh0 in Hw1.
    assert (w_fs w1 !! target = None) as H1t.
    { rewrite Hfs1. rewrite lookup_insert_ne by done. apply lookup_delete_eq. }
    assert (w_fs w1 !! uf = Some orig) as H1u by (rewrite Hfs1; apply lookup_insert_eq).
    assert (w_fs w1 !! source = Some staged) as H1s.
    { rewrite Hfs1. rewrite lookup_insert_ne by done. by rewrite lookup_delete_ne. }
    assert (dest_ok target uf orig staged (w_fs w1)) as Hok1 by (by left).
    destruct (rename_file_cases source target w1)
      as [(w2 & -> & [Hfs2 Hh2] & _) | (w2 & x & -> & Hx & Hfs2 & Hw2)]; cbn.
    + (* the second rename fails: the aside copy is renamed back *)
      destruct (rename_file_cases uf target w2)
        as [(w3 & -> & [Hfs3 Hh3] & _) | (w3 & y & -> & Hy & Hfs3 & Hw3)]; cbn.
      * exists false, w3, [w_fs w1]. split; [done|].
        split; [by rewrite Hh3, Hh2, Hw1|].
        split; [apply List.Forall_cons; [done|]; apply List.Forall_nil|].
        split; [by rewrite Hfs3, Hfs2|]. split; [done|].
        intros _. by exists (w_fs w1), [].
      * rewrite Hfs2, H1u in Hy. inversion Hy; subst y. clear Hy.
        assert (dest_ok target uf orig staged (w_fs w3)) as Hok3.
        { right. left. rewrite Hfs3. apply lookup_insert_eq. }
        exists false, w3, [w_fs w1; w_fs w3]. split; [done|].
        split; [by rewrite Hw3, Hh2, Hw1, <- app_assoc|].
        split; [apply List.Forall_cons; [done|]; apply List.Forall_cons; [done|]; apply List.Forall_nil|].
        split; [done|]. split; [done|].
        intros _. by exists (w_fs w1), [w_fs w3].
    + (* the staged file is at the destination *)
      rewrite H1s in Hx. inversion Hx; subst x. clear Hx.
      unfold wrote in Hw2.
      assert (w_fs w2 !! target = Some staged) as H2t by (rewrite Hfs2; apply lookup_insert_eq).
      assert (w_fs w2 !! uf = Some orig) as H2u.
      { rewrite Hfs2. rewrite lookup_insert_ne by done. by rewrite lookup_delete_ne. }
      assert (w_fs w2 !! source = None) as H2s.
      { rewrite Hfs2. rewrite lookup_insert_ne by done. apply lookup_delete_eq. }
      assert (dest_ok target uf orig staged (w_fs w2)) as Hok2.
      { right. right. by exists staged. }
      destruct (copy_filemodes_cases uf target w2)
        as (b3 & w3 & -> & [Hsl3 (hs3 & Hh3 & HF3)] & Hb3); cbn.
      assert (dest_ok target uf orig staged (w_fs w3)) as Hok3.
      { by eapply same_lines_dest_ok. }
      assert (Forall (dest_ok target uf orig staged) hs3) as HF3'.
      { eapply Forall_impl; [exact HF3|]. intros fs Hfs.
        by eapply same_lines_dest_ok. }
      assert (∃ f3, w_fs w3 !! target = Some f3 ∧ f_lines f3 = f_lines staged)
        as (f3 & H3t & H3l).
      { destruct Hsl3 as [_ Hl]. rewrite H2t in Hl. simpl in Hl.
        destruct (w_fs w3 !! target) as [f3|]; simpl in Hl; [|done].
        exists f3. split; [done|]. by inversion Hl. }
      assert (w_fs w3 !! source = None) as H3s.
      { destruct Hsl3 as [Ho _]. by rewrite Ho. }
      assert (∀ w4, w_fs w4 = delete uf (w_fs w3) →
                dest_ok target uf orig staged (w_fs w4)) as Hok4.
      { intros w4 Hfs4. right. right. exists f3. split; [|done].
        rewrite Hfs4. by rewrite lookup_delete_ne. }
      assert (∃ fs1 hs', [w_fs w1; w_fs w2] ++ hs3 = fs1 :: hs' ∧ fs1 !! target = None
                         ∧ fs1 !! uf = Some orig) as Hgap.
      { by exists (w_fs w1), (w_fs w2 :: hs3). }
      assert (w_history w3 = w_history w ++ [w_fs w1; w_fs w2] ++ hs3) as Hhist3.
      { rewrite Hh3, Hw2, Hw1. by rewrite <- !app_assoc. }
      assert (Forall (dest_ok target uf orig staged) ([w_fs w1; w_fs w2] ++ hs3)) as HF.
      { apply Forall_app. split; [|done].
        apply List.Forall_cons; [done|]. apply List.Forall_cons; [done|]. apply List.Forall_nil. }
      destruct b3; cbn.
      * (* mode and owner copied: the aside copy is removed *)
        destruct (Hb3 eq_refl) as (st & x & Hst2 & Hx2 & Hfin).
        rewrite H2u in Hst2. inversion Hst2; subst st.
        rewrite H2t in Hx2. inversion Hx2; subst x.
        destruct (unlink_file_cases uf w3)
          as [(w4 & -> & [Hfs4 Hh4]) | (w4 & -> & Hfs4 & Hw4)]; cbn.
        -- exists false, w4, ([w_fs w1; w_fs w2] ++ hs3). split; [done|].
           split; [by rewrite Hh4|]. split; [done|].
           split; [by rewrite Hfs4|]. split; [done|]. by intros _.
        -- exists true, w4, (([w_fs w1; w_fs w2] ++ hs3) ++ [w_fs w4]). split; [done|].
           split; [by rewrite Hw4, Hhist3, <- !app_assoc|].
           split; [apply Forall_app; split; [done|];
                   apply List.Forall_cons; [by apply Hok4 | apply List.Forall_nil]|].
           split; [by apply Hok4|]. split.
           ++ intros _. rewrite Hfs4. split; [|split].
              ** by rewrite lookup_delete_ne.
              ** apply lookup_delete_eq.
              ** by rewrite lookup_delete_ne.
           ++ intros _. by exists (w_fs w1), ((w_fs w2 :: hs3) ++ [w_fs w4]).
      * (* copying mode and owner failed: the aside copy is removed all the same *)
        destruct (unlink_file_cases uf w3)
          as [(w4 & -> & [Hfs4 Hh4]) | (w4 & -> & Hfs4 & Hw4)]; cbn.
        -- exists false, w4, ([w_fs w1; w_fs w2] ++ hs3). split; [done|].
           split; [by rewrite Hh4|]. split; [done|].
           split; [by rewrite Hfs4|]. split; [done|]. by intros _.
        -- exists false, w4, (([w_fs w1; w_fs w2] ++ hs3) ++ [w_fs w4]). split; [done|].
           split; [by rewrite Hw4, Hhist3, <- !app_assoc|].
           split; [apply Forall_app; split; [done|];
                   apply List.Forall_cons; [by apply Hok4 | apply List.Forall_nil]|].
           split; [by apply Hok4|]. split; [done|].
           intros _. by exists (w_fs w1), ((w_fs w2 :: hs3) ++ [w_fs w4]).
Qed.

(** ** Staging *)

Lemma only_path_quiet path w w' : quiet w w' → only_path path w w'.
Proof. intros [Hfs _]. split; [by rewrite Hfs | by left]. Qed.

Lemma only_path_trans path w1 w2 w3 :
  only_path path w1 w2 → only_path path w2 w3 → only_path path w1 w3.
Proof.
  intros [Ho1 Hs1] [Ho2 Hs2]. split.
  - intros p Hp. by rewrite Ho2, Ho1.
  - destruct Hs2 as [Heq | Hsome]; [|by right].
    rewrite Heq. exact Hs1.
Qed.

Lemma only_path_insert path w w' x :
  w_fs w' = <[path := x]> (w_fs w) → only_path path w w'.
Proof.
  intros Hfs. split.
  - intros p Hp. rewrite Hfs. by rewrite lookup_insert_ne.
  - right. rewrite Hfs, lookup_insert_eq. by eexists.
Qed.

Lemma fopen_w_cases path w :
  ∃ b w', fopen_w path w = (Ret b, w') ∧ only_path path w w'.
Proof.
  io_unfold.
  destruct (w_faults w) as [|[e|] fl]; cbn;
    try (eexists false, _; split; [reflexivity | by apply only_path_quiet]);
    destruct (w_fs w !! path) as [x|] eqn:E; cbn;
    (eexists true, _; split; [reflexivity | by eapply only_path_insert]).
Qed.

Lemma putent_cases path e w :
  ∃ b w', putent path e w = (Ret b, w') ∧ only_path path w w'.
Proof.
  io_unfold.
  destruct (w_faults w) as [|[err|] fl]; cbn;
    try (eexists false, _; split; [reflexivity | by apply only_path_quiet]);
    destruct (w_fs w !! path) as [x|] eqn:E; cbn;
    try (eexists false, _; split; [reflexivity | by apply only_path_quiet]);
    (eexists true, _; split; [reflexivity | by eapply only_path_insert]).
Qed.

Lemma fclose_cases w : ∃ b w', fclose w = (Ret b, w') ∧ quiet w w'.
Proof.
  io_unfold.
  destruct (w_faults w) as [|[e|] fl]; cbn; eexists _, _; (split; [reflexivity | by split]).
Qed.

Ltac write_loop_tac IH file :=
  unfold mbind, io_bind, mret, io_ret, lift;
  lazymatch goal with
  | |- context [putent file ?e ?w] =>
      let w1 := fresh "w1" in
      let Ho1 := fresh "Ho1" in
      destruct (putent_cases file e w) as ([|] & w1 & -> & Ho1); cbn;
      [ let r := fresh "r" in
        let w2 := fresh "w2" in
        let Ho2 := fresh "Ho2" in
        destruct (IH w1) as (r & w2 & -> & Ho2);
        exists r, w2; split; [done | by eapply only_path_trans]
      | by exists (Ret false), w1 ]
  | |- _ =>
      eexists Abort, _; split; [reflexivity|]; apply only_path_quiet; by split
  end.

Lemma write_passwd_loop_only file l : ∀ w,
  ∃ r w', write_passwd_loop l file w = (r, w') ∧ only_path file w w'.
Proof.
  induction l as [|p next IH]; intros w; cbn.
  - exists (Ret true), w. split; [done|]. apply only_path_quiet. by split.
  - destruct (n_d p); write_loop_tac IH file.
Qed.

Lemma write_shadow_loop_only file l : ∀ w,
  ∃ r w', write_shadow_loop l file w = (r, w') ∧ only_path file w w'.
Proof.
  induction l as [|p next IH]; intros w; cbn.
  - exists (Ret true), w. split; [done|]. apply only_path_quiet. by split.
  - destruct (n_d p); write_loop_tac IH file.
Qed.

Lemma write_group_loop_only file l : ∀ w,
  ∃ r w', write_group_loop l file w = (r, w') ∧ only_path file w w'.
Proof.
  induction l as [|p next IH]; intros w; cbn.
  - exists (Ret true), w. split; [done|]. apply only_path_quiet. by split.
  - destruct (n_d p); write_loop_tac IH file.
Qed.

Ltac write_tac loop_only l file w :=
  unfold mbind, io_bind, mret, io_ret;
  let w1 := fresh "w1" in
  let Ho1 := fresh "Ho1" in
  destruct (fopen_w_cases file w) as ([|] & w1 & -> & Ho1); cbn;
  [ let r := fresh "r" in
    let w2 := fresh "w2" in
    let Ho2 := fresh "Ho2" in
    destruct (loop_only file l w1) as (r & w2 & -> & Ho2);
    assert (only_path file w w2) by (by eapply only_path_trans);
    destruct r as [[|]| | |]; cbn; try (by eexists _, _);
    let c := fresh "c" in
    let w3 := fresh "w3" in
    let Hq3 := fresh "Hq3" in
    destruct (fclose_cases w2) as (c & w3 & -> & Hq3);
    assert (only_path file w w3)
      by (eapply only_path_trans; [eassumption | by apply only_path_quiet]);
    destruct c; cbn; by eexists _, _
  | by eexists _, _ ].

Lemma write_passwd_only l file w :
  ∃ r w', write_passwd l file w = (r, w') ∧ only_path file w w'.
Proof. unfold write_passwd. write_tac write_passwd_loop_only l file w. Qed.

Lemma write_shadow_only l file w :
  ∃ r w', write_shadow l file w = (r, w') ∧ only_path file w w'.
Proof. unfold write_shadow. write_tac write_shadow_loop_only l file w. Qed.

Lemma write_group_only l file w :
  ∃ r w', write_group l file w = (r, w') ∧ only_path file w w'.
Proof. unfold write_group. write_tac write_group_loop_only l file w. Qed.

Lemma write_untouched (wr : list node → string → io bool) l file dest w r w' :
  (∀ l file w, ∃ r w', wr l file w = (r, w') ∧ only_path file w w') →
  dest ≠ file →
  wr l file w = (r, w') →
  only_path file w w' ∧ w_fs w' !! dest = w_fs w !! dest.
Proof.
  intros Honly Hne Hrun. destruct (Honly l file w) as (r0 & w0 & Hrun0 & Ho).
  rewrite Hrun in Hrun0. inversion Hrun0; subst. split; [done|].
  destruct Ho as [Ho _]. by apply Ho.
Qed.

(** C6, as the program has it.  When the dirty counter is not zero and this
    is not a dry run, and staging a store fails ([write_passwd],
    [write_shadow] or [write_group] returns 0, for whatever reason),
    [commit_files] returns 0 in the very state the writer left: nothing more
    is staged, published or removed.  The writer changed no path but its
    staging file, so the destination is as it was; and unless nothing on disk
    changed at all, the staging file is still there. *)
Theorem stage_failure_aborts (o : options) (g : globals) (w : world) :
  flag_dirty g ≠ 0 →
  opt_dryrun o = false →
  (∀ w',
     write_passwd (system_accounts g) (String.append (sys_passwd o) WRITE_EXTENSION) w
     = (Ret false, w') →
     commit_files o g w = (Ret false, w')
     ∧ only_path (String.append (sys_passwd o) WRITE_EXTENSION) w w'
     ∧ w_fs w' !! sys_passwd o = w_fs w !! sys_passwd o)
  ∧ (∀ wa wb w',
     write_passwd (system_accounts g) (String.append (sys_passwd o) WRITE_EXTENSION) w
     = (Ret true, wa) →
     put_file_in_place (String.append (sys_passwd o) WRITE_EXTENSION) (sys_passwd o) wa
     = (Ret true, wb) →
     is_null (system_shadow g) = false →
     write_shadow (system_shadow g) (String.append (sys_shadow o) WRITE_EXTENSION) wb
     = (Ret false, w') →
     commit_files o g w = (Ret false, w')
     ∧ only_path (String.append (sys_shadow o) WRITE_EXTENSION) wb w'
     ∧ w_fs w' !! sys_shadow o = w_fs wb !! sys_shadow o)
  ∧ (∀ wa wb wc wd w',
     write_passwd (system_accounts g) (String.append (sys_passwd o) WRITE_EXTENSION) w
     = (Ret true, wa) →
     put_file_in_place (String.append (sys_passwd o) WRITE_EXTENSION) (sys_passwd o) wa
     = (Ret true, wb) →
     (is_null (system_shadow g) = true ∧ wd = wb
      ∨ is_null (system_shadow g) = false
        ∧ write_shadow (system_shadow g) (String.append (sys_shadow o) WRITE_EXTENSION) wb
          = (Ret true, wc)
        ∧ put_file_in_place (String.append (sys_shadow o) WRITE_EXTENSION) (sys_shadow o) wc
          = (Ret true, wd)) →
     write_group (system_groups g) (String.append (sys_group o) WRITE_EXTENSION) wd
     = (Ret false, w') →
     commit_files o g w = (Ret false, w')
     ∧ only_path (String.append (sys_group o) WRITE_EXTENSION) wd w'
     ∧ w_fs w' !! sys_group o = w_fs wd !! sys_group o).
Proof.
  intros Hdirty Hdry.
  assert ((flag_dirty g =? 0) = false) as Hd by (by apply Z.eqb_neq).
  assert (∀ s, s ≠ String.append s WRITE_EXTENSION) as Hext.
  { intros s. apply append_extension_ne. simpl. lia. }
  split; [|split].
  - intros w' Hw. split.
    + unfold commit_files. rewrite Hd, Hdry.
      unfold mbind, io_bind. by rewrite Hw.
    + by eapply (write_untouched write_passwd); [apply write_passwd_only|..].
  - intros wa wb w' Hwa Hwb Hnull Hw. split.
    + unfold commit_files. rewrite Hd, Hdry.
      unfold mbind, io_bind. rewrite Hwa. cbn. rewrite Hwb. cbn.
      rewrite Hnull. cbn. by rewrite Hw.
    + by eapply (write_untouched write_shadow); [apply write_shadow_only|..].
  - intros wa wb wc wd w' Hwa Hwb Hshadow Hw. split.
    + unfold commit_files. rewrite Hd, Hdry.
      unfold mbind, io_bind. rewrite Hwa. cbn. rewrite Hwb. cbn.
      destruct Hshadow as [[Hnull ->] | (Hnull & Hwc & Hwd)]; rewrite Hnull; cbn.
      * by rewrite Hw.
      * rewrite Hwc. cbn. rewrite Hwd. cbn. by rewrite Hw.
    + by eapply (write_untouched write_group); [apply write_group_only|..].
Qed.

(** ** The program on concrete inputs *)

Lemma add_node_lower_id h rest x :
  (n_id x < n_id h)%N → add_node (h :: rest) x = [x].
Proof. intros H. simpl. apply N.ltb_lt in H. by rewrite H. Qed.

(** C2.  [add_node] with a node whose id is below the head's: the live list
    holds [daemon] (1) and [alice] (1000), the node is [root] (0).  The
    result is the new node alone; [daemon], which was in the list, is no
    longer found. *)
Theorem add_node_new_head_drops_list :
  ordered [Ex.n Ex.daemon; Ex.n Ex.alice] = true
  ∧ find_by_name [Ex.n Ex.daemon; Ex.n Ex.alice] "daemon" = Some (Ex.n Ex.daemon)
  ∧ add_node [Ex.n Ex.daemon; Ex.n Ex.alice] (Ex.n Ex.root) = [Ex.n Ex.root]
  ∧ find_by_name (add_node [Ex.n Ex.daemon; Ex.n Ex.alice] (Ex.n Ex.root)) "daemon"
    = None.
Proof. repeat split; vm_compute; reflexivity. Qed.

(** A node is stale when [process_old_entries] removes it on reaching it. *)
Lemma process_old_entries_steps_over table p q rest master d :
  outside_range p = false → noautoremove table (n_id p) = false →
  find_by_named_entry master p = None →
  process_old_entries table (p :: q :: rest) master d
  = ('(l, dirty) ← process_old_entries table rest master (d + 1); Ret (q :: l, dirty)).
Proof.
  unfold outside_range. intros Hr Hk Hf. cbn [process_old_entries].
  replace (n_id p <? 0)%N with false by (symmetry; apply N.ltb_ge; lia).
  by rewrite Hr, Hk, Hf.
Qed.

Lemma process_old_entries_last_stale table p master d :
  outside_range p = false → noautoremove table (n_id p) = false →
  find_by_named_entry master p = None →
  process_old_entries table [p] master d = Undef.
Proof.
  unfold outside_range. intros Hr Hk Hf. cbn [process_old_entries].
  replace (n_id p <? 0)%N with false by (symmetry; apply N.ltb_ge; lia).
  by rewrite Hr, Hk, Hf.
Qed.

(** C1.  [process_old_entries] on a live list with two stale nodes in a row,
    [oldtool] (60) and [legacy] (61): both are in the reserved range, neither
    has [FL_NOAUTOREMOVE], neither is in the master list.  [oldtool] is
    removed and the dirty counter becomes 1; [legacy], its successor, is
    stepped over and stays.  When the stale node is the last of the list the
    loop goes through [NULL]. *)
Theorem process_old_entries_skips_successor :
  outside_range (Ex.n Ex.legacy) = false
  ∧ noautoremove specialusers (n_id (Ex.n Ex.legacy)) = false
  ∧ find_by_named_entry Ex.master (Ex.n Ex.legacy) = None
  ∧ process_old_entries specialusers Ex.live_stale Ex.master 0
    = Ret ([Ex.n Ex.root; Ex.n Ex.legacy; Ex.n Ex.alice], 1)
  ∧ process_old_entries specialusers Ex.live_stale_last Ex.master 0 = Undef.
Proof. repeat split; vm_compute; reflexivity. Qed.

(** C7.  Two runs in a row.  The first run of the three loops over the
    accounts removes [oldtool] and steps over [legacy]; run again on its own
    output with the dirty counter at 0, it removes [legacy]: the counter is 1
    after the second run.  The same with [main] run twice, the second time
    on the files the first run left. *)
Theorem reconcile_second_run_dirty :
  let run1 := main specialusers (Ex.opts false) (Ex.world_of Ex.fs_stale []) in
  let run2 := main specialusers (Ex.opts false) (Ex.world_of (w_fs run1.2) []) in
  reconcile_accounts specialusers Ex.live_stale Ex.master 0
  = Ret ([Ex.n Ex.root; Ex.n Ex.legacy; Ex.n Ex.alice], 1)
  ∧ reconcile_accounts specialusers [Ex.n Ex.root; Ex.n Ex.legacy; Ex.n Ex.alice]
      Ex.master 0
    = Ret ([Ex.n Ex.root; Ex.n Ex.alice], 1)
  ∧ fst <$> returned run1 = Some 0
  ∧ flag_dirty ∘ snd <$> returned run1 = Some 1
  ∧ system_accounts ∘ snd <$> returned run1
    = Some [Ex.n Ex.root; Ex.n Ex.legacy; Ex.n Ex.alice]
  ∧ fst <$> returned run2 = Some 0
  ∧ flag_dirty ∘ snd <$> returned run2 = Some 1
  ∧ system_accounts ∘ snd <$> returned run2 = Some [Ex.n Ex.root; Ex.n Ex.alice].
Proof. repeat split; vm_compute; reflexivity. Qed.

(** C8.  [main] with [opt_sanity] set, on a system whose passwd file has the
    stale account [oldtool]: the lists are read, the six loops run,
    [oldtool] is removed from [system_accounts] and [flag_dirty] is 1 when
    [main] returns 0.  No file is written. *)
Theorem sanity_check_reconciles :
  let w := Ex.world_of Ex.fs_system [] in
  let run := main specialusers (Ex.opts true) w in
  returned (read_passwd [] "/etc/passwd" w)
  = Some (0, [Ex.n Ex.root; Ex.n Ex.oldtool; Ex.n Ex.alice])
  ∧ fst <$> returned run = Some 0
  ∧ system_accounts ∘ snd <$> returned run = Some [Ex.n Ex.root; Ex.n Ex.alice]
  ∧ flag_dirty ∘ snd <$> returned run = Some 1
  ∧ w_fs run.2 = Ex.fs_system
  ∧ w_history run.2 = [].
Proof. repeat split; vm_compute; reflexivity. Qed.

(** ** Counterexamples *)

(** C3 as stated fails: the master list holds [nobody] (65534), absent from
    the live list; after the three loops the live list holds a node with id
    65534 that it did not hold before. *)
Lemma reconcile_adds_outside_range :
  reconcile_accounts specialusers Ex.live_plain Ex.master_nobody 0
  = Ret ([Ex.n Ex.root; Ex.n Ex.alice; Ex.n Ex.nobody], 1)
  ∧ List.filter outside_range Ex.live_plain = [Ex.n Ex.alice]
  ∧ List.filter outside_range [Ex.n Ex.root; Ex.n Ex.alice; Ex.n Ex.nobody]
    = [Ex.n Ex.alice; Ex.n Ex.nobody]
  ∧ List.filter outside_range [Ex.n Ex.root; Ex.n Ex.alice; Ex.n Ex.nobody]
    ≠ List.filter outside_range Ex.live_plain.
Proof.
  split; [vm_compute; reflexivity|]. split; [vm_compute; reflexivity|].
  split; [vm_compute; reflexivity|]. vm_compute. discriminate.
Qed.

(** C10 as stated fails: the passwd file has the line [+] before the account
    [nfsnobody] with uid 4294967294.  The [+] node gets the id [INT_MAX],
    [nfsnobody] is put behind it: the [+] node is not the last of its
    list. *)
Lemma plus_record_not_last :
  returned (read_passwd [] "/etc/passwd" (Ex.world_of Ex.fs_plus []))
  = Some (0, [Ex.n Ex.root; Ex.n Ex.plus; Ex.n Ex.nfsnobody])
  ∧ n_id (Ex.n Ex.plus) = INT_MAX
  ∧ last [Ex.n Ex.root; Ex.n Ex.plus; Ex.n Ex.nfsnobody] ≠ Some (Ex.n Ex.plus).
Proof.
  split; [vm_compute; reflexivity|]. split; [vm_compute; reflexivity|].
  vm_compute. discriminate.
Qed.

(** C5 as stated fails.  With no failing call at all, the first state of
    the file system that [put_file_in_place] produces has no file at the
    destination.  And when [chmod] fails the aside copy is removed, not
    renamed back. *)
Lemma publish_leaves_destination_absent :
  let run := put_file_in_place "/etc/passwd.upwd-write" "/etc/passwd"
               (Ex.world_of Ex.fs_publish []) in
  let run' := put_file_in_place "/etc/passwd.upwd-write" "/etc/passwd"
                (Ex.world_of Ex.fs_publish [None; None; None; Some EOTHER]) in
  returned run = Some true
  ∧ (λ fs : gmap string file, fs !! "/etc/passwd"%string) <$> head (w_history run.2)
    = Some None
  ∧ ¬ Forall (fun fs => is_Some (fs !! "/etc/passwd"%string)) (w_history run.2)
  ∧ returned run' = Some false
  ∧ w_fs run'.2 !! "/etc/passwd.upwd-unlink"%string = None
  ∧ w_fs run'.2 !! "/etc/passwd"%string ≠ Ex.fs_publish !! "/etc/passwd"%string.
Proof.
  intros run run'.
  assert ((λ fs : gmap string file, fs !! "/etc/passwd"%string) <$> head (w_history run.2)
          = Some None) as Hgap by (vm_compute; reflexivity).
  split; [vm_compute; reflexivity|]. split; [exact Hgap|]. split.
  - intros HF. destruct (w_history run.2) as [|fs1 hs]; [discriminate|].
    apply Forall_cons_1 in HF as [[x Hx] _]. simpl in Hgap.
    rewrite Hx in Hgap. discriminate.
  - split; [vm_compute; reflexivity|]. split; [vm_compute; reflexivity|].
    vm_compute. discriminate.
Qed.

(** C6 as stated fails: the second [putpwent] fails while the accounts are
    staged.  [commit_files] returns 0 and the staging file, with the one line
    written so far, is still there. *)
Lemma stage_failure_leaves_partial_file :
  let run := commit_files (Ex.opts false) Ex.globals_dirty
               (Ex.world_of Ex.fs_system [None; None; Some EOTHER]) in
  returned run = Some false
  ∧ f_lines <$> w_fs run.2 !! "/etc/passwd.upwd-write"%string
    = Some [t_passwd Ex.root]
  ∧ w_fs run.2 !! "/etc/passwd.upwd-write"%string ≠ None.
Proof.
  split; [vm_compute; reflexivity|]. split; [vm_compute; reflexivity|].
  vm_compute. discriminate.
Qed.

(** ** The general statements at concrete inputs *)

Lemma outside_range_kept_witness :
  process_old_entries specialusers Ex.live_stale Ex.master 0
  = Ret ([Ex.n Ex.root; Ex.n Ex.legacy; Ex.n Ex.alice], 1)
  ∧ process_changed_accounts specialusers [Ex.n Ex.root; Ex.n Ex.legacy; Ex.n Ex.alice]
      Ex.master 1
    = Ret ([Ex.n Ex.root; Ex.n Ex.legacy; Ex.n Ex.alice], 1)
  ∧ List.filter outside_range [Ex.n Ex.root; Ex.n Ex.legacy; Ex.n Ex.alice]
    = List.filter outside_range Ex.live_stale
  ∧ Forall2 (fun p p' => outside_range p = true → p' = p)
      [Ex.n Ex.root; Ex.n Ex.legacy; Ex.n Ex.alice]
      [Ex.n Ex.root; Ex.n Ex.legacy; Ex.n Ex.alice].
Proof.
  split; [vm_compute; reflexivity|]. split; [vm_compute; reflexivity|].
  destruct (outside_range_kept specialusers Ex.live_stale Ex.master 0
              [Ex.n Ex.root; Ex.n Ex.legacy; Ex.n Ex.alice] 1
              [Ex.n Ex.root; Ex.n Ex.legacy; Ex.n Ex.alice] 1) as (H1 & H2 & _).
  - vm_compute; reflexivity.
  - left. vm_compute; reflexivity.
  - split; [exact H1 | exact H2].
Defined.


Lemma noautoadd_has_no_effect_witness :
  tables_agree specialusers specialusers_without_noautoadd = true
  ∧ find_by_named_entry Ex.live_plain (Ex.n Ex.ftp) = None
  ∧ scan_users specialusers (n_id (Ex.n Ex.ftp)) FL_NOAUTOADD = true
  ∧ process_new_entries Ex.live_plain Ex.master_ftp 0
    = Ret ([Ex.n Ex.root; Ex.n Ex.ftp; Ex.n Ex.alice], 1)
  ∧ reconcile_accounts specialusers Ex.live_plain Ex.master_ftp 0
    = reconcile_accounts specialusers_without_noautoadd Ex.live_plain Ex.master_ftp 0
  ∧ reconcile_groups specialusers Ex.live_plain Ex.master_ftp 0
    = reconcile_groups specialusers_without_noautoadd Ex.live_plain Ex.master_ftp 0.
Proof.
  split; [vm_compute; reflexivity|]. split; [vm_compute; reflexivity|]. split; [vm_compute; reflexivity|].
  split; [vm_compute; reflexivity|].
  destruct (noautoadd_has_no_effect specialusers specialusers_without_noautoadd
              Ex.live_plain Ex.master_ftp 0 (Ex.n Ex.ftp) []) as (H1 & H2 & _).
  - vm_compute; reflexivity.
  - vm_compute; reflexivity.
  - split; [exact H1 | exact H2].
Defined.

Lemma plus_record_kept_witness :
  starts_with_plus (n_name (Ex.n Ex.plus)) = true
  ∧ ordered Ex.live_plus = true
  ∧ process_old_entries specialusers Ex.live_plus_stale Ex.master 0
    = Ret (Ex.live_plus, 1)
  ∧ process_changed_accounts specialusers Ex.live_plus Ex.master 1
    = Ret (Ex.live_plus, 1)
  ∧ n_id (Ex.n Ex.plus) = INT_MAX
  ∧ (In (Ex.n Ex.plus) Ex.live_plus_stale → In (Ex.n Ex.plus) Ex.live_plus)
  ∧ (∀ i, Ex.live_plus !! i = Some (Ex.n Ex.plus) →
          Ex.live_plus !! i = Some (Ex.n Ex.plus))
  ∧ (∀ x, ordered (add_node Ex.live_plus x) = true)
  ∧ (∀ before after, Ex.live_plus = before ++ Ex.n Ex.plus :: after →
       Forall (fun q => (INT_MAX <= n_id q)%N) after).
Proof.
  split; [vm_compute; reflexivity|]. split; [vm_compute; reflexivity|]. split; [vm_compute; reflexivity|].
  split; [vm_compute; reflexivity|].
  apply (plus_record_kept specialusers (Ex.n Ex.plus) Ex.plus Ex.g_plus
           Ex.live_plus Ex.live_plus_stale Ex.master 0 Ex.live_plus 1 Ex.live_plus 1).
  - vm_compute; reflexivity.
  - left. vm_compute; reflexivity.
  - vm_compute; reflexivity.
  - vm_compute; reflexivity.
  - left. vm_compute; reflexivity.
Defined.


Lemma stage_failure_aborts_witness :
  let o := Ex.opts false in
  let g := Ex.globals_dirty in
  let w := Ex.world_of Ex.fs_system [None; None; Some EOTHER] in
  let w' := (write_passwd (system_accounts g) "/etc/passwd.upwd-write" w).2 in
  flag_dirty g ≠ 0
  ∧ opt_dryrun o = false
  ∧ write_passwd (system_accounts g) "/etc/passwd.upwd-write" w = (Ret false, w')
  ∧ commit_files o g w = (Ret false, w')
  ∧ only_path "/etc/passwd.upwd-write" w w'
  ∧ w_fs w' !! "/etc/passwd"%string = w_fs w !! "/etc/passwd"%string.
Proof.
  intros o g w w'.
  assert (flag_dirty g ≠ 0) as Hd by discriminate.
  split; [exact Hd|]. split; [vm_compute; reflexivity|]. split; [vm_compute; reflexivity|].
  apply (proj1 (stage_failure_aborts o g w Hd eq_refl) w'). vm_compute; reflexivity.
Defined.

(** * Further properties of the program *)

(** ** The record store *)

Lemma add_node_walk_split next : ∀ walk x,
  (n_id walk <= n_id x)%N →
  ∃ before after,
    walk :: next = before ++ after
    ∧ add_node_walk walk next x = before ++ x :: after
    ∧ Forall (fun q => (n_id q <= n_id x)%N) before
    ∧ match after with
      | [] => True
      | a :: _ => (n_id x < n_id a)%N
      end.
Proof.
  induction next as [|nx rest IH]; intros walk x Hle.
  - exists [walk], []. simpl. repeat split; auto.
  - cbn [add_node_walk]. destruct (n_id nx <=? n_id x)%N eqn:E.
    + apply N.leb_le in E. destruct (IH nx x E) as (b & a & H1 & H2 & H3 & H4).
      exists (walk :: b), a. rewrite H1, H2. repeat split; auto.
    + apply N.leb_gt in E. exists [walk], (nx :: rest). repeat split; auto.
Qed.

(** X1.  [add_node] on a list whose head's id is not above the new node's:
    the list is cut in two, the new node is put between the parts, and
    nothing else changes.  Every node before the new one has an id that is
    not above its id, and the node right behind it, if any, has a greater
    id: among equal ids the new node comes last. *)
Theorem add_node_inserts_in_place (h : node) (rest : list node) (x : node) :
  (n_id h <= n_id x)%N →
  ∃ before after,
    h :: rest = before ++ after
    ∧ add_node (h :: rest) x = before ++ x :: after
    ∧ Forall (fun q => (n_id q <= n_id x)%N) before
    ∧ match after with
      | [] => True
      | a :: _ => (n_id x < n_id a)%N
      end.
Proof.
  intros Hle. unfold add_node.
  replace (n_id x <? n_id h)%N with false by (symmetry; apply N.ltb_ge; lia).
  by apply add_node_walk_split.
Qed.

Lemma find_by_name_first head : ∀ name x,
  find_by_name head name = Some x ↔
  ∃ before after, head = before ++ x :: after ∧ n_name x = name
                  ∧ Forall (fun q => n_name q ≠ name) before.
Proof.
  induction head as [|h next IH]; intros name x; simpl.
  - split; [done|]. intros (b & a & H & _). by destruct b.
  - destruct (String.eqb name (n_name h)) eqn:E.
    + apply String.eqb_eq in E. split.
      * intros H. inversion H; subst. by exists [], next.
      * intros (b & a & H & Hn & HF). destruct b as [|b0 b].
        -- simpl in H. by inversion H.
        -- simpl in H. inversion H; subst. apply Forall_cons_1 in HF as [HF _]. done.
    + apply String.eqb_neq in E. rewrite IH. split.
      * intros (b & a & -> & Hn & HF). exists (h :: b), a.
        split; [done|]. split; [done|]. apply List.Forall_cons; [congruence | done].
      * intros (b & a & H & Hn & HF). destruct b as [|b0 b].
        -- simpl in H. inversion H; subst. done.
        -- simpl in H. inversion H; subst. apply Forall_cons_1 in HF as [_ HF].
           by exists b, a.
Qed.

Lemma find_by_named_entry_by_name head entry :
  find_by_named_entry head entry = find_by_name head (n_name entry).
Proof. induction head as [|h next IH]; simpl; [done|]. by rewrite IH. Qed.

Lemma find_by_name_None head name :
  find_by_name head name = None ↔ Forall (fun q => n_name q ≠ name) head.
Proof.
  induction head as [|h next IH]; simpl.
  - split; [constructor | done].
  - destruct (String.eqb name (n_name h)) eqn:E.
    + apply String.eqb_eq in E. split; [done|].
      intros HF. apply Forall_cons_1 in HF as [HF _]. done.
    + apply String.eqb_neq in E. rewrite IH. split.
      * intros HF. apply List.Forall_cons; [congruence | done].
      * intros HF. by apply Forall_cons_1 in HF as [_ HF].
Qed.

(** X2.  The lookups by name.  [find_by_name] returns the first node of the
    list that has the name, and [NULL] exactly when no node has it;
    [find_by_named_entry] is [find_by_name] with the name of the entry. *)
Theorem find_by_name_first_match (head : list node) (name : string) (entry : node) :
  (∀ x, find_by_name head name = Some x ↔
        ∃ before after, head = before ++ x :: after ∧ n_name x = name
                        ∧ Forall (fun q => n_name q ≠ name) before)
  ∧ (find_by_name head name = None ↔ Forall (fun q => n_name q ≠ name) head)
  ∧ find_by_named_entry head entry = find_by_name head (n_name entry).
Proof.
  split; [|split].
  - intros x. apply find_by_name_first.
  - apply find_by_name_None.
  - apply find_by_named_entry_by_name.
Qed.

Lemma find_by_name_In head name x :
  In x head → n_name x = name → ∃ y, find_by_name head name = Some y ∧ n_name y = name.
Proof.
  intros Hin Hn. destruct (find_by_name head name) as [y|] eqn:E.
  - exists y. split; [done|]. apply find_by_name_first in E as (_ & _ & _ & H & _). done.
  - apply find_by_name_None in E. rewrite Forall_forall in E.
    apply list_elem_of_In in Hin. by specialize (E x Hin).
Qed.

Lemma find_by_id_In head id x :
  In x head → n_id x = id → ∃ y, find_by_id head id = Some y ∧ n_id y = id.
Proof.
  induction head as [|h next IH]; intros Hin Hid; [done|]. simpl.
  destruct (id =? n_id h)%N eqn:E.
  - apply N.eqb_eq in E. by exists h.
  - destruct Hin as [->|Hin]; [|by apply IH].
    apply N.eqb_neq in E. congruence.
Qed.

(** X3.  Insertion, then lookup: after [add_node] a lookup by the new node's
    name finds a node of that name and a lookup by its id finds a node of
    that id, whatever the list was. *)
Theorem add_node_then_find (head : list node) (x : node) :
  (∃ y, find_by_name (add_node head x) (n_name x) = Some y ∧ n_name y = n_name x)
  ∧ (∃ y, find_by_named_entry (add_node head x) x = Some y ∧ n_name y = n_name x)
  ∧ (∃ y, find_by_id (add_node head x) (n_id x) = Some y ∧ n_id y = n_id x).
Proof.
  split; [|split].
  - eapply find_by_name_In; [apply add_node_In | done].
  - rewrite find_by_named_entry_by_name.
    eapply find_by_name_In; [apply add_node_In | done].
  - eapply find_by_id_In; [apply add_node_In | done].
Qed.

(** ** The policy lookup *)

Lemma scan_table_absent walk id flag :
  Forall (fun w => ui_id w ≠ id) walk → scan_table walk id flag = false.
Proof.
  induction walk as [|w walk IH]; intros HF; simpl; [done|].
  apply Forall_cons_1 in HF as [Hw HF].
  destruct ((ui_id w =? 0)%N && (ui_flags w =? 0)%N); [done|].
  destruct (ui_id w =? id)%N eqn:E; [|by apply IH].
  apply N.eqb_eq in E. done.
Qed.

(** X4.  [scan_users] answers from the first entry of the table that has
    the id: entries before it with another id do not matter, entries behind
    it are not looked at, and an id that no entry has, has no flag.  The
    entries of the first part must not be [{0, 0}], which ends the scan. *)
Theorem scan_users_first_entry (before : list userinfo) (w : userinfo)
  (after : list userinfo) (id flag : N) :
  Forall (fun e => ui_id e ≠ id ∧ is_terminator e = false) before →
  (ui_id w = id → is_terminator w = false →
   scan_users (before ++ w :: after) id flag
   = negb (N.land (ui_flags w) flag =? 0)%N)
  ∧ (Forall (fun e => ui_id e ≠ id) (w :: after) →
     scan_users (before ++ w :: after) id flag = false).
Proof.
  intros HF. split.
  - intros Hid Hterm. unfold scan_users.
    induction before as [|e before IH]; simpl.
    + unfold is_terminator in Hterm. rewrite Hterm.
      apply N.eqb_eq in Hid. by rewrite Hid.
    + apply Forall_cons_1 in HF as [[He Ht] HF]. unfold is_terminator in Ht.
      rewrite Ht. apply N.eqb_neq in He. rewrite He. by apply IH.
  - intros Hafter. apply scan_table_absent. apply Forall_app. split; [|done].
    eapply Forall_impl; [exact HF|]. by intros e [He _].
Qed.

(** ** Copying a node *)

Lemma format_cons_plain c s :
  Ascii.eqb c "%" = false →
  format (String c s) = (s' ← format s; Ret (String c s')).
Proof.
  intros Hc.
  destruct c as [[] [] [] [] [] [] [] []]; try reflexivity; discriminate.
Qed.

Lemma format_no_percent s : no_percent s = true → format s = Ret s.
Proof.
  induction s as [|c s IH]; [done|]. simpl no_percent. intros H.
  apply andb_true_iff in H as [Hc Hs]. apply negb_true_iff in Hc.
  rewrite format_cons_plain by done. by rewrite (IH Hs).
Qed.

Lemma sprintf_plain o :
  plain_field o = true → ∃ s, o = Some s ∧ sprintf o = Ret s.
Proof.
  destruct o as [s|]; [|done]. simpl. intros H. exists s. split; [done|].
  by apply format_no_percent.
Qed.

(** X5.  [copy_node] on a node whose strings are all present and without
    [%]: when the strings, each with its terminating byte, fit into [buf],
    the copy is equal to the node; when they do not, the program exits with
    status 100. *)
Theorem copy_node_plain (n : node) :
  plain n = true →
  copy_node n = if NSS_BUFLEN_PASSWD <? copy_size n then Exit 100 else Ret n.
Proof.
  unfold plain, copy_node, copy_size. destruct n as [d name id]. simpl.
  destruct d as [pw|sp|gr]; intros H.
  - destruct pw as [nm pass uid gid gecos dir shell]. simpl in *.
    repeat (apply andb_true_iff in H as [H ?]).
    destruct (sprintf_plain pass) as (s1 & -> & E1); [done|].
    destruct (sprintf_plain gecos) as (s2 & -> & E2); [done|].
    destruct (sprintf_plain dir) as (s3 & -> & E3); [done|].
    destruct (sprintf_plain shell) as (s4 & -> & E4); [done|].
    unfold copy_passwd. simpl pw_name. simpl pw_passwd. simpl pw_gecos.
    simpl pw_dir. simpl pw_shell.
    rewrite E1, E2, E3, E4. unfold sprintf.
    rewrite !(format_no_percent nm) by done. simpl.
    replace (0 + (strlen nm + 1) + (strlen s1 + 1) + (strlen s2 + 1)
             + (strlen s3 + 1) + (strlen s4 + 1))
      with (strlen nm + 1 + (strlen s1 + 1) + (strlen s2 + 1)
            + (strlen s3 + 1) + (strlen s4 + 1)) by lia.
    by destruct (NSS_BUFLEN_PASSWD <? _).
  - destruct sp as [nm pass a b c d0 e f]. simpl in *.
    apply andb_true_iff in H as [H ?].
    destruct (sprintf_plain pass) as (s1 & -> & E1); [done|].
    unfold copy_shadow. simpl sp_namp. simpl sp_pwdp.
    rewrite E1. unfold sprintf.
    rewrite !(format_no_percent nm) by done. simpl.
    replace (0 + (strlen nm + 1) + (strlen s1 + 1))
      with (strlen nm + 1 + (strlen s1 + 1)) by lia.
    by destruct (NSS_BUFLEN_PASSWD <? _).
  - destruct gr as [nm pass gid mem]. simpl in *.
    apply andb_true_iff in H as [H ?].
    destruct (sprintf_plain pass) as (s1 & -> & E1); [done|].
    unfold copy_group. simpl gr_name. simpl gr_passwd.
    rewrite E1. unfold sprintf.
    rewrite !(format_no_percent nm) by done. simpl.
    replace (0 + (strlen nm + 1) + (strlen s1 + 1) + (strlen nm + 1))
      with (strlen nm + 1 + (strlen s1 + 1) + (strlen nm + 1)) by lia.
    by destruct (NSS_BUFLEN_PASSWD <? _).
Qed.

Lemma format_length_bound (k : nat) : ∀ fmt out,
  (String.length fmt ≤ k)%nat →
  format fmt = Ret out → (String.length out ≤ String.length fmt)%nat.
Proof.
  induction k as [|k IH]; intros fmt out Hk H.
  - destruct fmt; [by inversion H | simpl in Hk; lia].
  - destruct fmt as [|c s]; [by inversion H|]. simpl in Hk.
    destruct (Ascii.eqb c "%") eqn:Hc.
    + apply Ascii.eqb_eq in Hc. subst c.
      destruct s as [|c' s']; [discriminate|].
      destruct (Ascii.eqb c' "%") eqn:Hc'.
      * apply Ascii.eqb_eq in Hc'. subst c'.
        change (format (String "%" (String "%" s'))) with
          (s0 ← format s'; Ret (String "%"%char s0)) in H.
        apply bind_Ret in H as [s0 [Hs0 H]]. inversion H; subst.
        assert (String.length s0 ≤ String.length s')%nat
          by (apply IH; [simpl in Hk; lia | done]).
        simpl. lia.
      * exfalso. clear IH.
        destruct c' as [[] [] [] [] [] [] [] []]; try discriminate H; discriminate Hc'.
    + rewrite format_cons_plain in H by done.
      apply bind_Ret in H as [s0 [Hs0 H]]. inversion H; subst.
      assert (String.length s0 ≤ String.length s)%nat by (apply IH; [lia | done]).
      simpl. lia.
Qed.

Lemma sprintf_length o out :
  sprintf o = Ret out → ∃ s, o = Some s ∧ strlen out <= strlen s.
Proof.
  destruct o as [s|]; [|done]. simpl. intros H. exists s. split; [done|].
  unfold strlen. apply (format_length_bound (String.length s)) in H; [lia | done].
Qed.

(** What a copy that [copy_node] has returned keeps. *)
Lemma copy_node_returned_keeps (n n' : node) :
  copy_node n = Ret n' →
  n_id n' = n_id n ∧ n_name n' = n_name n
  ∧ match n_d n, n_d n' with
    | t_passwd pw, t_passwd pw' =>
        pw_uid pw' = pw_uid pw ∧ pw_gid pw' = pw_gid pw
        ∧ strlen (pw_name pw') <= strlen (pw_name pw)
        ∧ field_size (pw_passwd pw') <= field_size (pw_passwd pw)
        ∧ field_size (pw_gecos pw') <= field_size (pw_gecos pw)
        ∧ field_size (pw_dir pw') <= field_size (pw_dir pw)
        ∧ field_size (pw_shell pw') <= field_size (pw_shell pw)
    | t_shadow sp, t_shadow sp' =>
        (sp_lstchg sp', sp_min sp', sp_max sp', sp_warn sp', sp_inact sp', sp_expire sp')
        = (sp_lstchg sp, sp_min sp, sp_max sp, sp_warn sp, sp_inact sp, sp_expire sp)
        ∧ strlen (sp_namp sp') <= strlen (sp_namp sp)
        ∧ field_size (sp_pwdp sp') <= field_size (sp_pwdp sp)
    | t_group gr, t_group gr' =>
        gr_gid gr' = gr_gid gr ∧ gr_mem gr' = gr_mem gr
        ∧ strlen (gr_name gr') <= strlen (gr_name gr)
        ∧ field_size (gr_passwd gr') <= field_size (gr_passwd gr)
    | _, _ => False
    end.
Proof.
  unfold copy_node. intros H. destruct (n_d n) as [pw|sp|gr] eqn:Hd.
  - apply bind_Ret in H as [pw' [Hc H]]. inversion H; subst. simpl.
    split; [done|]. split; [done|].
    unfold copy_passwd in Hc.
    apply bind_Ret in Hc as [s0 [H0 Hc]]. apply bind_Ret in Hc as [s1 [H1 Hc]].
    apply bind_Ret in Hc as [s2 [H2 Hc]]. apply bind_Ret in Hc as [s3 [H3 Hc]].
    apply bind_Ret in Hc as [s4 [H4 Hc]].
    destruct (NSS_BUFLEN_PASSWD <? _); [done|]. inversion Hc; subst. simpl.
    apply sprintf_length in H0 as (? & [= <-] & ?).
    apply sprintf_length in H1 as (? & -> & ?).
    apply sprintf_length in H2 as (? & -> & ?).
    apply sprintf_length in H3 as (? & -> & ?).
    apply sprintf_length in H4 as (? & -> & ?).
    simpl. repeat split; lia.
  - apply bind_Ret in H as [sp' [Hc H]]. inversion H; subst. simpl.
    split; [done|]. split; [done|].
    unfold copy_shadow in Hc.
    apply bind_Ret in Hc as [s0 [H0 Hc]]. apply bind_Ret in Hc as [s1 [H1 Hc]].
    destruct (NSS_BUFLEN_PASSWD <? _); [done|]. inversion Hc; subst. simpl.
    apply sprintf_length in H0 as (? & [= <-] & ?).
    apply sprintf_length in H1 as (? & -> & ?).
    simpl. repeat split; lia.
  - apply bind_Ret in H as [gr' [Hc H]]. inversion H; subst. simpl.
    split; [done|]. split; [done|].
    unfold copy_group in Hc.
    apply bind_Ret in Hc as [s0 [H0 Hc]]. apply bind_Ret in Hc as [s1 [H1 Hc]].
    apply bind_Ret in Hc as [s2 [H2 Hc]].
    destruct (NSS_BUFLEN_PASSWD <? _); [done|]. inversion Hc; subst. simpl.
    apply sprintf_length in H2 as (? & [= <-] & ?).
    apply sprintf_length in H1 as (? & -> & ?).
    simpl. repeat split; lia.
Qed.

(** ** Adding the missing entries *)

Lemma copy_node_id_name n n' :
  copy_node n = Ret n' → n_id n' = n_id n ∧ n_name n' = n_name n.
Proof.
  unfold copy_node. intros H. destruct (n_d n);
    apply bind_Ret in H as [? [_ H]]; by inversion H; subst.
Qed.

Lemma has_name_In l m x :
  In x l → n_name x = n_name m → has_name l m = true.
Proof.
  intros Hin Hn. unfold has_name. rewrite find_by_named_entry_by_name.
  destruct (find_by_name_In l (n_name m) x Hin Hn) as (y & -> & _). done.
Qed.

Lemma has_name_found l m :
  has_name l m = true → ∃ y, find_by_named_entry l m = Some y ∧ In y l.
Proof.
  unfold has_name. destruct (find_by_named_entry l m) as [y|] eqn:E; [|done].
  intros _. exists y. split; [done|]. by apply find_by_named_entry_Some in E as [? _].
Qed.

Lemma process_new_entries_noop (passwd master : list node) (d : Z) :
  forallb (has_name passwd) master = true →
  process_new_entries passwd master d = Ret (passwd, d).
Proof.
  induction master as [|m master' IH]; intros H; [done|]. simpl in H.
  apply andb_true_iff in H as [Hm H']. simpl.
  unfold has_name in Hm. destruct (find_by_named_entry passwd m); [|done].
  by apply IH.
Qed.

(** X7.  [process_new_entries] on a live list that already has a node for
    every name of the master list: the list and the dirty counter are
    returned as they are. *)
Theorem process_new_entries_nothing_missing (passwd master : list node) (d : Z) :
  forallb (has_name passwd) master = true →
  process_new_entries passwd master d = Ret (passwd, d).
Proof. apply process_new_entries_noop. Qed.

(** X8.  What [process_new_entries] can put into the list: whenever it
    returns, every node of the result is a node of the live list or the copy
    of a node of the master list; the dirty counter has not gone down and has
    grown by at most the length of the master list. *)
Theorem process_new_entries_adds_copies (passwd master l : list node) (d d' : Z) :
  process_new_entries passwd master d = Ret (l, d') →
  (∀ x, In x l → In x passwd ∨ ∃ m, In m master ∧ copy_node m = Ret x)
  ∧ d <= d' <= d + Z.of_nat (length master).
Proof.
  revert passwd d. induction master as [|m master' IH]; intros passwd d H; simpl in H.
  - inversion H; subst. split; [auto | simpl; lia].
  - destruct (find_by_named_entry passwd m).
    + destruct (IH _ _ H) as [Hin Hd]. split.
      * intros x Hx. destruct (Hin x Hx) as [?|(m0 & ? & ?)]; [by left|].
        right. exists m0. split; [by right | done].
      * simpl length. lia.
    + apply bind_Ret in H as [m' [Hcopy H]].
      destruct (IH _ _ H) as [Hin Hd]. split.
      * intros x Hx. destruct (Hin x Hx) as [Hadd|(m0 & ? & ?)].
        -- destruct passwd as [|h rest]; simpl in Hadd.
           ++ destruct Hadd as [<-|[]]. right. exists m. split; [by left | done].
           ++ destruct (n_id m' <? n_id h)%N.
              ** destruct Hadd as [<-|[]]. right. exists m. split; [by left | done].
              ** assert (In x (m' :: h :: rest)) as Hx'.
                 { clear -Hadd. revert h Hadd. induction rest as [|r rest IH]; intros h Hadd.
                   - simpl in Hadd. simpl. tauto.
                   - simpl in Hadd. destruct (n_id r <=? n_id m')%N.
                     + destruct Hadd as [<-|Hadd]; [simpl; tauto|].
                       specialize (IH r Hadd). simpl in *. tauto.
                     + simpl in *. tauto. }
                 destruct Hx' as [<-|Hx']; [|by left].
                 right. exists m. split; [by left | done].
        -- right. exists m0. split; [by right | done].
      * simpl length. lia.
Qed.

Lemma add_node_walk_head next : ∀ walk x,
  ∃ l, add_node_walk walk next x = walk :: l.
Proof.
  destruct next as [|nx rest]; intros walk x; simpl; [by eexists|].
  destruct (n_id nx <=? n_id x)%N; by eexists.
Qed.

Lemma add_node_no_drop h rest x :
  (n_id h <= n_id x)%N →
  (∃ rest', add_node (h :: rest) x = h :: rest')
  ∧ (∀ y, In y (h :: rest) → In y (add_node (h :: rest) x))
  ∧ length (add_node (h :: rest) x) = S (length (h :: rest)).
Proof.
  intros Hle. unfold add_node.
  replace (n_id x <? n_id h)%N with false by (symmetry; apply N.ltb_ge; lia).
  split; [apply add_node_walk_head|].
  destruct (add_node_walk_split rest h x Hle) as (b & a & H1 & H2 & _).
  rewrite H2, H1. split.
  - intros y Hy. apply in_app_iff in Hy. apply in_app_iff. simpl. tauto.
  - rewrite !length_app. simpl. lia.
Qed.

Lemma process_new_entries_head_least h master : ∀ rest d l d',
  forallb (fun m => (n_id h <=? n_id m)%N) master = true →
  process_new_entries (h :: rest) master d = Ret (l, d') →
  (∃ rest', l = h :: rest')
  ∧ (∀ x, In x (h :: rest) → In x l)
  ∧ forallb (has_name l) master = true
  ∧ Z.of_nat (length l) = Z.of_nat (length (h :: rest)) + (d' - d).
Proof.
  induction master as [|m master' IH]; intros rest d l d' Hm H;
    cbn [process_new_entries] in H.
  - inversion H; subst. split; [by eexists|]. split; [done|]. split; [done|]. lia.
  - simpl in Hm. apply andb_true_iff in Hm as [Hhm Hm']. apply N.leb_le in Hhm.
    destruct (find_by_named_entry (h :: rest) m) as [y|] eqn:Hfind.
    + destruct (IH _ _ _ _ Hm' H) as (Hhead & Hin & Hnames & Hlen).
      split; [done|]. split; [done|]. split; [|done].
      simpl. rewrite Hnames, andb_true_r.
      apply find_by_named_entry_Some in Hfind as [Hy Hn].
      eapply has_name_In; [apply Hin, Hy | done].
    + apply bind_Ret in H as [m' [Hcopy H]].
      destruct (copy_node_id_name _ _ Hcopy) as [Hid Hname].
      destruct (add_node_no_drop h rest m') as ([rest' Hadd] & Hkeep & Hlen').
      { rewrite Hid. done. }
      rewrite Hadd in H.
      destruct (IH _ _ _ _ Hm' H) as (Hhead & Hin & Hnames & Hlen).
      split; [done|]. split; [|split].
      * intros x Hx. apply Hin. rewrite <- Hadd. by apply Hkeep.
      * simpl. rewrite Hnames, andb_true_r.
        eapply has_name_In; [|exact Hname].
        apply Hin. rewrite <- Hadd. apply add_node_In.
      * rewrite <- Hadd, Hlen' in Hlen. lia.
Qed.

(** X9.  [process_new_entries] on a live list whose first node has an id
    that is not above any id of the master list (a list that begins with
    root, id 0, is one): whenever it returns, every node of the live list is
    still in the result, every name of the master list is found in the
    result, the first node is still the first, and the list has grown by as
    many nodes as the dirty counter has grown. *)
Theorem process_new_entries_keeps_and_completes (h : node) (rest master l : list node)
  (d d' : Z) :
  forallb (fun m => (n_id h <=? n_id m)%N) master = true →
  process_new_entries (h :: rest) master d = Ret (l, d') →
  (∃ rest', l = h :: rest')
  ∧ (∀ x, In x (h :: rest) → In x l)
  ∧ forallb (has_name l) master = true
  ∧ Z.of_nat (length l) = Z.of_nat (length (h :: rest)) + (d' - d).
Proof. apply process_new_entries_head_least. Qed.

(** ** Removing the stale entries *)

Lemma process_old_entries_unfold table p next master d :
  process_old_entries table (p :: next) master d =
  if stale table master p then
    match next with
    | [] => Undef
    | q :: next' =>
        '(l, dirty) ← process_old_entries table next' master (d + 1);
        Ret (q :: l, dirty)
    end
  else
    '(l, dirty) ← process_old_entries table next master d;
    Ret (p :: l, dirty).
Proof.
  cbn [process_old_entries]. unfold stale.
  destruct ((n_id p <? 0)%N || (99 <? n_id p)%N); [done|].
  destruct (noautoremove table (n_id p)); [done|].
  by destruct (find_by_named_entry master p).
Qed.

Lemma process_old_entries_only_removes_len (table : list userinfo) (k : nat) :
  ∀ passwd master d l d',
    (length passwd ≤ k)%nat →
    process_old_entries table passwd master d = Ret (l, d') →
    sublist l passwd
    ∧ d' = d + (Z.of_nat (length passwd) - Z.of_nat (length l))
    ∧ (∀ x, In x passwd → stale table master x = false → In x l).
Proof.
  induction k as [|k IH]; intros passwd master d l d' Hlen H.
  - destruct passwd; simpl in Hlen; [|lia]. simpl in H. inversion H; subst.
    split; [constructor|]. split; [simpl; lia | done].
  - destruct passwd as [|p next].
    { simpl in H. inversion H; subst. split; [constructor|]. split; [simpl; lia | done]. }
    simpl in Hlen. rewrite process_old_entries_unfold in H.
    destruct (stale table master p) eqn:Hst.
    + destruct next as [|q next']; [discriminate|]. simpl in Hlen.
      apply bind_Ret in H as [[l1 d1] [H1 H2]]. inversion H2; subst.
      destruct (IH next' master (d + 1) l1 d' ltac:(lia) H1) as (Hsub & Hd & Hkeep).
      split; [|split].
      * apply sublist_cons. by apply sublist_skip.
      * simpl length. lia.
      * intros x [<-|[<-|Hx]] Hx'; [congruence | by left | right; by apply Hkeep].
    + apply bind_Ret in H as [[l1 d1] [H1 H2]]. inversion H2; subst.
      destruct (IH next master d l1 d' ltac:(lia) H1) as (Hsub & Hd & Hkeep).
      split; [|split].
      * by apply sublist_skip.
      * simpl length. lia.
      * intros x [<-|Hx] Hx'; [by left | right; by apply Hkeep].
Qed.

(** X10.  [process_old_entries] only removes: whenever it returns, the
    result is the live list with some nodes left out, in the same order; the
    dirty counter has grown by the number of nodes left out; and every node
    that is not stale (outside the reserved range, or with
    [FL_NOAUTOREMOVE], or with its name in the master list) is still
    there. *)
Theorem process_old_entries_only_removes (table : list userinfo)
  (passwd master l : list node) (d d' : Z) :
  process_old_entries table passwd master d = Ret (l, d') →
  sublist l passwd
  ∧ d' = d + (Z.of_nat (length passwd) - Z.of_nat (length l))
  ∧ (∀ x, In x passwd → stale table master x = false → In x l).
Proof. by apply (process_old_entries_only_removes_len table (length passwd)). Qed.

Lemma process_old_entries_apart_len (table : list userinfo) (k : nat) :
  ∀ passwd master d,
    (length passwd ≤ k)%nat →
    stale_apart table master passwd = true →
    process_old_entries table passwd master d
    = Ret (List.filter (fun x => negb (stale table master x)) passwd,
           d + Z.of_nat (length (List.filter (stale table master) passwd))).
Proof.
  induction k as [|k IH]; intros passwd master d Hlen H.
  - destruct passwd; simpl in Hlen; [|lia]. simpl. f_equal. f_equal. lia.
  - destruct passwd as [|p next]; [simpl; f_equal; f_equal; lia|].
    simpl in Hlen. rewrite process_old_entries_unfold.
    cbn [stale_apart] in H. cbn [List.filter].
    destruct (stale table master p) eqn:Hst; cbn [negb].
    + destruct next as [|q next']; [discriminate|]. simpl in Hlen.
      apply andb_true_iff in H as [Hq H]. apply negb_true_iff in Hq.
      cbn [stale_apart] in H. rewrite Hq in H.
      rewrite (IH next' master (d + 1)) by (done || lia).
      cbn [List.filter]. rewrite Hq. simpl. f_equal. f_equal. lia.
    + rewrite (IH next master d) by (done || lia). simpl. done.
Qed.

(** X11.  [process_old_entries] on a live list in which every stale node is
    directly followed by a node that is not stale: it returns, the result is
    the live list without its stale nodes, and the dirty counter has grown by
    their number. *)
Theorem process_old_entries_removes_all (table : list userinfo)
  (passwd master : list node) (d : Z) :
  stale_apart table master passwd = true →
  process_old_entries table passwd master d
  = Ret (List.filter (fun x => negb (stale table master x)) passwd,
         d + Z.of_nat (length (List.filter (stale table master) passwd))).
Proof. by apply (process_old_entries_apart_len table (length passwd)). Qed.

Lemma process_old_entries_returns_last_len (table : list userinfo) (k : nat) :
  ∀ passwd master d z,
    (length passwd ≤ k)%nat →
    last passwd = Some z → stale table master z = false →
    ∃ l d', process_old_entries table passwd master d = Ret (l, d').
Proof.
  induction k as [|k IH]; intros passwd master d z Hlen Hlast Hz.
  - destruct passwd; [done | simpl in Hlen; lia].
  - destruct passwd as [|p next]; [done|]. simpl in Hlen.
    rewrite process_old_entries_unfold.
    destruct next as [|q next'].
    + simpl in Hlast. inversion Hlast; subst z. rewrite Hz. simpl. by eexists _, _.
    + rewrite last_cons_cons in Hlast. simpl in Hlen.
      destruct (stale table master p).
      * destruct next' as [|r next''].
        -- simpl. by eexists _, _.
        -- rewrite last_cons_cons in Hlast.
           destruct (IH (r :: next'') master (d + 1) z ltac:(simpl in *; lia) Hlast Hz)
             as (l1 & d1 & ->).
           by eexists _, _.
      * destruct (IH (q :: next') master d z ltac:(simpl; lia) Hlast Hz)
          as (l1 & d1 & ->).
        by eexists _, _.
Qed.

(** X12.  [process_old_entries] returns whenever the last node of the live
    list is not stale, and on the empty list. *)
Theorem process_old_entries_returns_unless_last_stale (table : list userinfo)
  (passwd master : list node) (d : Z) :
  match last passwd with
  | Some z => stale table master z = false
  | None => True
  end →
  ∃ l d', process_old_entries table passwd master d = Ret (l, d').
Proof.
  destruct (last passwd) as [z|] eqn:Hlast; intros Hz.
  - by apply (process_old_entries_returns_last_len table (length passwd) _ _ _ z).
  - apply last_None in Hlast. subst. by eexists _, _.
Qed.

(** ** Changing the entries *)

Lemma group_ok_in_range g gr :
  group_ok g = true → n_d g = t_group gr → outside_range g = false →
  starts_with_plus (n_name g) = false ∧ n_id g = gr_gid gr.
Proof.
  unfold group_ok, outside_range. intros Hok Hd Hr. rewrite Hd in Hok.
  apply bool_decide_eq_true in Hok.
  destruct (starts_with_plus (n_name g)); [|done].
  rewrite Hok in Hr. vm_compute in Hr. discriminate.
Qed.

Lemma group_ok_group g : group_ok g = true → ∃ gr, n_d g = t_group gr.
Proof. unfold group_ok. destruct (n_d g); try discriminate. eauto. Qed.

Lemma changed_group_spec g master d :
  group_ok g = true → forallb group_ok master = true →
  ∃ g', changed_group g master d = Ret (g', d + pending_group master g)
    ∧ ∀ mc, outside_range g = false → find_by_named_entry master g = Some mc →
        ∃ gr mgr, n_d g = t_group gr ∧ n_d mc = t_group mgr
                  ∧ g' = synced_group g gr mc mgr.
Proof.
  intros Hg Hm. unfold pending_group.
  destruct (outside_range g) eqn:Hr.
  - exists g. split; [|done]. rewrite changed_group_outside by done.
    f_equal. f_equal. lia.
  - unfold changed_group. unfold outside_range in Hr. rewrite Hr, orb_false_r.
    replace (n_id g <? 0)%N with false by (symmetry; apply N.ltb_ge; lia).
    destruct (find_by_named_entry master g) as [mc|] eqn:Hfind.
    + destruct (find_by_named_entry_Some _ _ _ Hfind) as [Hin Hname].
      assert (group_ok mc = true) as Hmc.
      { rewrite forallb_forall in Hm. by apply Hm. }
      destruct (group_ok_group _ Hg) as [gr Hgr].
      destruct (group_ok_group _ Hmc) as [mgr Hmgr].
      destruct (group_ok_in_range _ _ Hg Hgr Hr) as [Hplus Hid].
      assert (n_id mc = gr_gid mgr) as Hmid.
      { unfold group_ok in Hmc. rewrite Hmgr, Hname, Hplus in Hmc.
        by apply bool_decide_eq_true in Hmc. }
      exists (synced_group g gr mc mgr). split.
      * unfold differs, synced_group. rewrite Hgr, Hmgr.
        destruct (n_id g =? n_id mc)%N eqn:E; simpl.
        -- apply N.eqb_eq in E. rewrite bool_decide_eq_true_2 by done.
           f_equal. f_equal; [|lia].
           destruct g as [gd gname gid]. simpl in *. subst gd.
           destruct gr as [a b c e]. simpl in *. f_equal; [|done].
           f_equal. f_equal. congruence.
        -- apply N.eqb_neq in E. by rewrite bool_decide_eq_false_2.
      * intros mc' _ [= <-]. by exists gr, mgr.
    + exists g. split; [|done]. f_equal. f_equal. lia.
Qed.

(** X13.  When the live list and the master list hold group nodes as
    [read_group] and [copy_node] make them, [process_changed_groups]
    returns; every live node of the reserved range that has a master copy
    ends up with the master's id and gid, its name, password and members as
    they were; and the dirty counter has grown by the number of those nodes
    whose id differed from the master's. *)
Theorem process_changed_groups_syncs (group master : list node) (d : Z) :
  forallb group_ok group = true →
  forallb group_ok master = true →
  ∃ l, process_changed_groups group master d
       = Ret (l, d + pending_group_changes master group)
    ∧ ∀ i g mc, group !! i = Some g → outside_range g = false →
        find_by_named_entry master g = Some mc →
        ∃ gr mgr, n_d g = t_group gr ∧ n_d mc = t_group mgr
                  ∧ l !! i = Some (synced_group g gr mc mgr).
Proof.
  intros Hg Hm. revert d. induction group as [|g next IH]; intros d.
  - exists []. split; [simpl; f_equal; f_equal; lia | done].
  - simpl in Hg. apply andb_true_iff in Hg as [Hg Hnext].
    destruct (changed_group_spec g master d Hg Hm) as [g' [Hg' Hsync]].
    destruct (IH Hnext (d + pending_group master g)) as [l [Hl Hall]].
    exists (g' :: l). split.
    + simpl. rewrite Hg'. simpl. rewrite Hl. simpl. f_equal. f_equal. lia.
    + intros [|i] q mc Hq Hr Hfind; simpl in Hq.
      * inversion Hq; subst q.
        destruct (Hsync mc Hr Hfind) as (gr & mgr & H1 & H2 & H3).
        exists gr, mgr. by rewrite H3.
      * by apply (Hall i q mc).
Qed.

Lemma same_identity_refl p : same_identity p p.
Proof. split; [done|]. by destruct (n_d p). Qed.

Lemma sync_field_bound keep cur mc d r d' :
  sync_field keep cur mc d = Ret (r, d') → d <= d' <= d + 1.
Proof.
  unfold sync_field. destruct keep; [intros [= <- <-]; lia|].
  destruct cur; [|intros [= <- <-]; lia].
  destruct mc; [|done]. destruct (String.eqb _ _); intros [= <- <-]; lia.
Qed.

Lemma changed_account_identity table p master d p' d' :
  changed_account table p master d = Ret (p', d') →
  same_identity p p' ∧ d <= d' <= d + 5.
Proof.
  unfold changed_account.
  destruct ((n_id p <? 0)%N || (99 <? n_id p)%N).
  { intros [= <- <-]. split; [apply same_identity_refl | lia]. }
  destruct (find_by_named_entry master p) as [mc|].
  2:{ intros [= <- <-]. split; [apply same_identity_refl | lia]. }
  destruct (n_d p) as [pw| |] eqn:Hp; try done.
  destruct (n_d mc) as [mpw| |]; try done.
  set (a := if negb (n_id p =? n_id mc)%N then _ else _).
  assert (∃ id uid da, a = (id, uid, da) ∧ d <= da <= d + 1) as (id & uid & da & -> & Hda).
  { subst a. destruct (negb (n_id p =? n_id mc)%N); eexists _, _, _; (split; [done | lia]). }
  set (b := if negb (pw_gid pw =? pw_gid mpw)%N then _ else _).
  assert (∃ gid db, b = (gid, db) ∧ da <= db <= da + 1) as (gid & db & -> & Hdb).
  { subst b. destruct (negb (pw_gid pw =? pw_gid mpw)%N); eexists _, _; (split; [done | lia]). }
  intros H.
  apply bind_Ret in H as [[g1 d1] [H1 H]]. apply bind_Ret in H as [[g2 d2] [H2 H]].
  apply bind_Ret in H as [[g3 d3] [H3 H]]. inversion H; subst.
  apply sync_field_bound in H1, H2, H3.
  split; [|lia]. split; [done|]. rewrite Hp. simpl. done.
Qed.

Lemma changed_group_identity g master d g' d' :
  changed_group g master d = Ret (g', d') →
  same_identity g g' ∧ d <= d' <= d + 1.
Proof.
  unfold changed_group.
  destruct ((n_id g <? 0)%N || (99 <? n_id g)%N).
  { intros [= <- <-]. split; [apply same_identity_refl | lia]. }
  destruct (find_by_named_entry master g) as [mc|].
  2:{ intros [= <- <-]. split; [apply same_identity_refl | lia]. }
  destruct (negb (n_id g =? n_id mc)%N).
  2:{ intros [= <- <-]. split; [apply same_identity_refl | lia]. }
  destruct (n_d g) as [| |gr] eqn:Hg; try done.
  destruct (n_d mc) as [| |mgr]; try done.
  intros [= <- <-]. split; [|lia]. split; [done|]. rewrite Hg. simpl. done.
Qed.

Lemma process_changed_accounts_identity table master : ∀ live d l d',
  process_changed_accounts table live master d = Ret (l, d') →
  Forall2 same_identity live l ∧ d <= d' <= d + 5 * Z.of_nat (length live).
Proof.
  induction live as [|p next IH]; intros d l d' H; simpl in H.
  - inversion H; subst. split; [constructor | simpl; lia].
  - apply bind_Ret in H as [[p' d1] [Hp H]].
    apply bind_Ret in H as [[l1 d2] [Hl H]]. inversion H; subst.
    apply changed_account_identity in Hp as [Hid Hd].
    destruct (IH _ _ _ Hl) as [HF Hd']. split; [by constructor|].
    simpl length. lia.
Qed.

Lemma process_changed_groups_identity master : ∀ live d l d',
  process_changed_groups live master d = Ret (l, d') →
  Forall2 same_identity live l ∧ d <= d' <= d + Z.of_nat (length live).
Proof.
  induction live as [|p next IH]; intros d l d' H; simpl in H.
  - inversion H; subst. split; [constructor | simpl; lia].
  - apply bind_Ret in H as [[p' d1] [Hp H]].
    apply bind_Ret in H as [[l1 d2] [Hl H]]. inversion H; subst.
    apply changed_group_identity in Hp as [Hid Hd].
    destruct (IH _ _ _ Hl) as [HF Hd']. split; [by constructor|].
    simpl length. lia.
Qed.

(** X14.  What [process_changed_accounts] and [process_changed_groups]
    never do: whenever they return, the result has the nodes of the live
    list in the same number and order, each with its name, its password
    field, its kind of record and (for a group) its members as before; and
    the dirty counter has grown by at most 5 for each account and 1 for each
    group. *)
Theorem process_changed_keeps_identity (table : list userinfo)
  (live master l : list node) (d d' : Z) :
  (process_changed_accounts table live master d = Ret (l, d') →
   Forall2 same_identity live l ∧ d <= d' <= d + 5 * Z.of_nat (length live))
  ∧ (process_changed_groups live master d = Ret (l, d') →
     Forall2 same_identity live l ∧ d <= d' <= d + Z.of_nat (length live)).
Proof.
  split.
  - apply process_changed_accounts_identity.
  - apply process_changed_groups_identity.
Qed.

Lemma find_by_named_entry_same_name head a b :
  n_name a = n_name b → find_by_named_entry head a = find_by_named_entry head b.
Proof. intros H. rewrite !find_by_named_entry_by_name. by rewrite H. Qed.

Lemma sync_field_settled keep cur mc d :
  (keep = false → ∃ s, cur = Some s ∧ mc = Some s) →
  sync_field keep cur mc d = Ret (cur, d).
Proof.
  unfold sync_field. destruct keep; [done|]. intros H.
  destruct (H eq_refl) as (s & -> & ->). by rewrite String.eqb_refl.
Qed.

Lemma changed_account_stable table p master d p' d' :
  account_ok p = true → forallb master_ok master = true →
  changed_account table p master d = Ret (p', d') →
  ∀ d0, changed_account table p' master d0 = Ret (p', d0).
Proof.
  intros Hp Hm H d0.
  destruct (changed_account_spec table p master d Hp Hm) as [q [Hq Hsync]].
  rewrite Hq in H. inversion H; subst q. clear H.
  destruct (outside_range p) eqn:Hr.
  { rewrite changed_account_outside in Hq by done. inversion Hq; subst.
    by apply changed_account_outside. }
  destruct (find_by_named_entry master p) as [mc|] eqn:Hfind.
  2:{ assert (p' = p) as ->.
      { unfold changed_account in Hq. unfold outside_range in Hr.
        rewrite Hr, orb_false_r in Hq.
        replace (n_id p <? 0)%N with false in Hq by (symmetry; apply N.ltb_ge; lia).
        rewrite Hfind in Hq. by inversion Hq. }
      unfold changed_account. unfold outside_range in Hr. rewrite Hr, orb_false_r.
      replace (n_id p <? 0)%N with false by (symmetry; apply N.ltb_ge; lia).
      by rewrite Hfind. }
  destruct (Hsync mc eq_refl eq_refl) as (pw & mpw & Hpw & Hmpw & ->).
  destruct (outside_range (synced_account table p pw mc mpw)) eqn:Hr'.
  { by apply changed_account_outside. }
  destruct (find_by_named_entry_Some _ _ _ Hfind) as [Hin _].
  assert (master_ok mc = true) as Hmc by (rewrite forallb_forall in Hm; by apply Hm).
  unfold master_ok in Hmc. apply andb_true_iff in Hmc as [_ Hstr]. rewrite Hmpw in Hstr.
  apply andb_true_iff in Hstr as [Hstr Hsh]. apply andb_true_iff in Hstr as [Hge Hdi].
  apply bool_decide_eq_true in Hge as [ge Hge].
  apply bool_decide_eq_true in Hdi as [di Hdi].
  apply bool_decide_eq_true in Hsh as [sh Hsh].
  unfold changed_account.
  rewrite (find_by_named_entry_same_name master (synced_account table p pw mc mpw) p)
    by done.
  rewrite Hfind. unfold outside_range in Hr'. rewrite Hr', orb_false_r.
  replace (n_id (synced_account table p pw mc mpw) <? 0)%N with false
    by (symmetry; apply N.ltb_ge; lia).
  rewrite Hmpw. cbn [synced_account n_d n_id n_name pw_gid pw_uid pw_gecos pw_dir
                     pw_shell pw_name pw_passwd].
  rewrite !N.eqb_refl. cbn [negb].
  rewrite sync_field_settled; cbn [mbind outcome_bind].
  2:{ intros ->. exists ge. by rewrite Hge. }
  rewrite sync_field_settled; cbn [mbind outcome_bind].
  2:{ intros ->. exists di. by rewrite Hdi. }
  rewrite sync_field_settled; cbn [mbind outcome_bind].
  2:{ intros ->. exists sh. by rewrite Hsh. }
  done.
Qed.

(** X15.  Changing the accounts a second time changes nothing: when the
    live list and the master list hold account nodes as [read_passwd] and
    [copy_node] make them and the master's description, home and shell are
    present, [process_changed_accounts] run on its own result returns that
    result and leaves the dirty counter as it is. *)
Theorem process_changed_accounts_settles (table : list userinfo)
  (passwd master l : list node) (d d' d0 : Z) :
  forallb account_ok passwd = true →
  forallb master_ok master = true →
  process_changed_accounts table passwd master d = Ret (l, d') →
  process_changed_accounts table l master d0 = Ret (l, d0).
Proof.
  intros Hp Hm. revert l d d' d0.
  induction passwd as [|p next IH]; intros l d d' d0 H; simpl in H.
  - by inversion H; subst.
  - simpl in Hp. apply andb_true_iff in Hp as [Hp Hnext].
    apply bind_Ret in H as [[p' d1] [Hp' H]].
    apply bind_Ret in H as [[l1 d2] [Hl H]]. inversion H; subst.
    simpl. rewrite (changed_account_stable _ _ _ _ _ _ Hp Hm Hp'). simpl.
    by rewrite (IH Hnext _ _ _ d0 Hl).
Qed.

(** ** A live list that is the master list *)

Lemma has_name_all (l : list node) (sub : list node) :
  (∀ x, In x sub → In x l) → forallb (has_name l) sub = true.
Proof.
  intros H. apply forallb_forall. intros x Hx. eapply has_name_In; [by apply H | done].
Qed.

Lemma distinct_names_find l : distinct_names l = true →
  ∀ p, In p l → find_by_named_entry l p = Some p.
Proof.
  induction l as [|h l' IH]; intros Hd p Hin; [done|].
  simpl in Hd. apply andb_true_iff in Hd as [Hh Hd]. apply negb_true_iff in Hh.
  simpl. destruct Hin as [->|Hin].
  - by rewrite String.eqb_refl.
  - destruct (String.eqb (n_name p) (n_name h)) eqn:E.
    + apply String.eqb_eq in E.
      by rewrite (has_name_In l' h p Hin E) in Hh.
    + by apply IH.
Qed.

Lemma stale_apart_none table master l :
  (∀ x, In x l → stale table master x = false) →
  stale_apart table master l = true
  ∧ List.filter (fun x => negb (stale table master x)) l = l
  ∧ List.filter (stale table master) l = [].
Proof.
  induction l as [|p l' IH]; intros H; [done|].
  assert (stale table master p = false) as Hp by (apply H; by left).
  destruct IH as (H1 & H2 & H3); [intros x Hx; apply H; by right|].
  simpl. rewrite Hp. simpl. by rewrite H1, H2, H3.
Qed.

Lemma synced_account_self table p pw :
  n_d p = t_passwd pw → synced_account table p pw p pw = p.
Proof.
  intros H. unfold synced_account. destruct p as [pd pname pid]. simpl in *. subst.
  destruct pw. simpl.
  by destruct (keepgecos table pid), (keephome table pid), (keepshell table pid).
Qed.

Lemma pending_account_self table master p :
  find_by_named_entry master p = Some p → pending_account table master p = 0.
Proof.
  intros H. unfold pending_account. rewrite H.
  destruct (outside_range p); [done|]. destruct (n_d p); try done.
  unfold differs. rewrite !bool_decide_eq_true_2 by done.
  by destruct (keepgecos table (n_id p)), (keephome table (n_id p)),
    (keepshell table (n_id p)).
Qed.

Lemma process_changed_accounts_self table master : ∀ l d,
  forallb account_ok l = true → forallb master_ok master = true →
  (∀ p, In p l → find_by_named_entry master p = Some p) →
  process_changed_accounts table l master d = Ret (l, d).
Proof.
  induction l as [|p next IH]; intros d Hl Hm Hfind; [done|].
  simpl in Hl. apply andb_true_iff in Hl as [Hp Hnext].
  assert (find_by_named_entry master p = Some p) as Hfp by (apply Hfind; by left).
  destruct (changed_account_spec table p master d Hp Hm) as [p' [Hp' Hsync]].
  assert (p' = p) as ->.
  { destruct (outside_range p) eqn:Hr.
    - rewrite changed_account_outside in Hp' by done. by inversion Hp'.
    - destruct (Hsync p eq_refl Hfp) as (pw & mpw & H1 & H2 & ->).
      rewrite H1 in H2. inversion H2; subst. by apply synced_account_self. }
  rewrite pending_account_self in Hp' by done.
  simpl. rewrite Hp'. simpl.
  rewrite IH; [simpl; f_equal; f_equal; lia | done | done |].
  intros q Hq. apply Hfind. by right.
Qed.

(** X16.  A live account list that is the master list needs no change: when
    the master list holds account nodes with their description, home and
    shell present and no name twice, the three loops of [main], run with the
    master list as the live list, return the list and the dirty counter as
    they are. *)
Theorem reconcile_accounts_of_master (table : list userinfo) (master : list node)
  (d : Z) :
  forallb master_ok master = true →
  distinct_names master = true →
  reconcile_accounts table master master d = Ret (master, d).
Proof.
  intros Hm Hd. unfold reconcile_accounts.
  rewrite process_new_entries_noop by (by apply has_name_all).
  cbn [mbind outcome_bind].
  assert (∀ x, In x master → stale table master x = false) as Hns.
  { intros x Hx. unfold stale. rewrite (distinct_names_find _ Hd x Hx).
    by rewrite andb_false_r. }
  destruct (stale_apart_none table master master Hns) as (H1 & H2 & H3).
  rewrite (process_old_entries_apart_len table (length master)) by done.
  rewrite H2, H3. cbn [mbind outcome_bind].
  replace (d + Z.of_nat (length (@nil node))) with d by (simpl; lia).
  apply process_changed_accounts_self; [|done|by apply distinct_names_find].
  apply forallb_forall. intros x Hx. rewrite forallb_forall in Hm.
  specialize (Hm x Hx). unfold master_ok in Hm. by apply andb_true_iff in Hm as [? _].
Qed.

(** ** Reading a file *)

Lemma add_node_append l x :
  Forall (fun q => (n_id q <= n_id x)%N) l → add_node l x = l ++ [x].
Proof.
  destruct l as [|h rest]; [done|]. intros HF.
  apply Forall_cons_1 in HF as [Hh HF]. unfold add_node.
  replace (n_id x <? n_id h)%N with false by (symmetry; apply N.ltb_ge; lia).
  revert h Hh. induction rest as [|r rest IH]; intros h Hh; [done|].
  apply Forall_cons_1 in HF as [Hr HF]. cbn [add_node_walk].
  replace (n_id r <=? n_id x)%N with true by (symmetry; apply N.leb_le; lia).
  simpl. f_equal. by apply IH.
Qed.

Lemma ordered_before before x after :
  ordered (before ++ x :: after) = true →
  Forall (fun q => (n_id q <= n_id x)%N) before.
Proof.
  induction before as [|b before IH]; intros H; [constructor|].
  apply List.Forall_cons.
  - change ((b :: before) ++ x :: after) with (b :: (before ++ x :: after)) in H.
    apply ordered_head_le in H. rewrite Forall_forall in H. apply H.
    apply list_elem_of_In, in_app_iff. right. by left.
  - apply IH. by eapply ordered_cons.
Qed.

(** Reading back an ordered list: every node goes to the end. *)
Lemma fold_add_node_ordered nodes : ∀ head,
  ordered (head ++ nodes) = true →
  fold_left add_node nodes head = head ++ nodes.
Proof.
  induction nodes as [|x nodes IH]; intros head H; simpl.
  - by rewrite app_nil_r.
  - rewrite add_node_append by (by eapply ordered_before).
    rewrite IH; rewrite <- app_assoc; done.
Qed.

Lemma fold_add_node_ok (P : node → Prop) nodes : ∀ head,
  Forall P head → Forall P nodes → Forall P (fold_left add_node nodes head).
Proof.
  induction nodes as [|x nodes IH]; intros head Hh Hn; [done|].
  apply Forall_cons_1 in Hn as [Hx Hn]. simpl. apply IH; [|done].
  by apply add_node_Forall.
Qed.

Lemma fold_add_node_ordered_result nodes : ∀ head,
  ordered head = true → ordered (fold_left add_node nodes head) = true.
Proof.
  induction nodes as [|x nodes IH]; intros head H; [done|].
  simpl. apply IH. by apply add_node_ordered.
Qed.

Lemma add_node_perm h rest x :
  (n_id h <= n_id x)%N → add_node (h :: rest) x ≡ₚ h :: rest ++ [x].
Proof.
  intros Hle. unfold add_node.
  replace (n_id x <? n_id h)%N with false by (symmetry; apply N.ltb_ge; lia).
  destruct (add_node_walk_split rest h x Hle) as (b & a & H1 & H2 & _).
  rewrite H2. change (h :: rest ++ [x]) with ((h :: rest) ++ [x]). rewrite H1.
  rewrite <- app_assoc. apply Permutation_app_head.
  change (x :: a) with ([x] ++ a). apply Permutation_app_comm.
Qed.

Lemma fold_add_node_perm h nodes : ∀ rest,
  Forall (fun x => (n_id h <= n_id x)%N) nodes →
  ∃ rest', fold_left add_node nodes (h :: rest) = h :: rest'
           ∧ h :: rest' ≡ₚ h :: rest ++ nodes.
Proof.
  induction nodes as [|x nodes IH]; intros rest HF; cbn [fold_left].
  - exists rest. by rewrite app_nil_r.
  - apply Forall_cons_1 in HF as [Hx HF].
    destruct (add_node_no_drop h rest x Hx) as ([r1 Hr1] & _ & _).
    pose proof (add_node_perm h rest x Hx) as Hperm. rewrite Hr1 in Hperm |- *.
    destruct (IH r1 HF) as (rest' & Hfold & Hp). exists rest'. split; [done|].
    rewrite Hp. apply Permutation_cons_inv in Hperm.
    rewrite Hperm. by rewrite <- app_assoc.
Qed.

Lemma fault_calm w : w_faults w = [] → fault w = (Ret None, w).
Proof. unfold fault. by intros ->. Qed.

Lemma read_loop_calm {A} (mk : A → node) input : ∀ head w,
  w_faults w = [] →
  read_loop mk head input w
  = (Ret (fold_left add_node (map mk input) head), with_errno ENOENT w).
Proof.
  induction input as [|r input IH]; intros head w Hw.
  - simpl. unfold mbind, io_bind. rewrite fault_calm by done. done.
  - cbn [read_loop]. unfold mbind at 1, io_bind at 1. rewrite fault_calm by done.
    by rewrite IH.
Qed.

Lemma fopen_r_calm path x w :
  w_faults w = [] → w_fs w !! path = Some x →
  fopen_r path w = (Ret (Some (f_lines x)), w).
Proof.
  intros Hw Hx. unfold fopen_r, mbind, io_bind. rewrite fault_calm by done.
  unfold get_fs. by rewrite Hx.
Qed.

Lemma fclose_calm w : w_faults w = [] → fclose w = (Ret true, w).
Proof. intros Hw. unfold fclose, mbind, io_bind. by rewrite fault_calm. Qed.

Lemma read_file_calm {A} (mk : A → node) (sel : entry → option A) head path x w :
  w_faults w = [] → w_fs w !! path = Some x →
  (input ← fopen_r path;
   match input with
   | None => mret (1, head)
   | Some lines =>
       head' ← read_loop mk head (omap sel lines);
       e ← get_errno;
       if bool_decide (e ≠ Some ENOENT) then mret (2, head')
       else _ ← fclose; mret (0, head')
   end) w
  = (Ret (0, fold_left add_node (map mk (omap sel (f_lines x))) head),
     with_errno ENOENT w).
Proof.
  intros Hw Hx. unfold mbind at 1, io_bind at 1. rewrite (fopen_r_calm _ x) by done.
  unfold mbind at 1, io_bind at 1. rewrite read_loop_calm by done.
  unfold mbind, io_bind, get_errno. cbn.
  rewrite bool_decide_eq_false_2 by (intros H; by apply H).
  by rewrite fclose_calm.
Qed.


Lemma from_lines_Forall {A} (mk : A → node) (sel : entry → option A) lines :
  Forall (fun n => ∃ r e, n = mk r ∧ sel e = Some r ∧ In e lines)
         (map mk (omap sel lines)).
Proof.
  apply Forall_forall. intros n Hn.
  apply list_elem_of_fmap in Hn as (r & -> & Hr).
  apply list_elem_of_omap in Hr as (e & He & Hsel).
  exists r, e. split; [done|]. split; [done|]. by apply list_elem_of_In.
Qed.

Lemma read_list_props nodes :
  ordered (fold_left add_node nodes []) = true
  ∧ (head_is_least nodes = true → fold_left add_node nodes [] ≡ₚ nodes).
Proof.
  split; [by apply fold_add_node_ordered_result|].
  destruct nodes as [|n1 ns]; [done|]. intros H. simpl in H.
  apply andb_true_iff in H as [_ H]. simpl.
  destruct (fold_add_node_perm n1 ns []) as (rest' & -> & Hp); [|done].
  apply Forall_forall. intros y Hy. rewrite forallb_forall in H.
  apply N.leb_le. apply H. by apply list_elem_of_In.
Qed.

(** X17.  [read_passwd] and [read_group] when no call fails and the file
    exists: they return 0.  The list built from an empty one is ordered; each
    of its nodes is made of an account (group) line of the file, with the uid
    (gid) as its id, or [INT_MAX] when the name begins with [+]; and when
    the first such line has the least id of all, no line is lost: the list
    holds the nodes of all of them. *)
Theorem read_builds_ordered_list (path : string) (x : file) (w : world) :
  w_faults w = [] →
  w_fs w !! path = Some x →
  (∃ l, read_passwd [] path w = (Ret (0, l), with_errno ENOENT w)
        ∧ ordered l = true
        ∧ Forall (fun n => ∃ pw, n = passwd_node pw ∧ In (t_passwd pw) (f_lines x)) l
        ∧ (head_is_least (map passwd_node (omap as_passwd (f_lines x))) = true →
           l ≡ₚ map passwd_node (omap as_passwd (f_lines x))))
  ∧ (∃ l, read_group [] path w = (Ret (0, l), with_errno ENOENT w)
          ∧ ordered l = true
          ∧ Forall (fun n => ∃ gr, n = group_node gr ∧ In (t_group gr) (f_lines x)) l
          ∧ (head_is_least (map group_node (omap as_group (f_lines x))) = true →
             l ≡ₚ map group_node (omap as_group (f_lines x)))).
Proof.
  intros Hw Hx. split.
  - eexists. split; [by apply read_file_calm|].
    destruct (read_list_props (map passwd_node (omap as_passwd (f_lines x)))) as [Ho Hp].
    split; [done|]. split; [|done].
    apply fold_add_node_ok; [constructor|].
    eapply Forall_impl; [apply from_lines_Forall|].
    intros n (pw & e & -> & Hsel & Hin). exists pw. split; [done|].
    destruct e; simpl in Hsel; try done. by inversion Hsel; subst.
  - eexists. split; [by apply read_file_calm|].
    destruct (read_list_props (map group_node (omap as_group (f_lines x)))) as [Ho Hp].
    split; [done|]. split; [|done].
    apply fold_add_node_ok; [constructor|].
    eapply Forall_impl; [apply from_lines_Forall|].
    intros n (gr & e & -> & Hsel & Hin). exists gr. split; [done|].
    destruct e; simpl in Hsel; try done. by inversion Hsel; subst.
Qed.

Lemma ordered_same_id (l : list node) (i : N) :
  Forall (fun n => n_id n = i) l → ordered l = true.
Proof.
  induction l as [|a l IH]; intros HF; [done|].
  apply Forall_cons_1 in HF as [Ha HF]. destruct l as [|b l]; [done|].
  change (ordered (a :: b :: l)) with ((n_id a <=? n_id b)%N && ordered (b :: l)).
  rewrite IH by done. pose proof HF as HF'. apply Forall_cons_1 in HF' as [Hb _].
  rewrite Ha, Hb. by rewrite N.leb_refl.
Qed.

(** X18.  [read_shadow] when no call fails and the file exists: it returns
    0 and the list built from an empty one has the shadow lines of the file
    in file order (every node gets the id 0, so each goes to the end). *)
Theorem read_shadow_keeps_file_order (path : string) (x : file) (w : world) :
  w_faults w = [] →
  w_fs w !! path = Some x →
  read_shadow [] path w
  = (Ret (0, map shadow_node (omap as_shadow (f_lines x))), with_errno ENOENT w).
Proof.
  intros Hw Hx. unfold read_shadow. rewrite (read_file_calm _ _ _ _ x) by done.
  rewrite (fold_add_node_ordered _ []); [done|]. simpl.
  apply (ordered_same_id _ 0%N). apply Forall_forall. intros n Hn.
  by apply list_elem_of_fmap in Hn as (sp & -> & _).
Qed.

(** ** Writing a file *)

Lemma fopen_w_calm path w :
  w_faults w = [] →
  fopen_w path w = (Ret true, with_fs (<[path := opened path w]> (w_fs w)) w).
Proof.
  intros Hw. unfold fopen_w, mbind at 1, io_bind at 1. rewrite fault_calm by done.
  unfold opened, mbind, io_bind, get_fs, put_fs, mret, io_ret.
  by destruct (w_fs w !! path).
Qed.

Lemma putent_calm path e x w :
  w_faults w = [] → w_fs w !! path = Some x →
  putent path e w
  = (Ret true, with_fs (<[path := with_lines x (f_lines x ++ [e])]> (w_fs w)) w).
Proof.
  intros Hw Hx. unfold putent, mbind at 1, io_bind at 1. rewrite fault_calm by done.
  unfold mbind, io_bind, get_fs, put_fs, mret, io_ret. by rewrite Hx.
Qed.

Lemma write_passwd_loop_calm path l : ∀ x w,
  w_faults w = [] → w_fs w !! path = Some x →
  forallb is_account l = true →
  ∃ w', write_passwd_loop l path w = (Ret true, w')
        ∧ w_faults w' = []
        ∧ w_fs w' !! path = Some (with_lines x (f_lines x ++ map n_d l))
        ∧ (∀ p, p ≠ path → w_fs w' !! p = w_fs w !! p).
Proof.
  induction l as [|n l IH]; intros x w Hw Hx Hl.
  - exists w. simpl. rewrite app_nil_r. split; [done|]. split; [done|].
    split; [|done]. rewrite Hx. by destruct x.
  - simpl in Hl. apply andb_true_iff in Hl as [Hn Hl].
    unfold is_account in Hn. cbn [write_passwd_loop].
    destruct (n_d n) as [pw| |] eqn:Hd; try done.
    unfold mbind, io_bind. rewrite (putent_calm _ _ x) by done. cbn [negb].
    set (w1 := with_fs _ w).
    destruct (IH (with_lines x (f_lines x ++ [t_passwd pw])) w1) as (w' & Hrun & Hf & Hp & Ho).
    { done. } { apply lookup_insert_eq. } { done. }
    exists w'. split; [done|]. split; [done|]. split.
    + rewrite Hp. cbn [map]. rewrite Hd. unfold with_lines. simpl.
      by rewrite <- app_assoc.
    + intros p Hne. rewrite Ho by done. unfold w1. simpl.
      by rewrite lookup_insert_ne.
Qed.

Lemma write_passwd_loop_abort path l : ∀ x w,
  w_faults w = [] → w_fs w !! path = Some x →
  forallb is_account l = false →
  (write_passwd_loop l path w).1 = Abort.
Proof.
  induction l as [|n l IH]; intros x w Hw Hx Hl; [done|].
  simpl in Hl. cbn [write_passwd_loop]. unfold is_account in Hl.
  destruct (n_d n) as [pw| |] eqn:Hd; try done.
  simpl in Hl. unfold mbind, io_bind. rewrite (putent_calm _ _ x) by done. cbn [negb].
  eapply IH; [done | apply lookup_insert_eq | done].
Qed.

Lemma write_passwd_calm (l : list node) (path : string) (w : world) :
  w_faults w = [] → forallb is_account l = true →
  ∃ w', write_passwd l path w = (Ret true, w')
        ∧ w_fs w' !! path = Some (with_lines (opened path w) (map n_d l))
        ∧ (∀ p, p ≠ path → w_fs w' !! p = w_fs w !! p)
        ∧ w_faults w' = [].
Proof.
  intros Hw Hl.
  set (w0 := with_fs (<[path := opened path w]> (w_fs w)) w).
  assert (w_fs w0 !! path = Some (opened path w)) as H0 by apply lookup_insert_eq.
  assert (w_faults w0 = []) as Hw0 by exact Hw.
  unfold write_passwd, mbind, io_bind.
  rewrite fopen_w_calm by done. cbn [negb]. fold w0.
  destruct (write_passwd_loop_calm path l (opened path w) w0 Hw0 H0 Hl)
    as (w' & Hrun & Hf & Hp & Ho).
  exists w'. rewrite Hrun. cbn [negb].
  rewrite fclose_calm by done. cbn. split; [done|]. split.
  - rewrite Hp. f_equal. unfold with_lines, opened.
    by destruct (w_fs w !! path).
  - split; [|done]. intros p Hne. rewrite Ho by done. unfold w0. simpl.
    by rewrite lookup_insert_ne.
Qed.

(** X19.  [write_passwd] when no call fails.  On a list of account nodes
    it returns 1 and leaves at the path a file that holds the records of the
    nodes, one line each, in list order; no other path is touched.  On a list
    with a node that is not an account node the [assert] fails. *)
Theorem write_passwd_writes_the_list (l : list node) (path : string) (w : world) :
  w_faults w = [] →
  (forallb is_account l = true →
   ∃ w', write_passwd l path w = (Ret true, w')
         ∧ w_fs w' !! path = Some (with_lines (opened path w) (map n_d l))
         ∧ (∀ p, p ≠ path → w_fs w' !! p = w_fs w !! p)
         ∧ w_faults w' = [])
  ∧ (forallb is_account l = false → (write_passwd l path w).1 = Abort).
Proof.
  intros Hw. split; intros Hl; [by apply write_passwd_calm|].
  set (w0 := with_fs (<[path := opened path w]> (w_fs w)) w).
  assert (w_fs w0 !! path = Some (opened path w)) as H0 by apply lookup_insert_eq.
  assert (w_faults w0 = []) as Hw0 by exact Hw.
  unfold write_passwd, mbind, io_bind.
  rewrite fopen_w_calm by done. cbn [negb]. fold w0.
  pose proof (write_passwd_loop_abort path l _ w0 Hw0 H0 Hl) as Ha.
  destruct (write_passwd_loop l path w0) as [r w1]. simpl in Ha. subst r.
  reflexivity.
Qed.


(** ** Replacing a file: the paths it touches, a missing destination, and the
    run without failures *)

Lemma untouched_quiet ps w w' : quiet w w' → untouched_outside ps w w'.
Proof. intros [Hfs _] p _. by rewrite Hfs. Qed.

Lemma untouched_trans ps w1 w2 w3 :
  untouched_outside ps w1 w2 → untouched_outside ps w2 w3 →
  untouched_outside ps w1 w3.
Proof. intros H1 H2 p Hp. by rewrite H2, H1. Qed.

Lemma untouched_rename ps source target w :
  In source ps → In target ps →
  ∃ b w', rename_file source target w = (Ret b, w') ∧ untouched_outside ps w w'.
Proof.
  intros Hs Ht.
  destruct (rename_file_cases source target w)
    as [(w' & -> & Hq & _) | (w' & x & -> & Hx & Hfs & _)].
  - exists false, w'. split; [done|]. by apply untouched_quiet.
  - exists true, w'. split; [done|]. intros p Hp. rewrite Hfs.
    rewrite lookup_insert_ne by (intros ->; done).
    by rewrite lookup_delete_ne by (intros ->; done).
Qed.

Lemma untouched_unlink ps path w :
  In path ps →
  ∃ b w', unlink_file path w = (Ret b, w') ∧ untouched_outside ps w w'.
Proof.
  intros Hp.
  destruct (unlink_file_cases path w) as [(w' & -> & Hq) | (w' & -> & Hfs & _)].
  - exists false, w'. split; [done|]. by apply untouched_quiet.
  - exists true, w'. split; [done|]. intros p Hn. rewrite Hfs.
    by rewrite lookup_delete_ne by (intros ->; done).
Qed.

Lemma untouched_copy_filemodes ps source target w :
  In target ps →
  ∃ b w', copy_filemodes source target w = (Ret b, w') ∧ untouched_outside ps w w'.
Proof.
  intros Ht. destruct (copy_filemodes_cases source target w) as (b & w' & -> & [[Ho _] _] & _).
  exists b, w'. split; [done|]. intros p Hp. apply Ho. by intros ->.
Qed.

(** X21.  The paths [put_file_in_place] touches: it always returns, and
    whatever fails, no path other than the staged file, the destination and
    the aside name of the destination is changed. *)
Theorem put_file_in_place_touches_three_paths (source target : string) (w : world) :
  ∃ b w', put_file_in_place source target w = (Ret b, w')
          ∧ ∀ p, p ≠ source → p ≠ target → p ≠ String.append target UNLINK_EXTENSION →
                 w_fs w' !! p = w_fs w !! p.
Proof.
  set (uf := String.append target UNLINK_EXTENSION).
  set (ps := [source; target; uf]).
  assert (∃ b w', put_file_in_place source target w = (Ret b, w')
                  ∧ untouched_outside ps w w') as (b & w' & Hrun & Hun).
  { unfold put_file_in_place. fold uf. unfold mbind at 1, io_bind at 1, sys_umask.
    set (w0 := with_umask 63 w).
    assert (untouched_outside ps w w0) as H0 by (by intros p _).
    unfold mbind, io_bind.
    destruct (untouched_rename ps target uf w0) as ([|] & w1 & -> & H1);
      [simpl; tauto | simpl; tauto | | ]; cbn.
    - destruct (untouched_rename ps source target w1) as ([|] & w2 & -> & H2);
        [simpl; tauto | simpl; tauto | | ]; cbn.
      + destruct (untouched_copy_filemodes ps uf target w2) as ([|] & w3 & -> & H3);
          [simpl; tauto | | ]; cbn.
        * destruct (untouched_unlink ps uf w3) as (b4 & w4 & -> & H4); [simpl; tauto|].
          exists b4, w4. split; [done|].
          repeat (eapply untouched_trans; [eassumption|]). done.
        * destruct (untouched_unlink ps uf w3) as (b4 & w4 & -> & H4); [simpl; tauto|].
          exists false, w4. split; [done|].
          repeat (eapply untouched_trans; [eassumption|]). done.
      + destruct (untouched_rename ps uf target w2) as (b3 & w3 & -> & H3);
          [simpl; tauto | simpl; tauto |]. cbn.
        exists false, w3. split; [done|].
        repeat (eapply untouched_trans; [eassumption|]). done.
    - destruct (untouched_unlink ps source w1) as (b2 & w2 & -> & H2); [simpl; tauto|].
      cbn. exists false, w2. split; [done|].
      repeat (eapply untouched_trans; [eassumption|]). done. }
  exists b, w'. split; [done|]. intros p H1 H2 H3. apply Hun. simpl. intros [?|[?|[?|[]]]]; done.
Qed.

(** X22.  [put_file_in_place] onto a destination that does not exist: the
    first rename fails, the staged file is unlinked (unless that fails too),
    the result is 0, and there is still no file at the destination. *)
Theorem put_file_in_place_missing_destination (source target : string) (w : world) :
  w_fs w !! target = None →
  ∃ w', put_file_in_place source target w = (Ret false, w')
        ∧ w_fs w' !! target = None
        ∧ (w_fs w' = w_fs w ∨ w_fs w' = delete source (w_fs w)).
Proof.
  intros Ht. unfold put_file_in_place. unfold mbind at 1, io_bind at 1, sys_umask.
  set (w0 := with_umask 63 w). unfold mbind, io_bind.
  destruct (rename_file_cases target (String.append target UNLINK_EXTENSION) w0)
    as [(w1 & -> & [Hfs1 _] & _) | (w1 & x & _ & Hx & _)]; cbn.
  2:{ change (w_fs w0) with (w_fs w) in Hx. by rewrite Ht in Hx. }
  change (w_fs w0) with (w_fs w) in Hfs1.
  destruct (unlink_file_cases source w1)
    as [(w2 & -> & [Hfs2 _]) | (w2 & -> & Hfs2 & _)]; cbn.
  - exists w2. split; [done|]. rewrite Hfs2, Hfs1. split; [done | by left].
  - exists w2. split; [done|]. rewrite Hfs2, Hfs1. split; [|by right].
    destruct (decide (source = target)) as [->|Hne].
    + apply lookup_delete_eq.
    + by rewrite lookup_delete_ne.
Qed.

Lemma rename_file_calm source target x w :
  w_faults w = [] → w_fs w !! source = Some x →
  rename_file source target w
  = (Ret true, with_fs (<[target := x]> (delete source (w_fs w))) w).
Proof.
  intros Hw Hx. unfold rename_file, sys_rename, mbind, io_bind.
  rewrite fault_calm by done. unfold get_fs, put_fs, mret, io_ret. by rewrite Hx.
Qed.

Lemma unlink_file_calm path x w :
  w_faults w = [] → w_fs w !! path = Some x →
  unlink_file path w = (Ret true, with_fs (delete path (w_fs w)) w).
Proof.
  intros Hw Hx. unfold unlink_file, sys_unlink, mbind, io_bind.
  rewrite fault_calm by done. unfold get_fs, put_fs, mret, io_ret. by rewrite Hx.
Qed.

Lemma copy_filemodes_calm source target st x w :
  w_faults w = [] → w_fs w !! source = Some st → w_fs w !! target = Some x →
  copy_filemodes source target w
  = (Ret true,
     with_fs (<[target := set_attrs x (f_mode st) (f_uid st) (f_gid st)]>
                (<[target := set_attrs x (f_mode st) (f_uid x) (f_gid x)]> (w_fs w)))
       (with_fs (<[target := set_attrs x (f_mode st) (f_uid x) (f_gid x)]> (w_fs w)) w)).
Proof.
  intros Hw Hst Hx.
  unfold copy_filemodes, sys_lstat, sys_chmod, sys_lchown, sys_chown, mbind, io_bind.
  rewrite fault_calm by done. unfold get_fs, put_fs, mret, io_ret. rewrite Hst.
  rewrite fault_calm by done. rewrite Hx. cbn.
  unfold fault. cbn. rewrite Hw. cbn. by rewrite lookup_insert_eq.
Qed.

Lemma put_file_in_place_calm (source target : string) (orig staged : file)
  (w : world) :
  w_faults w = [] →
  w_fs w !! target = Some orig →
  w_fs w !! source = Some staged →
  source ≠ target →
  source ≠ String.append target UNLINK_EXTENSION →
  ∃ w', put_file_in_place source target w = (Ret true, w')
        ∧ w_faults w' = []
        ∧ ∀ p, w_fs w' !! p =
               if decide (p = target)
               then Some (set_attrs staged (f_mode orig) (f_uid orig) (f_gid orig))
               else if decide (p = source ∨ p = String.append target UNLINK_EXTENSION)
                    then None
                    else w_fs w !! p.
Proof.
  intros Hw Ht Hs Hst Hsu.
  set (uf := String.append target UNLINK_EXTENSION) in *.
  assert (target ≠ uf) as Htu by (apply append_extension_ne; simpl; lia).
  unfold put_file_in_place. fold uf. unfold mbind at 1, io_bind at 1, sys_umask.
  set (w0 := with_umask 63 w). unfold mbind, io_bind.
  rewrite (rename_file_calm target uf orig w0) by done. cbn [negb].
  set (fs1 := <[uf := orig]> (delete target (w_fs w0))).
  set (w1 := with_fs fs1 w0).
  assert (fs1 !! source = Some staged) as H1s.
  { unfold fs1. rewrite lookup_insert_ne by done. by rewrite lookup_delete_ne. }
  rewrite (rename_file_calm source target staged w1) by done. cbn [negb].
  set (fs2 := <[target := staged]> (delete source (w_fs w1))).
  set (w2 := with_fs fs2 w1).
  assert (fs2 !! uf = Some orig) as H2u.
  { unfold fs2. rewrite lookup_insert_ne by done. rewrite lookup_delete_ne by done.
    apply lookup_insert_eq. }
  assert (fs2 !! target = Some staged) as H2t by apply lookup_insert_eq.
  rewrite (copy_filemodes_calm uf target orig staged w2) by done. cbn [negb].
  set (fs3 := <[target := _]> (<[target := _]> (w_fs w2))).
  set (w3 := with_fs fs3 _).
  assert (fs3 !! uf = Some orig) as H3u.
  { unfold fs3. by rewrite !lookup_insert_ne by done. }
  rewrite (unlink_file_calm uf orig w3) by done.
  eexists. split; [done|]. split; [done|].
  intros p. subst w3 fs3 w2 fs2 w1 fs1 w0. cbn [w_fs with_fs with_umask].
  destruct (decide (p = target)) as [->|Hpt].
  - rewrite lookup_delete_ne by done. apply lookup_insert_eq.
  - destruct (decide (p = source ∨ p = uf)) as [[->| ->]|Hno].
    + rewrite lookup_delete_ne by done.
      rewrite !lookup_insert_ne by done. apply lookup_delete_eq.
    + apply lookup_delete_eq.
    + assert (p ≠ source ∧ p ≠ uf) as [Hps Hpu] by tauto.
      rewrite lookup_delete_ne by done.
      rewrite !lookup_insert_ne by done. rewrite lookup_delete_ne by done.
      rewrite lookup_insert_ne by done. by rewrite lookup_delete_ne by done.
Qed.

(** X23.  [put_file_in_place] when no call fails: with a file at the
    destination and a staged file under another name, it returns 1; at the
    destination is the staged contents with the mode and owner the
    destination had; the staged file and the aside copy are gone; every other
    path is as it was. *)
Theorem put_file_in_place_succeeds (source target : string) (orig staged : file)
  (w : world) :
  w_faults w = [] →
  w_fs w !! target = Some orig →
  w_fs w !! source = Some staged →
  source ≠ target →
  source ≠ String.append target UNLINK_EXTENSION →
  ∃ w', put_file_in_place source target w = (Ret true, w')
        ∧ w_faults w' = []
        ∧ ∀ p, w_fs w' !! p =
               if decide (p = target)
               then Some (set_attrs staged (f_mode orig) (f_uid orig) (f_gid orig))
               else if decide (p = source ∨ p = String.append target UNLINK_EXTENSION)
                    then None
                    else w_fs w !! p.
Proof. apply put_file_in_place_calm. Qed.

(** ** [main] *)

Lemma quiet_refl w : quiet w w.
Proof. by split. Qed.

Lemma quiet_trans w1 w2 w3 : quiet w1 w2 → quiet w2 w3 → quiet w1 w3.
Proof. intros [? ?] [? ?]. split; congruence. Qed.

Lemma fopen_r_quiet path w :
  ∃ r w', fopen_r path w = (Ret r, w') ∧ quiet w w'.
Proof.
  io_unfold. destruct (w_faults w) as [|[e|] fl]; cbn;
    try destruct (w_fs w !! path); cbn; eexists _, _; (split; [reflexivity | by split]).
Qed.

Lemma read_loop_quiet {A} (mk : A → node) input : ∀ head w,
  ∃ l w', read_loop mk head input w = (Ret l, w') ∧ quiet w w'.
Proof.
  induction input as [|r input IH]; intros head w; cbn [read_loop]; io_unfold.
  - destruct (w_faults w) as [|[e|] fl]; cbn;
      eexists _, _; (split; [reflexivity | by split]).
  - destruct (w_faults w) as [|[e|] fl]; cbn.
    + apply IH.
    + eexists _, _; (split; [reflexivity | by split]).
    + destruct (IH (add_node head (mk r)) (with_faults fl w)) as (l & w' & -> & Hq).
      exists l, w'. split; [done|]. destruct Hq as [? ?]. by split.
Qed.

Lemma read_file_quiet {A} (mk : A → node) (sel : entry → option A) head path w :
  ∃ r l w',
    (input ← fopen_r path;
     match input with
     | None => mret (1, head)
     | Some lines =>
         head' ← read_loop mk head (omap sel lines);
         e ← get_errno;
         if bool_decide (e ≠ Some ENOENT) then mret (2, head')
         else _ ← fclose; mret (0, head')
     end) w = (Ret (r, l), w')
    ∧ quiet w w'.
Proof.
  unfold mbind at 1, io_bind at 1.
  destruct (fopen_r_quiet path w) as ([lines|] & w1 & -> & Hq1).
  - unfold mbind at 1, io_bind at 1.
    destruct (read_loop_quiet mk (omap sel lines) head w1) as (l & w2 & -> & Hq2).
    unfold mbind at 1, io_bind at 1, get_errno.
    destruct (bool_decide _).
    + eexists _, _, _. split; [reflexivity|]. by eapply quiet_trans.
    + unfold mbind, io_bind.
      destruct (fclose_cases w2) as (b & w3 & -> & Hq3).
      eexists _, _, _. split; [reflexivity|].
      eapply quiet_trans; [done|]. by eapply quiet_trans.
  - eexists _, _, _. split; [reflexivity|]. done.
Qed.

Lemma read_passwd_quiet head path w :
  ∃ r l w', read_passwd head path w = (Ret (r, l), w') ∧ quiet w w'.
Proof. apply (read_file_quiet passwd_node as_passwd). Qed.

Lemma read_group_quiet head path w :
  ∃ r l w', read_group head path w = (Ret (r, l), w') ∧ quiet w w'.
Proof. apply (read_file_quiet group_node as_group). Qed.

Lemma read_shadow_quiet head path w :
  ∃ r l w', read_shadow head path w = (Ret (r, l), w') ∧ quiet w w'.
Proof. apply (read_file_quiet shadow_node as_shadow). Qed.

Lemma lock_files_quiet w : ∃ b w', lock_files w = (Ret b, w') ∧ quiet w w'.
Proof.
  unfold lock_files. io_unfold. destruct (w_faults w) as [|[e|] fl]; cbn;
    eexists _, _; (split; [reflexivity | by split]).
Qed.

Lemma unlock_files_quiet w : ∃ b w', unlock_files w = (Ret b, w') ∧ quiet w w'.
Proof.
  unfold unlock_files. io_unfold. destruct (w_faults w) as [|[e|] fl]; cbn;
    eexists _, _; (split; [reflexivity | by split]).
Qed.

Lemma commit_files_idle o g w :
  flag_dirty g = 0 ∨ opt_dryrun o = true → commit_files o g w = (Ret true, w).
Proof.
  unfold commit_files. intros [->| ->]; [done|]. by destruct (flag_dirty g =? 0).
Qed.

(** X24.  When [main] changes a file.  Whatever the options, the files and
    the failures of the library calls: either the run changes nothing on
    disk, or it is neither a dry run nor a sanity check, and whenever it
    returns the counter of changes is not zero and the status is 0, 4 or 5
    (never 2, a read error, or 3, the lock not taken). *)
Theorem main_writes_only_when_dirty (table : list userinfo) (o : options) (w : world) :
  ∃ oc w', main table o w = (oc, w')
    ∧ (quiet w w'
       ∨ (opt_dryrun o = false ∧ opt_sanity o = false
          ∧ ∀ s g, oc = Ret (s, g) → flag_dirty g ≠ 0 ∧ (s = 0 ∨ s = 4 ∨ s = 5))).
Proof.
  unfold main.
  unfold mbind at 1, io_bind at 1.
  destruct (read_passwd_quiet [] (master_passwd o) w) as (r1 & ma & w1 & E1 & Hq1).
  cbn [master_accounts master_groups system_accounts system_shadow system_groups flag_dirty].
  rewrite E1. destruct (negb (r1 =? 0)); [by eexists _, _; split; [reflexivity|left]|].
  unfold mbind at 1, io_bind at 1.
  destruct (read_group_quiet [] (master_group o) w1) as (r2 & mg & w2 & E2 & Hq2).
  rewrite E2. pose proof (quiet_trans _ _ _ Hq1 Hq2) as Hq12.
  destruct (negb (r2 =? 0)); [by eexists _, _; split; [reflexivity|left]|].
  unfold mbind at 1, io_bind at 1.
  destruct (read_passwd_quiet [] (sys_passwd o) w2) as (r3 & sa & w3 & E3 & Hq3).
  rewrite E3. pose proof (quiet_trans _ _ _ Hq12 Hq3) as Hq13.
  destruct (negb (r3 =? 0)); [by eexists _, _; split; [reflexivity|left]|].
  unfold mbind at 1, io_bind at 1.
  destruct (read_shadow_quiet [] (sys_shadow o) w3) as (r4 & ss & w4 & E4 & Hq4).
  rewrite E4. pose proof (quiet_trans _ _ _ Hq13 Hq4) as Hq14.
  unfold mbind at 1, io_bind at 1, get_errno.
  destruct (negb (r4 =? 0) && _); [by eexists _, _; split; [reflexivity|left]|].
  unfold mbind at 1, io_bind at 1.
  destruct (read_group_quiet [] (sys_group o) w4) as (r5 & sg & w5 & E5 & Hq5).
  rewrite E5. pose proof (quiet_trans _ _ _ Hq14 Hq5) as Hq.
  destruct (negb (r5 =? 0)); [by eexists _, _; split; [reflexivity|left]|].
  unfold mbind at 1, io_bind at 1, lift at 1.
  destruct (reconcile_accounts table sa ma 0) as [[sa' d1]| | |];
    try (by eexists _, _; split; [reflexivity|left]).
  unfold mbind at 1, io_bind at 1, lift at 1.
  destruct (reconcile_groups table sg mg d1) as [[sg' d2]| | |];
    try (by eexists _, _; split; [reflexivity|left]).
  cbn [master_accounts master_groups system_accounts system_shadow system_groups flag_dirty].
  set (g := {| master_accounts := ma; master_groups := mg; system_accounts := sa';
               system_shadow := ss; system_groups := sg'; flag_dirty := d2 |}).
  destruct (opt_sanity o) eqn:Hs; [by eexists _, _; split; [reflexivity|left]|].
  unfold mbind at 1, io_bind at 1.
  assert (∃ l w6, (if negb (opt_nolock o) && negb (opt_dryrun o)
                   then lock_files else mret true) w5 = (Ret l, w6) ∧ quiet w5 w6)
    as (l & w6 & -> & Hq6).
  { destruct (negb (opt_nolock o) && negb (opt_dryrun o)).
    - apply lock_files_quiet.
    - eexists _, _. split; [reflexivity|]. apply quiet_refl. }
  pose proof (quiet_trans _ _ _ Hq Hq6) as Hq16.
  destruct l; cbn [negb]; [|by eexists _, _; split; [reflexivity|left]].
  unfold mbind at 1, io_bind at 1.
  destruct (decide (flag_dirty g = 0 ∨ opt_dryrun o = true)) as [Hidle|Hbusy].
  - rewrite (commit_files_idle o g w6 Hidle). cbn [negb].
    unfold mbind at 1, io_bind at 1.
    assert (∃ u w7, (if negb (opt_nolock o) && negb (opt_dryrun o)
                     then unlock_files else mret true) w6 = (Ret u, w7) ∧ quiet w6 w7)
      as (u & w7 & -> & Hq7).
    { destruct (negb (opt_nolock o) && negb (opt_dryrun o)).
      - apply unlock_files_quiet.
      - eexists _, _. split; [reflexivity|]. apply quiet_refl. }
    pose proof (quiet_trans _ _ _ Hq16 Hq7) as Hq17.
    destruct u; cbn [negb]; [|by eexists _, _; split; [reflexivity|left]].
    destruct (opt_dryrun o); by eexists _, _; split; [reflexivity|left].
  - assert (flag_dirty g ≠ 0 ∧ opt_dryrun o = false) as [Hd Hdry].
    { split; [tauto|]. destruct (opt_dryrun o); tauto. }
    destruct (commit_files o g w6) as [[[|]| | |] w7];
      try (by eexists _, _; split;
             [reflexivity | right; split; [done | split; [done | intros ? ? [=]]]]).
    + cbn [negb]. unfold mbind at 1, io_bind at 1.
      destruct ((if negb (opt_nolock o) && negb (opt_dryrun o)
                 then unlock_files else mret true) w7) as [[[|]| | |] w8];
        cbn [negb]; rewrite ?Hdry;
        eexists _, _; (split; [reflexivity|right]); (split; [done|split; [done|]]);
        intros s g' [= <- <-]; split; auto.
    + cbn [negb]. unfold mbind at 1, io_bind at 1.
      destruct (unlock_files_quiet w7) as (u & w8 & -> & _).
      eexists _, _; (split; [reflexivity|right]); (split; [done|split; [done|]]);
        intros s g' [= <- <-]; split; auto.
Qed.

Lemma read_file_missing {A} (mk : A → node) (sel : entry → option A) head path w :
  w_faults w = [] → w_fs w !! path = None →
  (input ← fopen_r path;
   match input with
   | None => mret (1, head)
   | Some lines =>
       head' ← read_loop mk head (omap sel lines);
       e ← get_errno;
       if bool_decide (e ≠ Some ENOENT) then mret (2, head')
       else _ ← fclose; mret (0, head')
   end) w
  = (Ret (1, head), with_errno ENOENT w).
Proof.
  intros Hw Hx. unfold mbind at 1, io_bind at 1.
  unfold fopen_r, mbind, io_bind. rewrite fault_calm by done.
  unfold get_fs. by rewrite Hx.
Qed.

Lemma read_passwd_calm head path x w :
  w_faults w = [] → w_fs w !! path = Some x →
  read_passwd head path w
  = (Ret (0, fold_left add_node (map passwd_node (omap as_passwd (f_lines x))) head),
     with_errno ENOENT w).
Proof. apply (read_file_calm passwd_node as_passwd). Qed.

Lemma read_group_calm head path x w :
  w_faults w = [] → w_fs w !! path = Some x →
  read_group head path w
  = (Ret (0, fold_left add_node (map group_node (omap as_group (f_lines x))) head),
     with_errno ENOENT w).
Proof. apply (read_file_calm group_node as_group). Qed.

Lemma read_shadow_calm head path x w :
  w_faults w = [] → w_fs w !! path = Some x →
  read_shadow head path w
  = (Ret (0, fold_left add_node (map shadow_node (omap as_shadow (f_lines x))) head),
     with_errno ENOENT w).
Proof. apply (read_file_calm shadow_node as_shadow). Qed.

Lemma read_passwd_missing head path w :
  w_faults w = [] → w_fs w !! path = None →
  read_passwd head path w = (Ret (1, head), with_errno ENOENT w).
Proof. apply (read_file_missing passwd_node as_passwd). Qed.

Lemma read_group_missing head path w :
  w_faults w = [] → w_fs w !! path = None →
  read_group head path w = (Ret (1, head), with_errno ENOENT w).
Proof. apply (read_file_missing group_node as_group). Qed.

Lemma read_shadow_missing head path w :
  w_faults w = [] → w_fs w !! path = None →
  read_shadow head path w = (Ret (1, head), with_errno ENOENT w).
Proof. apply (read_file_missing shadow_node as_shadow). Qed.

(** X25.  A missing file.  When no library call fails for another reason
    and one of the two master files, the account file or the group file does
    not exist, [main] returns status 2 and leaves the disk as it was,
    whether or not the shadow file exists. *)
Theorem main_missing_file (table : list userinfo) (o : options) (w : world) :
  w_faults w = [] →
  w_fs w !! master_passwd o = None ∨ w_fs w !! master_group o = None
  ∨ w_fs w !! sys_passwd o = None ∨ w_fs w !! sys_group o = None →
  ∃ g w', main table o w = (Ret (2, g), w') ∧ quiet w w'.
Proof.
  intros Hw Hmiss. unfold main.
  cbn [master_accounts master_groups system_accounts system_shadow system_groups flag_dirty].
  unfold mbind at 1, io_bind at 1.
  destruct (w_fs w !! master_passwd o) as [x1|] eqn:E1;
    [rewrite (read_passwd_calm _ _ x1) by done
    |rewrite read_passwd_missing by done; by eexists _, _].
  cbn [Z.eqb negb]. set (w1 := with_errno ENOENT w).
  unfold mbind at 1, io_bind at 1.
  destruct (w_fs w !! master_group o) as [x2|] eqn:E2;
    [rewrite (read_group_calm _ _ x2) by done
    |rewrite read_group_missing by done; by eexists _, _].
  cbn [Z.eqb negb]. set (w2 := with_errno ENOENT w1).
  unfold mbind at 1, io_bind at 1.
  destruct (w_fs w !! sys_passwd o) as [x3|] eqn:E3;
    [rewrite (read_passwd_calm _ _ x3) by done
    |rewrite read_passwd_missing by done; by eexists _, _].
  cbn [Z.eqb negb]. set (w3 := with_errno ENOENT w2).
  unfold mbind at 1, io_bind at 1.
  assert (∃ r ss, read_shadow [] (sys_shadow o) w3 = (Ret (r, ss), with_errno ENOENT w3))
    as (r & ss & ->).
  { destruct (w_fs w !! sys_shadow o) as [x4|] eqn:E4.
    - rewrite (read_shadow_calm _ _ x4) by done. by eexists _, _.
    - rewrite read_shadow_missing by done. by eexists _, _. }
  set (w4 := with_errno ENOENT w3).
  unfold mbind at 1, io_bind at 1, get_errno. cbn [w_errno w4 with_errno].
  rewrite (bool_decide_eq_false_2 (Some ENOENT ≠ Some ENOENT)) by (intros H; by apply H).
  rewrite andb_false_r.
  unfold mbind at 1, io_bind at 1.
  destruct (w_fs w !! sys_group o) as [x5|] eqn:E5;
    [|rewrite read_group_missing by done; by eexists _, _].
  exfalso. destruct Hmiss as [?|[?|[?|?]]]; discriminate.
Qed.

(** ** The kind of record of the nodes, and the assertions of the writers *)

Lemma copy_node_kind n n' :
  copy_node n = Ret n' →
  is_account n' = is_account n ∧ is_shadow n' = is_shadow n ∧ is_group n' = is_group n.
Proof.
  unfold copy_node, is_account, is_shadow, is_group. intros H.
  destruct (n_d n); apply bind_Ret in H as [? [_ H]]; by inversion H; subst.
Qed.

Lemma process_new_entries_kind (P : node → bool) :
  (∀ n n', copy_node n = Ret n' → P n' = P n) →
  ∀ master passwd d l d',
    Forall (fun x => P x = true) master →
    Forall (fun x => P x = true) passwd →
    process_new_entries passwd master d = Ret (l, d') →
    Forall (fun x => P x = true) l.
Proof.
  intros Hcopy. induction master as [|m master' IH]; intros passwd d l d' Hm Hp H;
    cbn [process_new_entries] in H.
  - by inversion H; subst.
  - apply Forall_cons_1 in Hm as [Hm Hm'].
    destruct (find_by_named_entry passwd m).
    + by eapply IH.
    + apply bind_Ret in H as [m' [Hc H]].
      eapply IH; [done| |exact H].
      apply add_node_Forall; [done|]. by rewrite (Hcopy _ _ Hc).
Qed.

Lemma process_old_entries_kind (P : node → Prop) table passwd master d l d' :
  Forall P passwd →
  process_old_entries table passwd master d = Ret (l, d') →
  Forall P l.
Proof.
  intros Hp H.
  destruct (process_old_entries_only_removes_len table (length passwd)
              passwd master d l d') as (Hsub & _); [lia | done |].
  rewrite Forall_forall in Hp |- *. intros x Hx. apply Hp.
  by eapply elem_of_sublist.
Qed.

Lemma same_identity_kind p p' :
  same_identity p p' →
  is_account p' = is_account p ∧ is_shadow p' = is_shadow p ∧ is_group p' = is_group p.
Proof.
  unfold same_identity, is_account, is_shadow, is_group. intros [_ H].
  destruct (n_d p), (n_d p'); done.
Qed.

Lemma Forall2_identity_kind (P : node → bool) live l :
  (∀ p p', same_identity p p' → P p' = P p) →
  Forall2 same_identity live l →
  Forall (fun x => P x = true) live → Forall (fun x => P x = true) l.
Proof.
  intros HP HF. induction HF as [|p p' live l Hpp HF IH]; intros Hl; [done|].
  apply Forall_cons_1 in Hl as [Hp Hl]. apply List.Forall_cons; [|by apply IH].
  by rewrite (HP _ _ Hpp).
Qed.

Lemma reconcile_accounts_kind table system master d l d' :
  Forall (fun x => is_account x = true) master →
  Forall (fun x => is_account x = true) system →
  reconcile_accounts table system master d = Ret (l, d') →
  Forall (fun x => is_account x = true) l.
Proof.
  intros Hm Hs H. unfold reconcile_accounts in H.
  apply bind_Ret in H as [[l1 d1] [H1 H]].
  apply bind_Ret in H as [[l2 d2] [H2 H]].
  apply (process_new_entries_kind is_account) in H1;
    [|intros n n' Hc; apply (copy_node_kind _ _ Hc)|done..].
  apply (process_old_entries_kind (fun x => is_account x = true)) in H2; [|done].
  apply process_changed_accounts_identity in H as [HF _].
  eapply (Forall2_identity_kind is_account); [|exact HF|done].
  intros p p' Hpp. apply (same_identity_kind _ _ Hpp).
Qed.

Lemma reconcile_groups_kind table system master d l d' :
  Forall (fun x => is_group x = true) master →
  Forall (fun x => is_group x = true) system →
  reconcile_groups table system master d = Ret (l, d') →
  Forall (fun x => is_group x = true) l.
Proof.
  intros Hm Hs H. unfold reconcile_groups in H.
  apply bind_Ret in H as [[l1 d1] [H1 H]].
  apply bind_Ret in H as [[l2 d2] [H2 H]].
  apply (process_new_entries_kind is_group) in H1;
    [|intros n n' Hc; apply (copy_node_kind _ _ Hc)|done..].
  apply (process_old_entries_kind (fun x => is_group x = true)) in H2; [|done].
  apply process_changed_groups_identity in H as [HF _].
  eapply (Forall2_identity_kind is_group); [|exact HF|done].
  intros p p' Hpp. apply (same_identity_kind _ _ Hpp).
Qed.

(** ** No assertion in the loops that change the lists *)

Lemma bind_not_Abort {A B} (m : outcome A) (f : A → outcome B) :
  m ≠ Abort → (∀ a, f a ≠ Abort) → mbind f m ≠ Abort.
Proof. destruct m; simpl; auto. Qed.

Lemma format_not_Abort (k : nat) : ∀ fmt,
  (String.length fmt ≤ k)%nat → format fmt ≠ Abort.
Proof.
  induction k as [|k IH]; intros fmt Hk.
  - destruct fmt; [done | simpl in Hk; lia].
  - destruct fmt as [|c s]; [done|]. simpl in Hk.
    destruct (Ascii.eqb c "%") eqn:Hc.
    + apply Ascii.eqb_eq in Hc. subst c.
      destruct s as [|c' s']; [done|].
      destruct (Ascii.eqb c' "%") eqn:Hc'.
      * apply Ascii.eqb_eq in Hc'. subst c'.
        change (format (String "%" (String "%" s'))) with
          (s0 ← format s'; Ret (String "%"%char s0)).
        apply bind_not_Abort; [|done]. apply IH. simpl in Hk. lia.
      * clear IH.
        destruct c' as [[] [] [] [] [] [] [] []]; try done.
    + rewrite format_cons_plain by done.
      apply bind_not_Abort; [|done]. apply IH. lia.
Qed.

Lemma sprintf_not_Abort o : sprintf o ≠ Abort.
Proof.
  destruct o as [s|]; [|done]. simpl. by apply (format_not_Abort (String.length s)).
Qed.

Lemma copy_node_not_Abort n : copy_node n ≠ Abort.
Proof.
  unfold copy_node, copy_passwd, copy_shadow, copy_group.
  destruct (n_d n); (apply bind_not_Abort; [|done]);
    repeat (apply bind_not_Abort; [apply sprintf_not_Abort | intros ?]);
    by destruct (NSS_BUFLEN_PASSWD <? _).
Qed.

Lemma process_new_entries_not_Abort master : ∀ live d,
  process_new_entries live master d ≠ Abort.
Proof.
  induction master as [|m master' IH]; intros live d; cbn [process_new_entries];
    [done|].
  destruct (find_by_named_entry live m); [apply IH|].
  apply bind_not_Abort; [apply copy_node_not_Abort | intros ?; apply IH].
Qed.

Lemma process_old_entries_not_Abort table master (k : nat) : ∀ live d,
  (length live ≤ k)%nat → process_old_entries table live master d ≠ Abort.
Proof.
  induction k as [|k IH]; intros live d Hk.
  - destruct live; [done | simpl in Hk; lia].
  - destruct live as [|p next]; [done|]. simpl in Hk.
    rewrite process_old_entries_unfold.
    destruct (stale table master p).
    + destruct next as [|q next']; [done|].
      apply bind_not_Abort; [apply IH; simpl in Hk; lia | by intros []].
    + apply bind_not_Abort; [apply IH; lia | by intros []].
Qed.

Lemma sync_field_not_Abort keep cur mc d : sync_field keep cur mc d ≠ Abort.
Proof.
  unfold sync_field. destruct keep; [done|]. destruct cur as [s|]; [|done].
  destruct mc as [ms|]; [|done]. by destruct (String.eqb s ms).
Qed.

Lemma changed_account_not_Abort table p master d :
  changed_account table p master d ≠ Abort.
Proof.
  unfold changed_account.
  destruct ((n_id p <? 0)%N || (99 <? n_id p)%N); [done|].
  destruct (find_by_named_entry master p) as [mc|]; [|done].
  destruct (n_d p) as [pw| |]; try done. destruct (n_d mc) as [mpw| |]; try done.
  destruct (negb (n_id p =? n_id mc)%N); destruct (negb (pw_gid pw =? pw_gid mpw)%N);
    repeat (apply bind_not_Abort; [apply sync_field_not_Abort | intros []]); done.
Qed.

Lemma process_changed_accounts_not_Abort table master : ∀ live d,
  process_changed_accounts table live master d ≠ Abort.
Proof.
  induction live as [|p next IH]; intros d; cbn [process_changed_accounts]; [done|].
  apply bind_not_Abort; [apply changed_account_not_Abort | intros []].
  apply bind_not_Abort; [apply IH | by intros []].
Qed.

Lemma changed_group_not_Abort g master d : changed_group g master d ≠ Abort.
Proof.
  unfold changed_group.
  destruct ((n_id g <? 0)%N || (99 <? n_id g)%N); [done|].
  destruct (find_by_named_entry master g) as [mc|]; [|done].
  destruct (negb (n_id g =? n_id mc)%N); [|done].
  destruct (n_d g); try done. by destruct (n_d mc).
Qed.

Lemma process_changed_groups_not_Abort master : ∀ live d,
  process_changed_groups live master d ≠ Abort.
Proof.
  induction live as [|g next IH]; intros d; cbn [process_changed_groups]; [done|].
  apply bind_not_Abort; [apply changed_group_not_Abort | intros []].
  apply bind_not_Abort; [apply IH | by intros []].
Qed.

Lemma reconcile_accounts_not_Abort table system master d :
  reconcile_accounts table system master d ≠ Abort.
Proof.
  unfold reconcile_accounts.
  apply bind_not_Abort; [apply process_new_entries_not_Abort | intros [l1 d1]].
  apply bind_not_Abort;
    [by apply (process_old_entries_not_Abort _ _ (length l1)) | intros [l2 d2]].
  apply process_changed_accounts_not_Abort.
Qed.

Lemma reconcile_groups_not_Abort table system master d :
  reconcile_groups table system master d ≠ Abort.
Proof.
  unfold reconcile_groups.
  apply bind_not_Abort; [apply process_new_entries_not_Abort | intros [l1 d1]].
  apply bind_not_Abort;
    [by apply (process_old_entries_not_Abort _ _ (length l1)) | intros [l2 d2]].
  apply process_changed_groups_not_Abort.
Qed.

Lemma read_loop_kind {A} (mk : A → node) (P : node → Prop) input :
  (∀ r, P (mk r)) → ∀ head w, Forall P head →
  ∃ l w', read_loop mk head input w = (Ret l, w') ∧ Forall P l.
Proof.
  intros Hmk. induction input as [|r input IH]; intros head w Hh;
    cbn [read_loop]; io_unfold.
  - destruct (w_faults w) as [|[e|] fl]; cbn; by eexists _, _.
  - destruct (w_faults w) as [|[e|] fl]; cbn.
    + apply IH. by apply add_node_Forall.
    + by eexists _, _.
    + apply IH. by apply add_node_Forall.
Qed.

Lemma read_file_kind {A} (mk : A → node) (sel : entry → option A) (P : node → Prop)
  path w :
  (∀ r, P (mk r)) →
  ∃ r l w',
    (input ← fopen_r path;
     match input with
     | None => mret (1, [])
     | Some lines =>
         head' ← read_loop mk [] (omap sel lines);
         e ← get_errno;
         if bool_decide (e ≠ Some ENOENT) then mret (2, head')
         else _ ← fclose; mret (0, head')
     end) w = (Ret (r, l), w')
    ∧ Forall P l.
Proof.
  intros Hmk. unfold mbind at 1, io_bind at 1.
  destruct (fopen_r_quiet path w) as ([lines|] & w1 & -> & _).
  - unfold mbind at 1, io_bind at 1.
    destruct (read_loop_kind mk P (omap sel lines) Hmk [] w1) as (l & w2 & -> & Hl);
      [done|].
    unfold mbind at 1, io_bind at 1, get_errno.
    destruct (bool_decide _).
    + by eexists _, _, _.
    + unfold mbind, io_bind.
      destruct (fclose_cases w2) as (b & w3 & -> & _). by eexists _, _, _.
  - by eexists _, _, _.
Qed.

Lemma read_passwd_kind path w :
  ∃ r l w', read_passwd [] path w = (Ret (r, l), w')
            ∧ Forall (fun x => is_account x = true) l.
Proof. by apply (read_file_kind passwd_node as_passwd). Qed.

Lemma read_group_kind path w :
  ∃ r l w', read_group [] path w = (Ret (r, l), w')
            ∧ Forall (fun x => is_group x = true) l.
Proof. by apply (read_file_kind group_node as_group). Qed.

Lemma read_shadow_kind path w :
  ∃ r l w', read_shadow [] path w = (Ret (r, l), w')
            ∧ Forall (fun x => is_shadow x = true) l.
Proof. by apply (read_file_kind shadow_node as_shadow). Qed.

Lemma write_passwd_returns l path w :
  Forall (fun x => is_account x = true) l →
  ∃ b w', write_passwd l path w = (Ret b, w').
Proof.
  intros Hl. unfold write_passwd, mbind at 1, io_bind at 1.
  destruct (fopen_w_cases path w) as ([|] & w1 & -> & _); cbn [negb];
    [|by eexists _, _].
  assert (∀ w, ∃ b w', write_passwd_loop l path w = (Ret b, w')) as Hloop.
  { clear w w1. induction Hl as [|n l Hn Hl IH]; intros w; cbn [write_passwd_loop].
    - by eexists _, _.
    - unfold is_account in Hn. destruct (n_d n) as [pw| |]; try done.
      unfold mbind, io_bind.
      destruct (putent_cases path (t_passwd pw) w) as ([|] & w1 & -> & _); cbn [negb];
        [apply IH | by eexists _, _]. }
  unfold mbind at 1, io_bind at 1. destruct (Hloop w1) as ([|] & w2 & ->);
    cbn [negb]; [|by eexists _, _].
  unfold mbind, io_bind. destruct (fclose_cases w2) as ([|] & w3 & -> & _);
    by eexists _, _.
Qed.

Lemma write_shadow_returns l path w :
  Forall (fun x => is_shadow x = true) l →
  ∃ b w', write_shadow l path w = (Ret b, w').
Proof.
  intros Hl. unfold write_shadow, mbind at 1, io_bind at 1.
  destruct (fopen_w_cases path w) as ([|] & w1 & -> & _); cbn [negb];
    [|by eexists _, _].
  assert (∀ w, ∃ b w', write_shadow_loop l path w = (Ret b, w')) as Hloop.
  { clear w w1. induction Hl as [|n l Hn Hl IH]; intros w; cbn [write_shadow_loop].
    - by eexists _, _.
    - unfold is_shadow in Hn. destruct (n_d n) as [|sp|]; try done.
      unfold mbind, io_bind.
      destruct (putent_cases path (t_shadow sp) w) as ([|] & w1 & -> & _); cbn [negb];
        [apply IH | by eexists _, _]. }
  unfold mbind at 1, io_bind at 1. destruct (Hloop w1) as ([|] & w2 & ->);
    cbn [negb]; [|by eexists _, _].
  unfold mbind, io_bind. destruct (fclose_cases w2) as ([|] & w3 & -> & _);
    by eexists _, _.
Qed.

Lemma write_group_returns l path w :
  Forall (fun x => is_group x = true) l →
  ∃ b w', write_group l path w = (Ret b, w').
Proof.
  intros Hl. unfold write_group, mbind at 1, io_bind at 1.
  destruct (fopen_w_cases path w) as ([|] & w1 & -> & _); cbn [negb];
    [|by eexists _, _].
  assert (∀ w, ∃ b w', write_group_loop l path w = (Ret b, w')) as Hloop.
  { clear w w1. induction Hl as [|n l Hn Hl IH]; intros w; cbn [write_group_loop].
    - by eexists _, _.
    - unfold is_group in Hn. destruct (n_d n) as [| |gr]; try done.
      unfold mbind, io_bind.
      destruct (putent_cases path (t_group gr) w) as ([|] & w1 & -> & _); cbn [negb];
        [apply IH | by eexists _, _]. }
  unfold mbind at 1, io_bind at 1. destruct (Hloop w1) as ([|] & w2 & ->);
    cbn [negb]; [|by eexists _, _].
  unfold mbind, io_bind. destruct (fclose_cases w2) as ([|] & w3 & -> & _);
    by eexists _, _.
Qed.

Lemma put_file_in_place_returns source target w :
  ∃ b w', put_file_in_place source target w = (Ret b, w').
Proof.
  unfold put_file_in_place, mbind at 1, io_bind at 1, sys_umask.
  set (ps := [source; target; String.append target UNLINK_EXTENSION]).
  unfold mbind, io_bind.
  destruct (untouched_rename ps target (String.append target UNLINK_EXTENSION)
              (with_umask 63 w)) as ([|] & w1 & -> & _);
    [simpl; tauto | simpl; tauto | | ]; cbn.
  - destruct (untouched_rename ps source target w1) as ([|] & w2 & -> & _);
      [simpl; tauto | simpl; tauto | | ]; cbn.
    + destruct (untouched_copy_filemodes ps (String.append target UNLINK_EXTENSION)
                  target w2) as ([|] & w3 & -> & _); [simpl; tauto | | ]; cbn.
      * destruct (untouched_unlink ps (String.append target UNLINK_EXTENSION) w3)
          as (b4 & w4 & -> & _); [simpl; tauto|]. by eexists _, _.
      * destruct (untouched_unlink ps (String.append target UNLINK_EXTENSION) w3)
          as (b4 & w4 & -> & _); [simpl; tauto|]. by eexists _, _.
    + destruct (untouched_rename ps (String.append target UNLINK_EXTENSION) target w2)
        as (b3 & w3 & -> & _); [simpl; tauto | simpl; tauto |]. by eexists _, _.
  - destruct (untouched_unlink ps source w1) as (b2 & w2 & -> & _); [simpl; tauto|].
    by eexists _, _.
Qed.

Lemma commit_files_returns o g w :
  Forall (fun x => is_account x = true) (system_accounts g) →
  Forall (fun x => is_shadow x = true) (system_shadow g) →
  Forall (fun x => is_group x = true) (system_groups g) →
  ∃ b w', commit_files o g w = (Ret b, w').
Proof.
  intros Ha Hs Hg. unfold commit_files.
  destruct (flag_dirty g =? 0); [by eexists _, _|].
  destruct (opt_dryrun o); [by eexists _, _|].
  unfold mbind at 1, io_bind at 1.
  destruct (write_passwd_returns (system_accounts g)
              (String.append (sys_passwd o) WRITE_EXTENSION) w Ha) as ([|] & w1 & ->);
    cbn [negb]; [|by eexists _, _].
  unfold mbind at 1, io_bind at 1.
  destruct (put_file_in_place_returns (String.append (sys_passwd o) WRITE_EXTENSION)
              (sys_passwd o) w1) as ([|] & w2 & ->); cbn [negb]; [|by eexists _, _].
  unfold mbind at 1, io_bind at 1.
  assert (∃ b w3,
            (if negb (is_null (system_shadow g))
             then
               r ← write_shadow (system_shadow g)
                     (String.append (sys_shadow o) WRITE_EXTENSION);
               if negb r then mret false
               else put_file_in_place (String.append (sys_shadow o) WRITE_EXTENSION)
                      (sys_shadow o)
             else mret true) w2 = (Ret b, w3)) as (b & w3 & ->).
  { destruct (negb (is_null (system_shadow g))); [|by eexists _, _].
    unfold mbind, io_bind.
    destruct (write_shadow_returns (system_shadow g)
                (String.append (sys_shadow o) WRITE_EXTENSION) w2 Hs)
      as ([|] & w3 & ->); cbn [negb]; [|by eexists _, _].
    apply put_file_in_place_returns. }
  destruct b; cbn [negb]; [|by eexists _, _].
  unfold mbind at 1, io_bind at 1.
  destruct (write_group_returns (system_groups g)
              (String.append (sys_group o) WRITE_EXTENSION) w3 Hg) as ([|] & w4 & ->);
    cbn [negb]; [|by eexists _, _].
  unfold mbind, io_bind.
  destruct (put_file_in_place_returns (String.append (sys_group o) WRITE_EXTENSION)
              (sys_group o) w4) as ([|] & w5 & ->); by eexists _, _.
Qed.

(** X26.  The assertions of the writers hold in [main].  Whatever the
    options, the files and the failures of the library calls, no run of
    [main] ends in a failed [assert]: the lists that reach [write_passwd],
    [write_shadow] and [write_group] hold nodes of the right kind only. *)
Theorem main_asserts_hold (table : list userinfo) (o : options) (w : world) :
  (main table o w).1 ≠ Abort.
Proof.
  unfold main.
  cbn [master_accounts master_groups system_accounts system_shadow system_groups flag_dirty].
  unfold mbind at 1, io_bind at 1.
  destruct (read_passwd_kind (master_passwd o) w) as (r1 & ma & w1 & -> & Hma).
  destruct (negb (r1 =? 0)); [done|].
  unfold mbind at 1, io_bind at 1.
  destruct (read_group_kind (master_group o) w1) as (r2 & mg & w2 & -> & Hmg).
  destruct (negb (r2 =? 0)); [done|].
  unfold mbind at 1, io_bind at 1.
  destruct (read_passwd_kind (sys_passwd o) w2) as (r3 & sa & w3 & -> & Hsa).
  destruct (negb (r3 =? 0)); [done|].
  unfold mbind at 1, io_bind at 1.
  destruct (read_shadow_kind (sys_shadow o) w3) as (r4 & ss & w4 & -> & Hss).
  unfold mbind at 1, io_bind at 1, get_errno.
  destruct (negb (r4 =? 0) && _); [done|].
  unfold mbind at 1, io_bind at 1.
  destruct (read_group_kind (sys_group o) w4) as (r5 & sg & w5 & -> & Hsg).
  destruct (negb (r5 =? 0)); [done|].
  unfold mbind at 1, io_bind at 1, lift at 1.
  pose proof (reconcile_accounts_not_Abort table sa ma 0) as Hna.
  destruct (reconcile_accounts table sa ma 0) as [[sa' d1]| | |] eqn:Hra; try done.
  unfold mbind at 1, io_bind at 1, lift at 1.
  pose proof (reconcile_groups_not_Abort table sg mg d1) as Hng.
  destruct (reconcile_groups table sg mg d1) as [[sg' d2]| | |] eqn:Hrg; try done.
  apply reconcile_accounts_kind in Hra; [|done..].
  apply reconcile_groups_kind in Hrg; [|done..].
  cbn [master_accounts master_groups system_accounts system_shadow system_groups flag_dirty].
  set (g := {| master_accounts := ma; master_groups := mg; system_accounts := sa';
               system_shadow := ss; system_groups := sg'; flag_dirty := d2 |}).
  destruct (opt_sanity o); [done|].
  unfold mbind at 1, io_bind at 1.
  assert (∃ l w6, (if negb (opt_nolock o) && negb (opt_dryrun o)
                   then lock_files else mret true) w5 = (Ret l, w6)) as (l & w6 & ->).
  { destruct (negb (opt_nolock o) && negb (opt_dryrun o)); [|by eexists _, _].
    destruct (lock_files_quiet w5) as (b & w6 & -> & _). by eexists _, _. }
  destruct l; cbn [negb]; [|done].
  unfold mbind at 1, io_bind at 1.
  destruct (commit_files_returns o g w6) as ([|] & w7 & ->); [done..| |]; cbn [negb].
  - unfold mbind at 1, io_bind at 1.
    assert (∃ u w8, (if negb (opt_nolock o) && negb (opt_dryrun o)
                     then unlock_files else mret true) w7 = (Ret u, w8)) as (u & w8 & ->).
    { destruct (negb (opt_nolock o) && negb (opt_dryrun o)); [|by eexists _, _].
      destruct (unlock_files_quiet w7) as (b & w8 & -> & _). by eexists _, _. }
    destruct u; cbn [negb]; [|done]. by destruct (opt_dryrun o).
  - unfold mbind at 1, io_bind at 1.
    destruct (unlock_files_quiet w7) as (u & w8 & -> & _). done.
Qed.

(** ** The commit when no call fails *)

Lemma write_shadow_loop_calm path l : ∀ x w,
  w_faults w = [] → w_fs w !! path = Some x →
  forallb is_shadow l = true →
  ∃ w', write_shadow_loop l path w = (Ret true, w')
        ∧ w_faults w' = []
        ∧ w_fs w' !! path = Some (with_lines x (f_lines x ++ map n_d l))
        ∧ (∀ p, p ≠ path → w_fs w' !! p = w_fs w !! p).
Proof.
  induction l as [|n l IH]; intros x w Hw Hx Hl.
  - exists w. simpl. rewrite app_nil_r. split; [done|]. split; [done|].
    split; [|done]. rewrite Hx. by destruct x.
  - simpl in Hl. apply andb_true_iff in Hl as [Hn Hl].
    unfold is_shadow in Hn. cbn [write_shadow_loop].
    destruct (n_d n) as [|sp|] eqn:Hd; try done.
    unfold mbind, io_bind. rewrite (putent_calm _ _ x) by done. cbn [negb].
    set (w1 := with_fs _ w).
    destruct (IH (with_lines x (f_lines x ++ [t_shadow sp])) w1) as (w' & Hrun & Hf & Hp & Ho).
    { done. } { apply lookup_insert_eq. } { done. }
    exists w'. split; [done|]. split; [done|]. split.
    + rewrite Hp. cbn [map]. rewrite Hd. unfold with_lines. simpl.
      by rewrite <- app_assoc.
    + intros p Hne. rewrite Ho by done. unfold w1. simpl.
      by rewrite lookup_insert_ne.
Qed.

Lemma write_group_loop_calm path l : ∀ x w,
  w_faults w = [] → w_fs w !! path = Some x →
  forallb is_group l = true →
  ∃ w', write_group_loop l path w = (Ret true, w')
        ∧ w_faults w' = []
        ∧ w_fs w' !! path = Some (with_lines x (f_lines x ++ map n_d l))
        ∧ (∀ p, p ≠ path → w_fs w' !! p = w_fs w !! p).
Proof.
  induction l as [|n l IH]; intros x w Hw Hx Hl.
  - exists w. simpl. rewrite app_nil_r. split; [done|]. split; [done|].
    split; [|done]. rewrite Hx. by destruct x.
  - simpl in Hl. apply andb_true_iff in Hl as [Hn Hl].
    unfold is_group in Hn. cbn [write_group_loop].
    destruct (n_d n) as [| |gr] eqn:Hd; try done.
    unfold mbind, io_bind. rewrite (putent_calm _ _ x) by done. cbn [negb].
    set (w1 := with_fs _ w).
    destruct (IH (with_lines x (f_lines x ++ [t_group gr])) w1) as (w' & Hrun & Hf & Hp & Ho).
    { done. } { apply lookup_insert_eq. } { done. }
    exists w'. split; [done|]. split; [done|]. split.
    + rewrite Hp. cbn [map]. rewrite Hd. unfold with_lines. simpl.
      by rewrite <- app_assoc.
    + intros p Hne. rewrite Ho by done. unfold w1. simpl.
      by rewrite lookup_insert_ne.
Qed.

Lemma write_shadow_calm (l : list node) (path : string) (w : world) :
  w_faults w = [] → forallb is_shadow l = true →
  ∃ w', write_shadow l path w = (Ret true, w')
        ∧ w_fs w' !! path = Some (with_lines (opened path w) (map n_d l))
        ∧ (∀ p, p ≠ path → w_fs w' !! p = w_fs w !! p)
        ∧ w_faults w' = [].
Proof.
  intros Hw Hl.
  set (w0 := with_fs (<[path := opened path w]> (w_fs w)) w).
  assert (w_fs w0 !! path = Some (opened path w)) as H0 by apply lookup_insert_eq.
  assert (w_faults w0 = []) as Hw0 by exact Hw.
  unfold write_shadow, mbind, io_bind.
  rewrite fopen_w_calm by done. cbn [negb]. fold w0.
  destruct (write_shadow_loop_calm path l (opened path w) w0 Hw0 H0 Hl)
    as (w' & Hrun & Hf & Hp & Ho).
  exists w'. rewrite Hrun. cbn [negb].
  rewrite fclose_calm by done. cbn. split; [done|]. split.
  - rewrite Hp. f_equal. unfold with_lines, opened.
    by destruct (w_fs w !! path).
  - split; [|done]. intros p Hne. rewrite Ho by done. unfold w0. simpl.
    by rewrite lookup_insert_ne.
Qed.

Lemma write_group_calm (l : list node) (path : string) (w : world) :
  w_faults w = [] → forallb is_group l = true →
  ∃ w', write_group l path w = (Ret true, w')
        ∧ w_fs w' !! path = Some (with_lines (opened path w) (map n_d l))
        ∧ (∀ p, p ≠ path → w_fs w' !! p = w_fs w !! p)
        ∧ w_faults w' = [].
Proof.
  intros Hw Hl.
  set (w0 := with_fs (<[path := opened path w]> (w_fs w)) w).
  assert (w_fs w0 !! path = Some (opened path w)) as H0 by apply lookup_insert_eq.
  assert (w_faults w0 = []) as Hw0 by exact Hw.
  unfold write_group, mbind, io_bind.
  rewrite fopen_w_calm by done. cbn [negb]. fold w0.
  destruct (write_group_loop_calm path l (opened path w) w0 Hw0 H0 Hl)
    as (w' & Hrun & Hf & Hp & Ho).
  exists w'. rewrite Hrun. cbn [negb].
  rewrite fclose_calm by done. cbn. split; [done|]. split.
  - rewrite Hp. f_equal. unfold with_lines, opened.
    by destruct (w_fs w !! path).
  - split; [|done]. intros p Hne. rewrite Ho by done. unfold w0. simpl.
    by rewrite lookup_insert_ne.
Qed.

Lemma append_inj_r s : ∀ a b, String.append s a = String.append s b → a = b.
Proof.
  induction s as [|c s IH]; intros a b H; [done|].
  apply IH. cbn [String.append] in H. by injection H.
Qed.

Lemma extensions_differ target :
  String.append target WRITE_EXTENSION ≠ String.append target UNLINK_EXTENSION.
Proof. intros H. apply append_inj_r in H. discriminate. Qed.

(** A staged file put in place: [w1] is [w0] after the writer has left
    [lines] at the staging name. *)
Lemma publish_staged (target : string) (orig : file) (lines : list entry)
  (w0 w1 : world) :
  w_faults w1 = [] →
  w_fs w0 !! target = Some orig →
  w_fs w1 !! String.append target WRITE_EXTENSION
  = Some (with_lines (opened (String.append target WRITE_EXTENSION) w0) lines) →
  (∀ p, p ≠ String.append target WRITE_EXTENSION → w_fs w1 !! p = w_fs w0 !! p) →
  ∃ w2, put_file_in_place (String.append target WRITE_EXTENSION) target w1
        = (Ret true, w2)
        ∧ w_faults w2 = []
        ∧ ∀ p, w_fs w2 !! p =
               if decide (p = target) then Some (with_lines orig lines)
               else if decide (p = String.append target WRITE_EXTENSION
                               ∨ p = String.append target UNLINK_EXTENSION)
                    then None
                    else w_fs w0 !! p.
Proof.
  intros Hw Ht Hs Ho.
  assert (String.append target WRITE_EXTENSION ≠ target) as Hne.
  { apply not_eq_sym, append_extension_ne. simpl. lia. }
  destruct (put_file_in_place_calm (String.append target WRITE_EXTENSION) target orig
              (with_lines (opened (String.append target WRITE_EXTENSION) w0) lines) w1)
    as (w2 & Hrun & Hf & Hfs); [done | by rewrite Ho | done | done
                               | apply extensions_differ |].
  exists w2. split; [done|]. split; [done|]. intros p. rewrite Hfs.
  destruct (decide (p = target)); [done|].
  destruct (decide _); [done|]. apply Ho. tauto.
Qed.

Ltac chase_paths :=
  repeat (match goal with
          | |- context [decide ?pw_f] => destruct (decide pw_f) as [?|?]
          end);
  try done; try (exfalso; intuition congruence).

Lemma commit_files_calm (o : options) (g : globals) (w : world) (op og : file) :
  w_faults w = [] →
  flag_dirty g ≠ 0 → opt_dryrun o = false →
  forallb is_account (system_accounts g) = true →
  forallb is_shadow (system_shadow g) = true →
  forallb is_group (system_groups g) = true →
  NoDup (commit_paths o) →
  w_fs w !! sys_passwd o = Some op →
  w_fs w !! sys_group o = Some og →
  system_shadow g = [] ∨ is_Some (w_fs w !! sys_shadow o) →
  ∃ w', commit_files o g w = (Ret true, w')
    ∧ w_faults w' = []
    ∧ w_fs w' !! sys_passwd o = Some (with_lines op (map n_d (system_accounts g)))
    ∧ w_fs w' !! sys_shadow o
      = (if is_null (system_shadow g) then w_fs w !! sys_shadow o
         else (fun x => with_lines x (map n_d (system_shadow g)))
                <$> w_fs w !! sys_shadow o)
    ∧ w_fs w' !! sys_group o = Some (with_lines og (map n_d (system_groups g)))
    ∧ w_fs w' !! String.append (sys_passwd o) WRITE_EXTENSION = None
    ∧ w_fs w' !! String.append (sys_passwd o) UNLINK_EXTENSION = None
    ∧ w_fs w' !! String.append (sys_group o) WRITE_EXTENSION = None
    ∧ w_fs w' !! String.append (sys_group o) UNLINK_EXTENSION = None
    ∧ (∀ p, p ∉ commit_paths o → w_fs w' !! p = w_fs w !! p).
Proof.
  intros Hw Hd Hdry Ha Hs Hg Hnd Hp Hgr Hsh.
  unfold commit_paths in *.
  set (pw_f := sys_passwd o) in *. set (sh_f := sys_shadow o) in *. set (gr_f := sys_group o) in *.
  set (pw_w := String.append pw_f WRITE_EXTENSION) in *.
  set (pw_u := String.append pw_f UNLINK_EXTENSION) in *.
  set (sh_w := String.append sh_f WRITE_EXTENSION) in *.
  set (sh_u := String.append sh_f UNLINK_EXTENSION) in *.
  set (gr_w := String.append gr_f WRITE_EXTENSION) in *.
  set (gr_u := String.append gr_f UNLINK_EXTENSION) in *.
  repeat (apply NoDup_cons in Hnd as [? Hnd]).
  repeat match goal with
         | H : _ ∉ _ :: _ |- _ => apply not_elem_of_cons in H as [? ?]
         end.
  unfold commit_files. fold pw_f sh_f gr_f pw_w sh_w gr_w.
  rewrite (proj2 (Z.eqb_neq _ _) Hd), Hdry.
  (* the account file *)
  destruct (write_passwd_calm (system_accounts g) pw_w w Hw Ha)
    as (w1 & Hrun1 & Hst1 & Ho1 & Hw1).
  unfold mbind at 1, io_bind at 1. rewrite Hrun1. cbn [negb].
  destruct (publish_staged pw_f op (map n_d (system_accounts g)) w w1 Hw1 Hp Hst1 Ho1)
    as (w2 & Hrun2 & Hw2 & Hfs2). fold pw_w pw_u in Hrun2, Hfs2.
  unfold mbind at 1, io_bind at 1. rewrite Hrun2. cbn [negb].
  (* the shadow file *)
  assert (∃ w3,
            (if negb (is_null (system_shadow g))
             then
               r ← write_shadow (system_shadow g) sh_w;
               if negb r then mret false else put_file_in_place sh_w sh_f
             else mret true) w2 = (Ret true, w3)
            ∧ w_faults w3 = []
            ∧ ∀ p, w_fs w3 !! p =
                   if is_null (system_shadow g) then w_fs w2 !! p
                   else if decide (p = sh_f)
                        then (fun x => with_lines x (map n_d (system_shadow g)))
                               <$> w_fs w2 !! sh_f
                        else if decide (p = sh_w ∨ p = sh_u) then None
                             else w_fs w2 !! p)
    as (w3 & Hrun3 & Hw3 & Hfs3).
  { destruct (is_null (system_shadow g)) eqn:Hnull; cbn [negb].
    - by exists w2.
    - destruct Hsh as [Hnil|[os Hos]]; [by rewrite Hnil in Hnull|].
      assert (w_fs w2 !! sh_f = Some os) as Hos2.
      { rewrite Hfs2. chase_paths. }
      destruct (write_shadow_calm (system_shadow g) sh_w w2 Hw2 Hs)
        as (w3' & Hrun3' & Hst3 & Ho3 & Hw3').
      unfold mbind, io_bind. rewrite Hrun3'. cbn [negb].
      destruct (publish_staged sh_f os (map n_d (system_shadow g)) w2 w3' Hw3' Hos2 Hst3 Ho3)
        as (w3 & Hrun3 & Hw3 & Hfs3). fold sh_w sh_u in Hrun3, Hfs3.
      exists w3. split; [done|]. split; [done|]. intros p. rewrite Hfs3, Hos2. done. }
  unfold mbind at 1, io_bind at 1. rewrite Hrun3. cbn [negb].
  (* the group file *)
  assert (w_fs w3 !! gr_f = Some og) as Hgr3.
  { rewrite Hfs3. destruct (is_null (system_shadow g)); rewrite ?Hfs2; chase_paths. }
  destruct (write_group_calm (system_groups g) gr_w w3 Hw3 Hg)
    as (w4 & Hrun4 & Hst4 & Ho4 & Hw4).
  unfold mbind at 1, io_bind at 1. rewrite Hrun4. cbn [negb].
  destruct (publish_staged gr_f og (map n_d (system_groups g)) w3 w4 Hw4 Hgr3 Hst4 Ho4)
    as (w5 & Hrun5 & Hw5 & Hfs5). fold gr_w gr_u in Hrun5, Hfs5.
  unfold mbind, io_bind. rewrite Hrun5. cbn [negb].
  exists w5. split; [done|]. split; [done|].
  assert (w_fs w2 !! sh_f = w_fs w !! sh_f) as HS2 by (rewrite Hfs2; chase_paths).
  repeat split.
  - rewrite Hfs5, Hfs3. destruct (is_null (system_shadow g)); rewrite ?Hfs2; chase_paths.
  - rewrite Hfs5, Hfs3, HS2.
    destruct (is_null (system_shadow g)); rewrite ?Hfs2; chase_paths.
  - rewrite Hfs5. chase_paths.
  - rewrite Hfs5, Hfs3. destruct (is_null (system_shadow g)); rewrite ?Hfs2; chase_paths.
  - rewrite Hfs5, Hfs3. destruct (is_null (system_shadow g)); rewrite ?Hfs2; chase_paths.
  - rewrite Hfs5. chase_paths.
  - rewrite Hfs5. chase_paths.
  - intros p Hp'.
    repeat (apply not_elem_of_cons in Hp' as [? Hp']).
    rewrite Hfs5, Hfs3. destruct (is_null (system_shadow g)); rewrite ?Hfs2; chase_paths.
Qed.

Lemma lock_files_calm w :
  w_faults w = [] → lock_files w = (Ret true, with_locked true w).
Proof.
  intros Hw. unfold lock_files, lckpwdf, mbind, io_bind. by rewrite fault_calm.
Qed.

Lemma unlock_files_calm w :
  w_faults w = [] → unlock_files w = (Ret true, with_locked false w).
Proof.
  intros Hw. unfold unlock_files, ulckpwdf, mbind, io_bind. by rewrite fault_calm.
Qed.

Lemma Forall_forallb (P : node → bool) l :
  Forall (fun x => P x = true) l → forallb P l = true.
Proof. intros H. apply forallb_forall. intros x Hx. by apply (proj1 (List.Forall_forall _ _) H). Qed.

Lemma loaded_kind {A} (mk : A → node) (sel : entry → option A) (P : node → bool) x :
  (∀ r, P (mk r) = true) → Forall (fun n => P n = true) (loaded mk sel x).
Proof.
  intros Hmk. unfold loaded. apply fold_add_node_ok; [done|].
  apply Forall_forall. intros n Hn. apply list_elem_of_fmap in Hn as (r & -> & _). done.
Qed.

(** X27.  A run of [main] that commits.  When no library call fails, the
    two master files, the account file and the group file exist, the nine
    names [commit_files] uses are distinct, the run is neither a dry run nor
    a sanity check, and the loops return with a counter of changes that is
    not zero: [main] returns status 0; the account file and the group file
    hold the records of the reconciled lists, one line each in list order,
    with the mode and owner the files had; the shadow file, if it exists and
    holds a record, is rewritten from the list read from it; no other path
    is changed. *)
Theorem main_publishes (table : list userinfo) (o : options) (w : world)
  (mp mg sp sg : file) (sa sgl : list node) (d1 d2 : Z) :
  w_faults w = [] →
  opt_sanity o = false → opt_dryrun o = false →
  NoDup (commit_paths o) →
  w_fs w !! master_passwd o = Some mp →
  w_fs w !! master_group o = Some mg →
  w_fs w !! sys_passwd o = Some sp →
  w_fs w !! sys_group o = Some sg →
  reconcile_accounts table (loaded passwd_node as_passwd sp)
    (loaded passwd_node as_passwd mp) 0 = Ret (sa, d1) →
  reconcile_groups table (loaded group_node as_group sg)
    (loaded group_node as_group mg) d1 = Ret (sgl, d2) →
  d2 ≠ 0 →
  ∃ g w', main table o w = (Ret (0, g), w')
    ∧ system_accounts g = sa ∧ system_groups g = sgl ∧ flag_dirty g = d2
    ∧ w_fs w' !! sys_passwd o = Some (with_lines sp (map n_d sa))
    ∧ w_fs w' !! sys_group o = Some (with_lines sg (map n_d sgl))
    ∧ w_fs w' !! sys_shadow o
      = (fun x => if is_null (loaded shadow_node as_shadow x) then x
                  else with_lines x (map n_d (loaded shadow_node as_shadow x)))
          <$> w_fs w !! sys_shadow o
    ∧ (∀ p, p ∉ commit_paths o → w_fs w' !! p = w_fs w !! p).
Proof.
  intros Hw Hsan Hdry Hnd Hmp Hmg Hsp Hsg Hra Hrg Hd.
  pose proof (reconcile_accounts_kind _ _ _ _ _ _
                (loaded_kind passwd_node as_passwd is_account mp (fun _ => eq_refl))
                (loaded_kind passwd_node as_passwd is_account sp (fun _ => eq_refl)) Hra)
    as Hka.
  pose proof (reconcile_groups_kind _ _ _ _ _ _
                (loaded_kind group_node as_group is_group mg (fun _ => eq_refl))
                (loaded_kind group_node as_group is_group sg (fun _ => eq_refl)) Hrg)
    as Hkg.
  unfold main.
  cbn [master_accounts master_groups system_accounts system_shadow system_groups flag_dirty].
  unfold mbind at 1, io_bind at 1. rewrite (read_passwd_calm _ _ mp) by done.
  cbn [Z.eqb negb]. set (w1 := with_errno ENOENT w).
  unfold mbind at 1, io_bind at 1. rewrite (read_group_calm _ _ mg) by done.
  cbn [Z.eqb negb]. set (w2 := with_errno ENOENT w1).
  unfold mbind at 1, io_bind at 1. rewrite (read_passwd_calm _ _ sp) by done.
  cbn [Z.eqb negb]. set (w3 := with_errno ENOENT w2).
  unfold mbind at 1, io_bind at 1.
  assert (∃ r ss, read_shadow [] (sys_shadow o) w3 = (Ret (r, ss), with_errno ENOENT w3)
                  ∧ Forall (fun n => is_shadow n = true) ss
                  ∧ (ss = [] ∨ is_Some (w_fs w !! sys_shadow o))
                  ∧ (if is_null ss then w_fs w !! sys_shadow o
                     else (fun x => with_lines x (map n_d ss)) <$> w_fs w !! sys_shadow o)
                    = (fun x => if is_null (loaded shadow_node as_shadow x) then x
                                else with_lines x (map n_d (loaded shadow_node as_shadow x)))
                        <$> w_fs w !! sys_shadow o)
    as (r & ss & -> & Hks & Hss & Hsh).
  { destruct (w_fs w !! sys_shadow o) as [os|] eqn:Eos.
    - rewrite (read_shadow_calm _ _ os) by done. eexists _, _. split; [done|].
      fold (loaded shadow_node as_shadow os).
      split; [by apply loaded_kind|]. split; [by right|].
      cbn [fmap option_fmap option_map]. by destruct (is_null _).
    - rewrite read_shadow_missing by done. eexists _, _. split; [done|].
      split; [done|]. split; [by left|]. done. }
  set (w4 := with_errno ENOENT w3).
  unfold mbind at 1, io_bind at 1, get_errno. cbn [w_errno w4 with_errno].
  rewrite (bool_decide_eq_false_2 (Some ENOENT ≠ Some ENOENT)) by (intros H; by apply H).
  rewrite andb_false_r.
  unfold mbind at 1, io_bind at 1. rewrite (read_group_calm _ _ sg) by done.
  cbn [Z.eqb negb]. set (w5 := with_errno ENOENT w4).
  fold (loaded passwd_node as_passwd mp) (loaded passwd_node as_passwd sp)
       (loaded group_node as_group mg) (loaded group_node as_group sg).
  unfold mbind at 1, io_bind at 1, lift at 1. rewrite Hra.
  unfold mbind at 1, io_bind at 1, lift at 1. rewrite Hrg.
  rewrite Hsan.
  set (g := {| master_accounts := loaded passwd_node as_passwd mp;
               master_groups := loaded group_node as_group mg;
               system_accounts := sa; system_shadow := ss;
               system_groups := sgl; flag_dirty := d2 |}).
  rewrite Hdry, andb_true_r.
  unfold mbind at 1, io_bind at 1.
  assert (∃ w6, (if negb (opt_nolock o) then lock_files else mret true) w5 = (Ret true, w6)
                ∧ w_faults w6 = [] ∧ w_fs w6 = w_fs w) as (w6 & -> & Hw6 & Hfs6).
  { destruct (opt_nolock o); cbn [negb].
    - by exists w5.
    - rewrite lock_files_calm by done. by eexists. }
  cbn [negb].
  destruct (commit_files_calm o g w6 sp sg) as (w7 & Hrun & Hw7 & Hp7 & Hs7 & Hg7 & _ & _ & _ & _ & Ho7);
    [done | done | done | by apply Forall_forallb | by apply Forall_forallb
    | by apply Forall_forallb | done | by rewrite Hfs6 | by rewrite Hfs6
    | by rewrite Hfs6 |].
  unfold mbind at 1, io_bind at 1. rewrite Hrun. cbn [negb].
  unfold mbind at 1, io_bind at 1.
  assert (∃ w8, (if negb (opt_nolock o) then unlock_files else mret true) w7 = (Ret true, w8)
                ∧ w_fs w8 = w_fs w7) as (w8 & -> & Hfs8).
  { destruct (opt_nolock o); cbn [negb].
    - by exists w7.
    - rewrite unlock_files_calm by done. by eexists. }
  cbn [negb]. exists g, w8. split; [done|]. rewrite Hfs8.
  split; [done|]. split; [done|]. split; [done|]. split; [done|]. split; [done|].
  split.
  - rewrite Hs7, Hfs6. exact Hsh.
  - intros p Hp. rewrite Ho7 by done. by rewrite Hfs6.
Qed.

(** ** The sanity check of version 0.5 *)

Lemma sanity_loop_ascending ids : ∀ c : N,
  (c < 100)%N →
  V05.sanity_loop (Z.of_N c) ids
  = ascending_from c (List.filter (fun i => (i <? 100)%N) ids).
Proof.
  induction ids as [|i rest IH]; intros c Hc; [done|].
  cbn [V05.sanity_loop List.filter].
  rewrite Z.mod_small by lia.
  destruct (Z.of_N i <? Z.of_N c) eqn:Hlt.
  - apply Z.ltb_lt in Hlt.
    rewrite (proj2 (N.ltb_lt i 100)) by lia. cbn [ascending_from].
    by rewrite (proj2 (N.leb_gt c i)) by lia.
  - apply Z.ltb_ge in Hlt.
    destruct (i <? 100)%N eqn:Hi.
    + apply N.ltb_lt in Hi. cbn [ascending_from].
      rewrite (proj2 (N.leb_le c i)) by lia. by apply IH.
    + by apply IH.
Qed.

(** X28.  What the sanity check of version 0.5 accepts: it returns 0 when
    the uids below 100, taken in the order in which the accounts are
    delivered, are in ascending order and so are the gids below 100 among
    the groups; otherwise it returns -1.  An id of 100 or above is always
    accepted, and an id below 100 that comes after such ids is accepted when
    it is not below the last id below 100 before it. *)
Theorem sanity_check_v05_accepts (pws : list passwd) (grs : list group) :
  V05.sanity_check pws grs
  = if reserved_in_order (map pw_uid pws) && reserved_in_order (map gr_gid grs)
    then 0 else -1.
Proof.
  unfold V05.sanity_check, reserved_in_order.
  rewrite <- !(sanity_loop_ascending _ 0%N) by lia. cbn [Z.of_N].
  by destruct (V05.sanity_loop 0 (map pw_uid pws)), (V05.sanity_loop 0 (map gr_gid grs)).
Qed.

(** ** The preserve flags of the program and the policy of the table *)

Lemma land_single_bit (x k : N) :
  negb (N.land x (2 ^ k) =? 0)%N = N.testbit x k.
Proof.
  destruct (N.testbit x k) eqn:Hk.
  - apply negb_true_iff, N.eqb_neq. intros H0.
    assert (N.testbit (N.land x (2 ^ k)) k = true) as Hb.
    { rewrite N.land_spec, Hk, N.pow2_bits_true. done. }
    rewrite H0, N.bits_0 in Hb. discriminate.
  - apply negb_false_iff, N.eqb_eq. apply N.bits_inj. intros m.
    rewrite N.land_spec, N.bits_0, N.pow2_bits_eqb.
    destruct (k =? m)%N eqn:Hkm; [|apply andb_false_r].
    apply N.eqb_eq in Hkm. subst m. by rewrite Hk.
Qed.

Lemma scan_table_lookup (table : list userinfo) (id flag : N) :
  no_terminator table = true →
  scan_table table id flag = negb (N.land (spec_lookup table id) flag =? 0)%N.
Proof.
  unfold no_terminator. induction table as [|e table IH]; intros Hn; [done|].
  cbn [forallb] in Hn. apply andb_true_iff in Hn as [He Hn].
  apply negb_true_iff in He. unfold is_terminator in He.
  cbn [scan_table spec_lookup]. rewrite He.
  destruct (ui_id e =? id)%N; [done | by apply IH].
Qed.

Lemma keepgecos_policy table id :
  no_terminator table = true →
  keepgecos table id = spec_preserved table id Description.
Proof.
  intros Hn. unfold keepgecos, scan_users, spec_preserved.
  rewrite scan_table_lookup by done. apply (land_single_bit _ 2).
Qed.

Lemma keephome_policy table id :
  no_terminator table = true →
  keephome table id = spec_preserved table id Home.
Proof.
  intros Hn. unfold keephome, scan_users, spec_preserved.
  rewrite scan_table_lookup by done. apply (land_single_bit _ 0).
Qed.

Lemma keepshell_policy table id :
  no_terminator table = true →
  keepshell table id = spec_preserved table id Shell.
Proof.
  intros Hn. unfold keepshell, scan_users, spec_preserved.
  rewrite scan_table_lookup by done. apply (land_single_bit _ 1).
Qed.

Lemma synced_account_policy table p pw mc mpw :
  no_terminator table = true →
  synced_account table p pw mc mpw = spec_synced_account table p pw mc mpw.
Proof.
  intros Hn. unfold synced_account, spec_synced_account, spec_field.
  by rewrite keepgecos_policy, keephome_policy, keepshell_policy.
Qed.

Lemma pending_changes_policy table master live :
  no_terminator table = true →
  pending_changes table master live = spec_changes table master live.
Proof.
  intros Hn. induction live as [|p next IH]; [done|].
  cbn [pending_changes spec_changes]. rewrite IH. f_equal.
  unfold pending_account, spec_changes_of, spec_field_change.
  destruct (outside_range p); [done|].
  destruct (find_by_named_entry master p) as [mc|]; [|done].
  destruct (n_d p) as [pw| |]; try done. destruct (n_d mc) as [mpw| |]; try done.
  by rewrite keepgecos_policy, keephome_policy, keepshell_policy.
Qed.

(** C4.  When the live list and the master list hold account nodes as
    [read_passwd] and [copy_node] make them, and the master's description,
    home and shell are present, [process_changed_accounts] returns.  Every
    live node in the reserved range that has a master copy ends up with the
    master's id, uid and gid, and with the master's description, home and
    shell, except that a field keeps the value it had when the flag set that
    the table gives for the (synchronised) id has the preserve bit of that
    field (preserve-home bit 0, preserve-shell bit 1, preserve-description
    bit 2; no flags for an id that the table does not have).  The dirty
    counter has grown by exactly the number of ids, gids and not preserved
    fields that differed from the master's value, so that a field already
    equal to it adds nothing. *)
Theorem process_changed_accounts_syncs (table : list userinfo)
  (live master : list node) (d : Z) :
  no_terminator table = true →
  forallb account_ok live = true →
  forallb master_ok master = true →
  ∃ l, process_changed_accounts table live master d
       = Ret (l, d + spec_changes table master live)
    ∧ ∀ i p mc, live !! i = Some p → outside_range p = false →
        find_by_named_entry master p = Some mc →
        ∃ pw mpw, n_d p = t_passwd pw ∧ n_d mc = t_passwd mpw
                  ∧ l !! i = Some (spec_synced_account table p pw mc mpw).
Proof.
  intros Hn Hl Hm.
  destruct (process_changed_accounts_computes table live master d Hl Hm)
    as (l & Hrun & Hall).
  exists l. split.
  - by rewrite <- pending_changes_policy.
  - intros i p mc Hi Hr Hf.
    destruct (Hall i p mc Hi Hr Hf) as (pw & mpw & Hp & Hmc & Hli).
    exists pw, mpw. by rewrite <- synced_account_policy.
Qed.

(** ** [put_file_in_place] under a given failure schedule *)

Lemma fault_fails e fl w :
  w_faults w = Some e :: fl → fault w = (Ret (Some e), with_faults fl w).
Proof. unfold fault. by intros ->. Qed.

Lemma fault_runs w :
  next_call_runs (w_faults w) = true →
  ∃ w', fault w = (Ret None, w') ∧ w_fs w' = w_fs w
        ∧ w_faults w' = tail (w_faults w) ∧ w_history w' = w_history w.
Proof.
  unfold fault, next_call_runs. destruct (w_faults w) as [|[e|] fl] eqn:E; intros H.
  - exists w. by rewrite E.
  - done.
  - by exists (with_faults fl w).
Qed.

Lemma rename_file_fails source target e fl w :
  w_faults w = Some e :: fl →
  ∃ w', rename_file source target w = (Ret false, w')
        ∧ w_fs w' = w_fs w ∧ w_faults w' = fl.
Proof.
  intros Hw. unfold rename_file, sys_rename, mbind, io_bind.
  rewrite (fault_fails e fl) by done. by eexists.
Qed.

Lemma rename_file_runs source target x w :
  next_call_runs (w_faults w) = true → w_fs w !! source = Some x →
  ∃ w', rename_file source target w = (Ret true, w')
        ∧ w_fs w' = <[target := x]> (delete source (w_fs w))
        ∧ w_faults w' = tail (w_faults w).
Proof.
  intros Hw Hx. unfold rename_file, sys_rename, mbind, io_bind.
  destruct (fault_runs w Hw) as (w1 & -> & Hfs & Hfl & _).
  unfold get_fs, put_fs, mret, io_ret. rewrite Hfs, Hx. cbn.
  eexists. split; [reflexivity|]. by split.
Qed.

Lemma unlink_file_fails path e fl w :
  w_faults w = Some e :: fl →
  ∃ w', unlink_file path w = (Ret false, w')
        ∧ w_fs w' = w_fs w ∧ w_faults w' = fl.
Proof.
  intros Hw. unfold unlink_file, sys_unlink, mbind, io_bind.
  rewrite (fault_fails e fl) by done. by eexists.
Qed.

Lemma unlink_file_runs path x w :
  next_call_runs (w_faults w) = true → w_fs w !! path = Some x →
  ∃ w', unlink_file path w = (Ret true, w')
        ∧ w_fs w' = delete path (w_fs w)
        ∧ w_faults w' = tail (w_faults w).
Proof.
  intros Hw Hx. unfold unlink_file, sys_unlink, mbind, io_bind.
  destruct (fault_runs w Hw) as (w1 & -> & Hfs & Hfl & _).
  unfold get_fs, put_fs, mret, io_ret. rewrite Hfs, Hx. cbn.
  eexists. split; [reflexivity|]. by split.
Qed.

Lemma copy_filemodes_lstat_fails source target e fl w :
  w_faults w = Some e :: fl →
  ∃ w', copy_filemodes source target w = (Ret false, w')
        ∧ w_fs w' = w_fs w ∧ w_faults w' = fl.
Proof.
  intros Hw. unfold copy_filemodes, sys_lstat, mbind, io_bind.
  rewrite (fault_fails e fl) by done. by eexists.
Qed.

(** The first rename is made to fail: the staged file is unlinked, unless
    that is made to fail too, and nothing else is changed. *)
Lemma put_file_in_place_first_fails source target staged e fl w :
  w_fs w !! source = Some staged →
  w_faults w = Some e :: fl →
  ∃ w', put_file_in_place source target w = (Ret false, w')
        ∧ w_fs w' = if next_call_runs fl then delete source (w_fs w) else w_fs w.
Proof.
  intros Hs Hw. unfold put_file_in_place, mbind at 1, io_bind at 1, sys_umask.
  unfold mbind, io_bind.
  destruct (rename_file_fails target (String.append target UNLINK_EXTENSION) e fl
              (with_umask 63 w) Hw) as (w1 & -> & Hfs1 & Hfl1).
  cbn [negb].
  destruct (next_call_runs fl) eqn:Hn.
  - destruct (unlink_file_runs source staged w1) as (w2 & -> & Hfs2 & _).
    { by rewrite Hfl1. } { by rewrite Hfs1. }
    exists w2. split; [done|]. by rewrite Hfs2, Hfs1.
  - destruct fl as [|[e'|] fl']; try done.
    destruct (unlink_file_fails source e' fl' w1 Hfl1) as (w2 & -> & Hfs2 & _).
    exists w2. split; [done|]. by rewrite Hfs2, Hfs1.
Qed.

(** The destination is renamed aside and the second rename is made to fail:
    the aside copy is renamed back, unless that is made to fail too. *)
Lemma put_file_in_place_second_fails source target orig staged e fl w :
  w_fs w !! target = Some orig →
  w_fs w !! source = Some staged →
  source ≠ target →
  source ≠ String.append target UNLINK_EXTENSION →
  w_faults w = None :: Some e :: fl →
  ∃ w', put_file_in_place source target w = (Ret false, w')
        ∧ w_fs w' !! source = Some staged
        ∧ if next_call_runs fl
          then w_fs w' !! target = Some orig
               ∧ w_fs w' !! String.append target UNLINK_EXTENSION = None
          else w_fs w' !! target = None
               ∧ w_fs w' !! String.append target UNLINK_EXTENSION = Some orig.
Proof.
  intros Ht Hs Hst Hsu Hw.
  set (uf := String.append target UNLINK_EXTENSION) in *.
  assert (target ≠ uf) as Htu by (apply append_extension_ne; simpl; lia).
  unfold put_file_in_place. fold uf. unfold mbind at 1, io_bind at 1, sys_umask.
  unfold mbind, io_bind.
  destruct (rename_file_runs target uf orig (with_umask 63 w))
    as (w1 & -> & Hfs1 & Hfl1);
    [cbn [w_faults with_umask]; by rewrite Hw | done |].
  cbn [negb]. cbn [w_faults w_fs with_umask] in Hfs1, Hfl1. rewrite Hw in Hfl1.
  cbn [tail] in Hfl1.
  destruct (rename_file_fails source target e fl w1 Hfl1) as (w2 & -> & Hfs2 & Hfl2).
  cbn [negb].
  assert (w_fs w2 !! uf = Some orig) as H2u.
  { rewrite Hfs2, Hfs1. apply lookup_insert_eq. }
  assert (w_fs w2 !! source = Some staged) as H2s.
  { rewrite Hfs2, Hfs1. rewrite lookup_insert_ne by done. by rewrite lookup_delete_ne. }
  assert (w_fs w2 !! target = None) as H2t.
  { rewrite Hfs2, Hfs1. rewrite lookup_insert_ne by done. apply lookup_delete_eq. }
  destruct (next_call_runs fl) eqn:Hn.
  - destruct (rename_file_runs uf target orig w2) as (w3 & -> & Hfs3 & _);
      [by rewrite Hfl2 | done |].
    exists w3. split; [done|]. rewrite Hfs3. split; [|split].
    + rewrite lookup_insert_ne by done. by rewrite lookup_delete_ne.
    + apply lookup_insert_eq.
    + rewrite lookup_insert_ne by done. apply lookup_delete_eq.
  - destruct fl as [|[e'|] fl']; try done.
    destruct (rename_file_fails uf target e' fl' w2 Hfl2) as (w3 & -> & Hfs3 & _).
    exists w3. split; [done|]. by rewrite Hfs3.
Qed.

(** Both renames are made and the [lstat] of [copy_filemodes] is made to
    fail: the aside copy is unlinked, unless that is made to fail too, and
    the staged file stays at the destination with its own mode and owner. *)
Lemma put_file_in_place_lstat_fails source target orig staged e fl w :
  w_fs w !! target = Some orig →
  w_fs w !! source = Some staged →
  source ≠ target →
  source ≠ String.append target UNLINK_EXTENSION →
  w_faults w = None :: None :: Some e :: fl →
  ∃ w', put_file_in_place source target w = (Ret false, w')
        ∧ w_fs w' !! target = Some staged
        ∧ w_fs w' !! source = None
        ∧ w_fs w' !! String.append target UNLINK_EXTENSION
          = if next_call_runs fl then None else Some orig.
Proof.
  intros Ht Hs Hst Hsu Hw.
  set (uf := String.append target UNLINK_EXTENSION) in *.
  assert (target ≠ uf) as Htu by (apply append_extension_ne; simpl; lia).
  unfold put_file_in_place. fold uf. unfold mbind at 1, io_bind at 1, sys_umask.
  unfold mbind, io_bind.
  destruct (rename_file_runs target uf orig (with_umask 63 w))
    as (w1 & -> & Hfs1 & Hfl1);
    [cbn [w_faults with_umask]; by rewrite Hw | done |].
  cbn [negb]. cbn [w_faults w_fs with_umask] in Hfs1, Hfl1. rewrite Hw in Hfl1.
  cbn [tail] in Hfl1.
  destruct (rename_file_runs source target staged w1) as (w2 & -> & Hfs2 & Hfl2);
    [by rewrite Hfl1 | |].
  { rewrite Hfs1. rewrite lookup_insert_ne by done. by rewrite lookup_delete_ne. }
  cbn [negb]. rewrite Hfl1 in Hfl2. cbn [tail] in Hfl2.
  destruct (copy_filemodes_lstat_fails uf target e fl w2 Hfl2) as (w3 & -> & Hfs3 & Hfl3).
  cbn [negb].
  assert (w_fs w3 !! target = Some staged) as H3t.
  { rewrite Hfs3, Hfs2. apply lookup_insert_eq. }
  assert (w_fs w3 !! source = None) as H3s.
  { rewrite Hfs3, Hfs2. rewrite lookup_insert_ne by done. apply lookup_delete_eq. }
  assert (w_fs w3 !! uf = Some orig) as H3u.
  { rewrite Hfs3, Hfs2. rewrite lookup_insert_ne by done.
    rewrite lookup_delete_ne by done. rewrite Hfs1. apply lookup_insert_eq. }
  destruct (next_call_runs fl) eqn:Hn.
  - destruct (unlink_file_runs uf orig w3) as (w4 & -> & Hfs4 & _);
      [by rewrite Hfl3 | done |].
    exists w4. split; [done|]. rewrite Hfs4. split; [|split].
    + by rewrite lookup_delete_ne.
    + by rewrite lookup_delete_ne.
    + apply lookup_delete_eq.
  - destruct fl as [|[e'|] fl']; try done.
    destruct (unlink_file_fails uf e' fl' w3 Hfl3) as (w4 & -> & Hfs4 & _).
    exists w4. split; [done|]. by rewrite Hfs4.
Qed.

(** C5, as the program has it.  [put_file_in_place] renames the
    destination aside, moves the staged file in, copies the mode and owner
    of the original onto it and removes the aside copy.  For a destination
    whose aside name fits into [PATH_MAX] bytes, with a file at the
    destination and the staged file under another name:
    - whatever calls fail, it returns; every state of the file system on the
      way, and the last one, has at the destination either nothing (and then
      the original is intact under the aside name), or the original, or a
      file with the complete staged contents; the result 1 is returned only
      with the staged contents under the original's mode and owner at the
      destination and the aside copy and the staged file gone; and unless
      the first rename is made to fail, the state right after it has nothing
      at the destination;
    - when no call fails the result is 1, with the staged contents under
      the original's mode and owner at the destination and the aside copy
      and the staged file gone;
    - when the first rename fails the result is 0, the destination is as it
      was and the staged file has been unlinked, unless that call fails too;
    - when the second rename fails the result is 0 and the staged file is
      still there; the aside copy has been renamed back, so that the
      destination holds the original again, unless that call fails too, and
      then there is nothing at the destination and the original is under the
      aside name. *)
Theorem put_file_in_place_protocol (source target : string) (orig staged : file)
  (w : world) :
  aside_name_fits target = true →
  w_fs w !! target = Some orig →
  w_fs w !! source = Some staged →
  source ≠ target →
  source ≠ String.append target UNLINK_EXTENSION →
  (∃ b w' hs,
     put_file_in_place source target w = (Ret b, w')
     ∧ w_history w' = w_history w ++ hs
     ∧ Forall (dest_ok target (String.append target UNLINK_EXTENSION) orig staged) hs
     ∧ dest_ok target (String.append target UNLINK_EXTENSION) orig staged (w_fs w')
     ∧ (b = true →
          w_fs w' !! target
          = Some (set_attrs staged (f_mode orig) (f_uid orig) (f_gid orig))
          ∧ w_fs w' !! String.append target UNLINK_EXTENSION = None
          ∧ w_fs w' !! source = None)
     ∧ ((∀ e, head (w_faults w) ≠ Some (Some e)) →
          ∃ fs1 hs', hs = fs1 :: hs' ∧ fs1 !! target = None
                     ∧ fs1 !! String.append target UNLINK_EXTENSION = Some orig))
  ∧ (w_faults w = [] →
     ∃ w', put_file_in_place source target w = (Ret true, w')
           ∧ w_fs w' !! target
             = Some (set_attrs staged (f_mode orig) (f_uid orig) (f_gid orig))
           ∧ w_fs w' !! String.append target UNLINK_EXTENSION = None
           ∧ w_fs w' !! source = None)
  ∧ (∀ e fl, w_faults w = Some e :: fl →
     ∃ w', put_file_in_place source target w = (Ret false, w')
           ∧ w_fs w' !! target = Some orig
           ∧ w_fs w' !! source = if next_call_runs fl then None else Some staged)
  ∧ (∀ e fl, w_faults w = None :: Some e :: fl →
     ∃ w', put_file_in_place source target w = (Ret false, w')
           ∧ w_fs w' !! source = Some staged
           ∧ if next_call_runs fl
             then w_fs w' !! target = Some orig
                  ∧ w_fs w' !! String.append target UNLINK_EXTENSION = None
             else w_fs w' !! target = None
                  ∧ w_fs w' !! String.append target UNLINK_EXTENSION = Some orig).
Proof.
  intros _ Ht Hs Hst Hsu. split; [by apply put_file_in_place_safe|]. split; [|split].
  - intros Hw.
    destruct (put_file_in_place_calm source target orig staged w Hw Ht Hs Hst Hsu)
      as (w' & Hrun & _ & Hfs).
    assert (target ≠ String.append target UNLINK_EXTENSION) as Htu
      by (apply append_extension_ne; simpl; lia).
    exists w'. split; [done|]. rewrite !Hfs. split; [|split].
    + by rewrite decide_True.
    + rewrite decide_False by done. rewrite decide_True; [done | by right].
    + rewrite decide_False by done. rewrite decide_True; [done | by left].
  - intros e fl Hw.
    destruct (put_file_in_place_first_fails source target staged e fl w Hs Hw)
      as (w' & Hrun & Hfs).
    exists w'. split; [done|]. rewrite Hfs.
    destruct (next_call_runs fl).
    + split; [by rewrite lookup_delete_ne | apply lookup_delete_eq].
    + done.
  - intros e fl Hw.
    by apply (put_file_in_place_second_fails source target orig staged e fl w).
Qed.

(** ** Copying a node whose strings have every [%] doubled *)

Lemma escaped_cons_plain c s :
  Ascii.eqb c "%" = false → escaped (String c s) = escaped s.
Proof.
  intros Hc.
  destruct c as [[] [] [] [] [] [] [] []]; try reflexivity; discriminate.
Qed.

Lemma format_escaped (k : nat) : ∀ s,
  (String.length s ≤ k)%nat → escaped s = true → ∃ out, format s = Ret out.
Proof.
  induction k as [|k IH]; intros s Hk He.
  - destruct s; [by eexists | simpl in Hk; lia].
  - destruct s as [|c s]; [by eexists|]. simpl in Hk.
    destruct (Ascii.eqb c "%") eqn:Hc.
    + apply Ascii.eqb_eq in Hc. subst c.
      destruct s as [|c' s']; [done|].
      destruct (Ascii.eqb c' "%") eqn:Hc'.
      * apply Ascii.eqb_eq in Hc'. subst c'.
        change (escaped (String "%" (String "%" s'))) with (escaped s') in He.
        destruct (IH s') as [out Hout]; [simpl in Hk; lia | done |].
        exists (String "%"%char out).
        change (format (String "%" (String "%" s'))) with
          (s0 ← format s'; Ret (String "%"%char s0)).
        by rewrite Hout.
      * exfalso. clear IH.
        destruct c' as [[] [] [] [] [] [] [] []]; try discriminate He; discriminate Hc'.
    + rewrite escaped_cons_plain in He by done.
      destruct (IH s) as [out Hout]; [lia | done |].
      exists (String c out). rewrite format_cons_plain by done. by rewrite Hout.
Qed.

Lemma sprintf_escaped o :
  escaped_field o = true →
  ∃ s out, o = Some s ∧ sprintf o = Ret out ∧ strlen out <= strlen s.
Proof.
  destruct o as [s|]; [|done]. simpl. intros He.
  destruct (format_escaped (String.length s) s) as [out Hout]; [lia | done |].
  exists s, out. split; [done|]. split; [done|].
  unfold strlen. apply (format_length_bound (String.length s)) in Hout; [lia | done].
Qed.

Lemma copy_node_escaped_cases (n : node) :
  escaped_node n = true →
  (copy_node n = Exit 100 ∧ NSS_BUFLEN_PASSWD < copy_size n)
  ∨ ∃ n', copy_node n = Ret n'.
Proof.
  unfold escaped_node, copy_node, copy_size. destruct n as [d name id]. simpl.
  destruct d as [pw|sp|gr]; intros H.
  - destruct pw as [nm pass uid gid gecos dir shell]. simpl in *.
    repeat (apply andb_true_iff in H as [H ?]).
    destruct (sprintf_escaped (Some nm)) as (? & o0 & [= <-] & E0 & L0); [done|].
    destruct (sprintf_escaped pass) as (s1 & o1 & -> & E1 & L1); [done|].
    destruct (sprintf_escaped gecos) as (s2 & o2 & -> & E2 & L2); [done|].
    destruct (sprintf_escaped dir) as (s3 & o3 & -> & E3 & L3); [done|].
    destruct (sprintf_escaped shell) as (s4 & o4 & -> & E4 & L4); [done|].
    unfold copy_passwd. simpl pw_name. simpl pw_passwd. simpl pw_gecos.
    simpl pw_dir. simpl pw_shell.
    rewrite E0, E1, E2, E3, E4. simpl.
    destruct (NSS_BUFLEN_PASSWD <? _) eqn:Hlt; [left | right; by eexists].
    apply Z.ltb_lt in Hlt. split; [done | lia].
  - destruct sp as [nm pass a b c d0 e f]. simpl in *.
    apply andb_true_iff in H as [H ?].
    destruct (sprintf_escaped (Some nm)) as (? & o0 & [= <-] & E0 & L0); [done|].
    destruct (sprintf_escaped pass) as (s1 & o1 & -> & E1 & L1); [done|].
    unfold copy_shadow. simpl sp_namp. simpl sp_pwdp.
    rewrite E0, E1. simpl.
    destruct (NSS_BUFLEN_PASSWD <? _) eqn:Hlt; [left | right; by eexists].
    apply Z.ltb_lt in Hlt. split; [done | lia].
  - destruct gr as [nm pass gid mem]. simpl in *.
    apply andb_true_iff in H as [H ?].
    destruct (sprintf_escaped (Some nm)) as (? & o0 & [= <-] & E0 & L0); [done|].
    destruct (sprintf_escaped pass) as (s1 & o1 & -> & E1 & L1); [done|].
    unfold copy_group. simpl gr_name. simpl gr_passwd.
    rewrite E0, E1. simpl.
    destruct (NSS_BUFLEN_PASSWD <? _) eqn:Hlt; [left | right; by eexists].
    apply Z.ltb_lt in Hlt. split; [done | lia].
Qed.

(** X6.  [copy_node] on a node whose strings are all present and have
    every [%] doubled (the strings are used as [printf] formats, and [%%] is
    written as one [%]).  Either the program exits with status 100, and then
    the strings of the node with their terminating bytes do not fit into
    [buf]; or the copy is returned, with the id and the name of the node, the
    kind of record, its numbers (uid and gid, the aging fields of a shadow
    record) and the member list of a group, and with no string longer than
    the string it was copied from.  A node whose strings fit into [buf] is
    copied. *)
Theorem copy_node_keeps (n : node) :
  escaped_node n = true →
  ((copy_node n = Exit 100 ∧ NSS_BUFLEN_PASSWD < copy_size n)
   ∨ ∃ n', copy_node n = Ret n' ∧ copy_keeps n n')
  ∧ (copy_size n <= NSS_BUFLEN_PASSWD → ∃ n', copy_node n = Ret n').
Proof.
  intros He. destruct (copy_node_escaped_cases n He) as [[Hx Hlt]|[n' Hn']].
  - split; [by left | lia].
  - split; [|by exists n']. right. exists n'. split; [done|].
    by apply copy_node_returned_keeps.
Qed.

(** ** Reading a file whose lines are in order *)

Lemma read_order_iff (nodes : list node) :
  fold_left add_node nodes [] = nodes ↔ ordered nodes = true.
Proof.
  split.
  - intros H. rewrite <- H. by apply fold_add_node_ordered_result.
  - intros H. by apply (fold_add_node_ordered nodes []).
Qed.

(** X20.  Reading keeps the order of a file that is in order.  When no
    call fails and the file exists, the list that [read_passwd] builds from
    an empty one has the nodes of the account lines in file order exactly
    when the ids of these lines never decrease from one line to the next
    (a line whose name begins with [+] counting as [INT_MAX]); the same for
    [read_group] and the group lines.  So a file written from an ordered
    list in list order is read back in that order, and the lines of a file
    that is not in order are rearranged. *)
Theorem read_keeps_order_of_sorted_file (path : string) (x : file) (w : world) :
  w_faults w = [] →
  w_fs w !! path = Some x →
  (read_passwd [] path w
   = (Ret (0, map passwd_node (omap as_passwd (f_lines x))), with_errno ENOENT w)
   ↔ ordered (map passwd_node (omap as_passwd (f_lines x))) = true)
  ∧ (read_group [] path w
     = (Ret (0, map group_node (omap as_group (f_lines x))), with_errno ENOENT w)
     ↔ ordered (map group_node (omap as_group (f_lines x))) = true).
Proof.
  intros Hw Hx.
  rewrite (read_passwd_calm [] path x w Hw Hx), (read_group_calm [] path x w Hw Hx).
  split; (rewrite <- read_order_iff; split; [by intros [= ->] | by intros ->]).
Qed.

(** X29.  [put_file_in_place] when both renames are made and the [lstat]
    of [copy_filemodes] is made to fail (for a destination whose aside name
    fits into [PATH_MAX] bytes, with a file at the destination and the staged
    file under another name): the result is 0; the aside copy, which is the
    original, is unlinked unless that call fails too; the staged file stays
    at the destination with its own mode and owner.  The comment of the
    function says that on failure the new copy is unlinked. *)
Theorem put_file_in_place_keeps_new_copy (source target : string) (orig staged : file)
  (e : errno) (fl : list (option errno)) (w : world) :
  aside_name_fits target = true →
  w_fs w !! target = Some orig →
  w_fs w !! source = Some staged →
  source ≠ target →
  source ≠ String.append target UNLINK_EXTENSION →
  w_faults w = None :: None :: Some e :: fl →
  ∃ w', put_file_in_place source target w = (Ret false, w')
        ∧ w_fs w' !! target = Some staged
        ∧ w_fs w' !! source = None
        ∧ w_fs w' !! String.append target UNLINK_EXTENSION
          = if next_call_runs fl then None else Some orig.
Proof. intros _. apply put_file_in_place_lstat_fails. Qed.

(** ** Instances of the properties on concrete inputs *)

Lemma add_node_inserts_in_place_witness :
  let h := Ex.n Ex.root in
  let rest := [Ex.n Ex.alice] in
  let x := Ex.n Ex.daemon in
  ((n_id h <= n_id x)%N)
  ∧ (∃ before after,
    h :: rest = before ++ after
    ∧ add_node (h :: rest) x = before ++ x :: after
    ∧ Forall (fun q => (n_id q <= n_id x)%N) before
    ∧ match after with
      | [] => True
      | a :: _ => (n_id x < n_id a)%N
      end).
Proof.
  intros h rest x.
  assert ((n_id h <= n_id x)%N) as W1 by (vm_compute; discriminate).
  split; [exact W1|].
  exact (add_node_inserts_in_place h rest x W1).
Defined.

Lemma scan_users_first_entry_witness :
  let before := firstn 1 specialusers in
  let w := {| ui_id := 11; ui_flags := FL_KEEPHOME .| FL_NOAUTOADD .| FL_NOAUTOREMOVE |} in
  let after := skipn 2 specialusers in
  let id := 11%N in
  let flag := FL_NOAUTOREMOVE in
  (Forall (fun e => ui_id e ≠ id ∧ is_terminator e = false) before)
  ∧ ((ui_id w = id → is_terminator w = false →
   scan_users (before ++ w :: after) id flag
   = negb (N.land (ui_flags w) flag =? 0)%N)
  ∧ (Forall (fun e => ui_id e ≠ id) (w :: after) →
     scan_users (before ++ w :: after) id flag = false)).
Proof.
  intros before w after id flag.
  assert (Forall (fun e => ui_id e ≠ id ∧ is_terminator e = false) before) as W1 by (vm_compute; apply List.Forall_cons; [split; [discriminate | reflexivity] | apply List.Forall_nil]).
  split; [exact W1|].
  exact (scan_users_first_entry before w after id flag W1).
Defined.

Lemma copy_node_plain_witness :
  let n := Ex.n Ex.root in
  (plain n = true)
  ∧ (copy_node n = if NSS_BUFLEN_PASSWD <? copy_size n then Exit 100 else Ret n).
Proof.
  intros n.
  assert (plain n = true) as W1 by (vm_compute; reflexivity).
  split; [exact W1|].
  exact (copy_node_plain n W1).
Defined.


Lemma process_new_entries_nothing_missing_witness :
  let passwd := Ex.live_plain in
  let master := Ex.master in
  let d := 0 in
  (forallb (has_name passwd) master = true)
  ∧ (process_new_entries passwd master d = Ret (passwd, d)).
Proof.
  intros passwd master d.
  assert (forallb (has_name passwd) master = true) as W1 by (vm_compute; reflexivity).
  split; [exact W1|].
  exact (process_new_entries_nothing_missing passwd master d W1).
Defined.

Lemma process_new_entries_adds_copies_witness :
  let passwd := Ex.live_plain in
  let master := Ex.master_nobody in
  let l := (Ex2.value_of ([], 0) (process_new_entries Ex.live_plain Ex.master_nobody 0)).1 in
  let d := 0 in
  let d' := (Ex2.value_of ([], 0) (process_new_entries Ex.live_plain Ex.master_nobody 0)).2 in
  (process_new_entries passwd master d = Ret (l, d'))
  ∧ ((∀ x, In x l → In x passwd ∨ ∃ m, In m master ∧ copy_node m = Ret x)
  ∧ d <= d' <= d + Z.of_nat (length master)).
Proof.
  intros passwd master l d d'.
  assert (process_new_entries passwd master d = Ret (l, d')) as W1 by (vm_compute; reflexivity).
  split; [exact W1|].
  exact (process_new_entries_adds_copies passwd master l d d' W1).
Defined.

Lemma process_new_entries_keeps_and_completes_witness :
  let h := Ex.n Ex.root in
  let rest := [Ex.n Ex.alice] in
  let master := Ex.master_nobody in
  let l := (Ex2.value_of ([], 0) (process_new_entries Ex.live_plain Ex.master_nobody 0)).1 in
  let d := 0 in
  let d' := (Ex2.value_of ([], 0) (process_new_entries Ex.live_plain Ex.master_nobody 0)).2 in
  (forallb (fun m => (n_id h <=? n_id m)%N) master = true)
  ∧ (process_new_entries (h :: rest) master d = Ret (l, d'))
  ∧ ((∃ rest', l = h :: rest')
  ∧ (∀ x, In x (h :: rest) → In x l)
  ∧ forallb (has_name l) master = true
  ∧ Z.of_nat (length l) = Z.of_nat (length (h :: rest)) + (d' - d)).
Proof.
  intros h rest master l d d'.
  assert (forallb (fun m => (n_id h <=? n_id m)%N) master = true) as W1 by (vm_compute; reflexivity).
  assert (process_new_entries (h :: rest) master d = Ret (l, d')) as W2 by (vm_compute; reflexivity).
  split; [exact W1|].
  split; [exact W2|].
  exact (process_new_entries_keeps_and_completes h rest master l d d' W1 W2).
Defined.

Lemma process_old_entries_only_removes_witness :
  let table := specialusers in
  let passwd := Ex.live_stale in
  let master := Ex.master in
  let l := (Ex2.value_of ([], 0) (process_old_entries specialusers Ex.live_stale Ex.master 0)).1 in
  let d := 0 in
  let d' := (Ex2.value_of ([], 0) (process_old_entries specialusers Ex.live_stale Ex.master 0)).2 in
  (process_old_entries table passwd master d = Ret (l, d'))
  ∧ (sublist l passwd
  ∧ d' = d + (Z.of_nat (length passwd) - Z.of_nat (length l))
  ∧ (∀ x, In x passwd → stale table master x = false → In x l)).
Proof.
  intros table passwd master l d d'.
  assert (process_old_entries table passwd master d = Ret (l, d')) as W1 by (vm_compute; reflexivity).
  split; [exact W1|].
  exact (process_old_entries_only_removes table passwd master l d d' W1).
Defined.

Lemma process_old_entries_removes_all_witness :
  let table := specialusers in
  let passwd := [Ex.n Ex.root; Ex.n Ex.oldtool; Ex.n Ex.alice] in
  let master := Ex.master in
  let d := 0 in
  (stale_apart table master passwd = true)
  ∧ (process_old_entries table passwd master d
  = Ret (List.filter (fun x => negb (stale table master x)) passwd,
         d + Z.of_nat (length (List.filter (stale table master) passwd)))).
Proof.
  intros table passwd master d.
  assert (stale_apart table master passwd = true) as W1 by (vm_compute; reflexivity).
  split; [exact W1|].
  exact (process_old_entries_removes_all table passwd master d W1).
Defined.

Lemma process_old_entries_returns_unless_last_stale_witness :
  let table := specialusers in
  let passwd := Ex.live_stale in
  let master := Ex.master in
  let d := 0 in
  (match last passwd with
  | Some z => stale table master z = false
  | None => True
  end)
  ∧ (∃ l d', process_old_entries table passwd master d = Ret (l, d')).
Proof.
  intros table passwd master d.
  assert (match last passwd with
  | Some z => stale table master z = false
  | None => True
  end) as W1 by (vm_compute; reflexivity).
  split; [exact W1|].
  exact (process_old_entries_returns_unless_last_stale table passwd master d W1).
Defined.

Lemma process_changed_groups_syncs_witness :
  let group := Ex2.live_groups in
  let master := Ex2.master_groups in
  let d := 0 in
  (forallb group_ok group = true)
  ∧ (forallb group_ok master = true)
  ∧ (∃ l, process_changed_groups group master d
       = Ret (l, d + pending_group_changes master group)
    ∧ ∀ i g mc, group !! i = Some g → outside_range g = false →
        find_by_named_entry master g = Some mc →
        ∃ gr mgr, n_d g = t_group gr ∧ n_d mc = t_group mgr
                  ∧ l !! i = Some (synced_group g gr mc mgr)).
Proof.
  intros group master d.
  assert (forallb group_ok group = true) as W1 by (vm_compute; reflexivity).
  assert (forallb group_ok master = true) as W2 by (vm_compute; reflexivity).
  split; [exact W1|].
  split; [exact W2|].
  exact (process_changed_groups_syncs group master d W1 W2).
Defined.

Lemma process_changed_accounts_settles_witness :
  let table := specialusers in
  let passwd := Ex.live_sync in
  let master := Ex.master_sync in
  let l := (Ex2.value_of ([], 0) (process_changed_accounts specialusers Ex.live_sync Ex.master_sync 0)).1 in
  let d := 0 in
  let d' := (Ex2.value_of ([], 0) (process_changed_accounts specialusers Ex.live_sync Ex.master_sync 0)).2 in
  let d0 := 0 in
  (forallb account_ok passwd = true)
  ∧ (forallb master_ok master = true)
  ∧ (process_changed_accounts table passwd master d = Ret (l, d'))
  ∧ (process_changed_accounts table l master d0 = Ret (l, d0)).
Proof.
  intros table passwd master l d d' d0.
  assert (forallb account_ok passwd = true) as W1 by (vm_compute; reflexivity).
  assert (forallb master_ok master = true) as W2 by (vm_compute; reflexivity).
  assert (process_changed_accounts table passwd master d = Ret (l, d')) as W3 by (vm_compute; reflexivity).
  split; [exact W1|].
  split; [exact W2|].
  split; [exact W3|].
  exact (process_changed_accounts_settles table passwd master l d d' d0 W1 W2 W3).
Defined.

Lemma reconcile_accounts_of_master_witness :
  let table := specialusers in
  let master := Ex.master_sync in
  let d := 0 in
  (forallb master_ok master = true)
  ∧ (distinct_names master = true)
  ∧ (reconcile_accounts table master master d = Ret (master, d)).
Proof.
  intros table master d.
  assert (forallb master_ok master = true) as W1 by (vm_compute; reflexivity).
  assert (distinct_names master = true) as W2 by (vm_compute; reflexivity).
  split; [exact W1|].
  split; [exact W2|].
  exact (reconcile_accounts_of_master table master d W1 W2).
Defined.

Lemma read_builds_ordered_list_witness :
  let path := "/etc/passwd"%string in
  let x := Ex2.passwd_file in
  let w := Ex.world_of Ex.fs_system [] in
  (w_faults w = [])
  ∧ (w_fs w !! path = Some x)
  ∧ ((∃ l, read_passwd [] path w = (Ret (0, l), with_errno ENOENT w)
        ∧ ordered l = true
        ∧ Forall (fun n => ∃ pw, n = passwd_node pw ∧ In (t_passwd pw) (f_lines x)) l
        ∧ (head_is_least (map passwd_node (omap as_passwd (f_lines x))) = true →
           l ≡ₚ map passwd_node (omap as_passwd (f_lines x))))
  ∧ (∃ l, read_group [] path w = (Ret (0, l), with_errno ENOENT w)
          ∧ ordered l = true
          ∧ Forall (fun n => ∃ gr, n = group_node gr ∧ In (t_group gr) (f_lines x)) l
          ∧ (head_is_least (map group_node (omap as_group (f_lines x))) = true →
             l ≡ₚ map group_node (omap as_group (f_lines x))))).
Proof.
  intros path x w.
  assert (w_faults w = []) as W1 by (reflexivity).
  assert (w_fs w !! path = Some x) as W2 by (vm_compute; reflexivity).
  split; [exact W1|].
  split; [exact W2|].
  exact (read_builds_ordered_list path x w W1 W2).
Defined.

Lemma read_shadow_keeps_file_order_witness :
  let path := "/etc/shadow"%string in
  let x := Ex2.shadow_file in
  let w := Ex.world_of Ex2.fs_full [] in
  (w_faults w = [])
  ∧ (w_fs w !! path = Some x)
  ∧ (read_shadow [] path w
  = (Ret (0, map shadow_node (omap as_shadow (f_lines x))), with_errno ENOENT w)).
Proof.
  intros path x w.
  assert (w_faults w = []) as W1 by (reflexivity).
  assert (w_fs w !! path = Some x) as W2 by (vm_compute; reflexivity).
  split; [exact W1|].
  split; [exact W2|].
  exact (read_shadow_keeps_file_order path x w W1 W2).
Defined.

Lemma write_passwd_writes_the_list_witness :
  let l := Ex.live_plain in
  let path := "/etc/passwd.upwd-write"%string in
  let w := Ex.world_of Ex.fs_system [] in
  (w_faults w = [])
  ∧ ((forallb is_account l = true →
   ∃ w', write_passwd l path w = (Ret true, w')
         ∧ w_fs w' !! path = Some (with_lines (opened path w) (map n_d l))
         ∧ (∀ p, p ≠ path → w_fs w' !! p = w_fs w !! p)
         ∧ w_faults w' = [])
  ∧ (forallb is_account l = false → (write_passwd l path w).1 = Abort)).
Proof.
  intros l path w.
  assert (w_faults w = []) as W1 by (reflexivity).
  split; [exact W1|].
  exact (write_passwd_writes_the_list l path w W1).
Defined.


Lemma put_file_in_place_missing_destination_witness :
  let source := "/etc/passwd.upwd-write"%string in
  let target := "/etc/group"%string in
  let w := Ex.world_of Ex.fs_publish [] in
  (w_fs w !! target = None)
  ∧ (∃ w', put_file_in_place source target w = (Ret false, w')
        ∧ w_fs w' !! target = None
        ∧ (w_fs w' = w_fs w ∨ w_fs w' = delete source (w_fs w))).
Proof.
  intros source target w.
  assert (w_fs w !! target = None) as W1 by (vm_compute; reflexivity).
  split; [exact W1|].
  exact (put_file_in_place_missing_destination source target w W1).
Defined.

Lemma put_file_in_place_succeeds_witness :
  let source := "/etc/passwd.upwd-write"%string in
  let target := "/etc/passwd"%string in
  let orig := Ex2.passwd_file in
  let staged := Ex.staged_file [t_passwd Ex.root; t_passwd Ex.alice] in
  let w := Ex.world_of Ex.fs_publish [] in
  (w_faults w = [])
  ∧ (w_fs w !! target = Some orig)
  ∧ (w_fs w !! source = Some staged)
  ∧ (source ≠ target)
  ∧ (source ≠ String.append target UNLINK_EXTENSION)
  ∧ (∃ w', put_file_in_place source target w = (Ret true, w')
        ∧ w_faults w' = []
        ∧ ∀ p, w_fs w' !! p =
               if decide (p = target)
               then Some (set_attrs staged (f_mode orig) (f_uid orig) (f_gid orig))
               else if decide (p = source ∨ p = String.append target UNLINK_EXTENSION)
                    then None
                    else w_fs w !! p).
Proof.
  intros source target orig staged w.
  assert (w_faults w = []) as W1 by (reflexivity).
  assert (w_fs w !! target = Some orig) as W2 by (vm_compute; reflexivity).
  assert (w_fs w !! source = Some staged) as W3 by (vm_compute; reflexivity).
  assert (source ≠ target) as W4 by (discriminate).
  assert (source ≠ String.append target UNLINK_EXTENSION) as W5 by (discriminate).
  split; [exact W1|].
  split; [exact W2|].
  split; [exact W3|].
  split; [exact W4|].
  split; [exact W5|].
  exact (put_file_in_place_succeeds source target orig staged w W1 W2 W3 W4 W5).
Defined.

Lemma main_missing_file_witness :
  let table := specialusers in
  let o := Ex.opts false in
  let w := Ex.world_of Ex.fs_publish [] in
  (w_faults w = [])
  ∧ (w_fs w !! master_passwd o = None ∨ w_fs w !! master_group o = None
  ∨ w_fs w !! sys_passwd o = None ∨ w_fs w !! sys_group o = None)
  ∧ (∃ g w', main table o w = (Ret (2, g), w') ∧ quiet w w').
Proof.
  intros table o w.
  assert (w_faults w = []) as W1 by (reflexivity).
  assert (w_fs w !! master_passwd o = None ∨ w_fs w !! master_group o = None
  ∨ w_fs w !! sys_passwd o = None ∨ w_fs w !! sys_group o = None) as W2 by (left; vm_compute; reflexivity).
  split; [exact W1|].
  split; [exact W2|].
  exact (main_missing_file table o w W1 W2).
Defined.

Lemma main_publishes_witness :
  let table := specialusers in
  let o := Ex.opts false in
  let w := Ex.world_of Ex2.fs_full [] in
  let mp := Ex2.passwd_master_file in
  let mg := Ex2.group_master_file in
  let sp := Ex2.passwd_file in
  let sg := Ex2.group_file in
  let sa := (Ex2.value_of ([], 0) (reconcile_accounts specialusers (loaded passwd_node as_passwd Ex2.passwd_file) (loaded passwd_node as_passwd Ex2.passwd_master_file) 0)).1 in
  let sgl := (Ex2.value_of ([], 0) (reconcile_groups specialusers (loaded group_node as_group Ex2.group_file) (loaded group_node as_group Ex2.group_master_file) (Ex2.value_of ([], 0) (reconcile_accounts specialusers (loaded passwd_node as_passwd Ex2.passwd_file) (loaded passwd_node as_passwd Ex2.passwd_master_file) 0)).2)).1 in
  let d1 := (Ex2.value_of ([], 0) (reconcile_accounts specialusers (loaded passwd_node as_passwd Ex2.passwd_file) (loaded passwd_node as_passwd Ex2.passwd_master_file) 0)).2 in
  let d2 := (Ex2.value_of ([], 0) (reconcile_groups specialusers (loaded group_node as_group Ex2.group_file) (loaded group_node as_group Ex2.group_master_file) (Ex2.value_of ([], 0) (reconcile_accounts specialusers (loaded passwd_node as_passwd Ex2.passwd_file) (loaded passwd_node as_passwd Ex2.passwd_master_file) 0)).2)).2 in
  (w_faults w = [])
  ∧ (opt_sanity o = false)
  ∧ (opt_dryrun o = false)
  ∧ (NoDup (commit_paths o))
  ∧ (w_fs w !! master_passwd o = Some mp)
  ∧ (w_fs w !! master_group o = Some mg)
  ∧ (w_fs w !! sys_passwd o = Some sp)
  ∧ (w_fs w !! sys_group o = Some sg)
  ∧ (reconcile_accounts table (loaded passwd_node as_passwd sp)
    (loaded passwd_node as_passwd mp) 0 = Ret (sa, d1))
  ∧ (reconcile_groups table (loaded group_node as_group sg)
    (loaded group_node as_group mg) d1 = Ret (sgl, d2))
  ∧ (d2 ≠ 0)
  ∧ (∃ g w', main table o w = (Ret (0, g), w')
    ∧ system_accounts g = sa ∧ system_groups g = sgl ∧ flag_dirty g = d2
    ∧ w_fs w' !! sys_passwd o = Some (with_lines sp (map n_d sa))
    ∧ w_fs w' !! sys_group o = Some (with_lines sg (map n_d sgl))
    ∧ w_fs w' !! sys_shadow o
      = (fun x => if is_null (loaded shadow_node as_shadow x) then x
                  else with_lines x (map n_d (loaded shadow_node as_shadow x)))
          <$> w_fs w !! sys_shadow o
    ∧ (∀ p, p ∉ commit_paths o → w_fs w' !! p = w_fs w !! p)).
Proof.
  intros table o w mp mg sp sg sa sgl d1 d2.
  assert (w_faults w = []) as W1 by (reflexivity).
  assert (opt_sanity o = false) as W2 by (reflexivity).
  assert (opt_dryrun o = false) as W3 by (reflexivity).
  assert (NoDup (commit_paths o)) as W4 by (refine (bool_decide_unpack _ _); vm_compute; exact I).
  assert (w_fs w !! master_passwd o = Some mp) as W5 by (vm_compute; reflexivity).
  assert (w_fs w !! master_group o = Some mg) as W6 by (vm_compute; reflexivity).
  assert (w_fs w !! sys_passwd o = Some sp) as W7 by (vm_compute; reflexivity).
  assert (w_fs w !! sys_group o = Some sg) as W8 by (vm_compute; reflexivity).
  assert (reconcile_accounts table (loaded passwd_node as_passwd sp)
    (loaded passwd_node as_passwd mp) 0 = Ret (sa, d1)) as W9 by (vm_compute; reflexivity).
  assert (reconcile_groups table (loaded group_node as_group sg)
    (loaded group_node as_group mg) d1 = Ret (sgl, d2)) as W10 by (vm_compute; reflexivity).
  assert (d2 ≠ 0) as W11 by (vm_compute; discriminate).
  split; [exact W1|].
  split; [exact W2|].
  split; [exact W3|].
  split; [exact W4|].
  split; [exact W5|].
  split; [exact W6|].
  split; [exact W7|].
  split; [exact W8|].
  split; [exact W9|].
  split; [exact W10|].
  split; [exact W11|].
  exact (main_publishes table o w mp mg sp sg sa sgl d1 d2 W1 W2 W3 W4 W5 W6 W7 W8 W9 W10 W11).
Defined.

(** ** The restated properties on concrete inputs *)

Lemma process_changed_accounts_syncs_witness :
  let table := specialusers in
  let live := Ex.live_sync in
  let master := Ex.master_sync in
  no_terminator table = true
  ∧ forallb account_ok live = true
  ∧ forallb master_ok master = true
  ∧ spec_preserved table 0 Description = true
  ∧ spec_preserved table 33 Home = true
  ∧ spec_preserved table 33 Description = false
  ∧ spec_preserved table 33 Shell = false
  ∧ spec_changes table master live = 3
  ∧ ∃ l, process_changed_accounts table live master 0
         = Ret (l, 0 + spec_changes table master live)
      ∧ (∀ i p mc, live !! i = Some p → outside_range p = false →
           find_by_named_entry master p = Some mc →
           ∃ pw mpw, n_d p = t_passwd pw ∧ n_d mc = t_passwd mpw
                     ∧ l !! i = Some (spec_synced_account table p pw mc mpw))
      ∧ l = [Ex.n Ex.live_root; Ex.n Ex.games; Ex.n Ex3.www_data_synced; Ex.n Ex.alice].
Proof.
  intros table live master.
  assert (no_terminator table = true) as W1 by (vm_compute; reflexivity).
  assert (forallb account_ok live = true) as W2 by (vm_compute; reflexivity).
  assert (forallb master_ok master = true) as W3 by (vm_compute; reflexivity).
  split; [exact W1|]. split; [exact W2|]. split; [exact W3|].
  split; [vm_compute; reflexivity|]. split; [vm_compute; reflexivity|].
  split; [vm_compute; reflexivity|]. split; [vm_compute; reflexivity|].
  split; [vm_compute; reflexivity|].
  destruct (process_changed_accounts_syncs table live master 0 W1 W2 W3)
    as (l & Hrun & Hall).
  exists l. split; [exact Hrun|]. split; [exact Hall|].
  assert (process_changed_accounts table live master 0
          = Ret ([Ex.n Ex.live_root; Ex.n Ex.games; Ex.n Ex3.www_data_synced;
                  Ex.n Ex.alice], 3)) as Hval by (vm_compute; reflexivity).
  rewrite Hval in Hrun. congruence.
Defined.

Lemma put_file_in_place_protocol_witness :
  let source := "/etc/passwd.upwd-write"%string in
  let target := "/etc/passwd"%string in
  let aside := "/etc/passwd.upwd-unlink"%string in
  let orig := Ex2.passwd_file in
  let staged := Ex.staged_file [t_passwd Ex.root; t_passwd Ex.alice] in
  let calm := Ex.world_of Ex.fs_publish [] in
  let first := Ex.world_of Ex.fs_publish [Some EOTHER] in
  let second := Ex.world_of Ex.fs_publish [None; Some EOTHER] in
  let stuck := Ex.world_of Ex.fs_publish [None; Some EOTHER; Some EOTHER] in
  aside_name_fits target = true
  ∧ w_fs calm !! target = Some orig
  ∧ w_fs calm !! source = Some staged
  ∧ (∃ w', put_file_in_place source target calm = (Ret true, w')
           ∧ w_fs w' !! target = Some (Ex.regular [t_passwd Ex.root; t_passwd Ex.alice])
           ∧ w_fs w' !! aside = None
           ∧ w_fs w' !! source = None)
  ∧ (∃ w', put_file_in_place source target first = (Ret false, w')
           ∧ w_fs w' !! target = Some orig
           ∧ w_fs w' !! source = None)
  ∧ (∃ w', put_file_in_place source target second = (Ret false, w')
           ∧ w_fs w' !! source = Some staged
           ∧ w_fs w' !! target = Some orig
           ∧ w_fs w' !! aside = None)
  ∧ (∃ w', put_file_in_place source target stuck = (Ret false, w')
           ∧ w_fs w' !! source = Some staged
           ∧ w_fs w' !! target = None
           ∧ w_fs w' !! aside = Some orig)
  ∧ ∃ b w' hs,
      put_file_in_place source target second = (Ret b, w')
      ∧ w_history w' = w_history second ++ hs
      ∧ Forall (dest_ok target aside orig staged) hs
      ∧ dest_ok target aside orig staged (w_fs w').
Proof.
  intros source target aside orig staged calm first second stuck.
  assert (aside_name_fits target = true) as W1 by reflexivity.
  assert (w_fs calm !! target = Some orig) as W2 by (vm_compute; reflexivity).
  assert (w_fs calm !! source = Some staged) as W3 by (vm_compute; reflexivity).
  assert (source ≠ target) as W4 by discriminate.
  assert (source ≠ String.append target UNLINK_EXTENSION) as W5 by discriminate.
  split; [exact W1|]. split; [exact W2|]. split; [exact W3|].
  split.
  { destruct (put_file_in_place_protocol source target orig staged calm W1 W2 W3 W4 W5)
      as (_ & Hcalm & _ & _). exact (Hcalm eq_refl). }
  split.
  { destruct (put_file_in_place_protocol source target orig staged first W1 W2 W3 W4 W5)
      as (_ & _ & Hfirst & _). exact (Hfirst EOTHER [] eq_refl). }
  split.
  { destruct (put_file_in_place_protocol source target orig staged second W1 W2 W3 W4 W5)
      as (_ & _ & _ & Hsecond).
    destruct (Hsecond EOTHER [] eq_refl) as (w' & Hrun & Hs & Ht & Hu).
    exists w'. split; [exact Hrun|]. split; [exact Hs|]. split; [exact Ht | exact Hu]. }
  split.
  { destruct (put_file_in_place_protocol source target orig staged stuck W1 W2 W3 W4 W5)
      as (_ & _ & _ & Hsecond).
    destruct (Hsecond EOTHER [Some EOTHER] eq_refl) as (w' & Hrun & Hs & Ht & Hu).
    exists w'. split; [exact Hrun|]. split; [exact Hs|]. split; [exact Ht | exact Hu]. }
  destruct (put_file_in_place_protocol source target orig staged second W1 W2 W3 W4 W5)
    as ((b & w' & hs & Hrun & Hh & HF & Hok & _) & _).
  exists b, w', hs. split; [exact Hrun|]. split; [exact Hh|]. split; [exact HF | exact Hok].
Defined.

Lemma copy_node_keeps_witness :
  let n := Ex.n Ex3.discount in
  escaped_node n = true
  ∧ plain n = false
  ∧ copy_node n = Ret (Ex.n Ex3.discount_copy)
  ∧ ((copy_node n = Exit 100 ∧ NSS_BUFLEN_PASSWD < copy_size n)
     ∨ ∃ n', copy_node n = Ret n' ∧ copy_keeps n n')
  ∧ (copy_size n <= NSS_BUFLEN_PASSWD → ∃ n', copy_node n = Ret n').
Proof.
  intros n.
  assert (escaped_node n = true) as W1 by (vm_compute; reflexivity).
  split; [exact W1|]. split; [vm_compute; reflexivity|].
  split; [vm_compute; reflexivity|].
  exact (copy_node_keeps n W1).
Defined.

Lemma read_keeps_order_of_sorted_file_witness :
  let path := "/etc/passwd"%string in
  let x := Ex2.passwd_file in
  let w := Ex.world_of Ex.fs_system [] in
  w_faults w = []
  ∧ w_fs w !! path = Some x
  ∧ ordered (map passwd_node (omap as_passwd (f_lines x))) = true
  ∧ read_passwd [] path w
    = (Ret (0, [Ex.n Ex.root; Ex.n Ex.oldtool; Ex.n Ex.alice]), with_errno ENOENT w)
  ∧ (read_passwd [] path w
     = (Ret (0, map passwd_node (omap as_passwd (f_lines x))), with_errno ENOENT w)
     ↔ ordered (map passwd_node (omap as_passwd (f_lines x))) = true)
  ∧ (read_group [] path w
     = (Ret (0, map group_node (omap as_group (f_lines x))), with_errno ENOENT w)
     ↔ ordered (map group_node (omap as_group (f_lines x))) = true).
Proof.
  intros path x w.
  assert (w_faults w = []) as W1 by reflexivity.
  assert (w_fs w !! path = Some x) as W2 by (vm_compute; reflexivity).
  assert (ordered (map passwd_node (omap as_passwd (f_lines x))) = true) as W3
    by (vm_compute; reflexivity).
  split; [exact W1|]. split; [exact W2|]. split; [exact W3|].
  split; [exact (proj2 (proj1 (read_keeps_order_of_sorted_file path x w W1 W2)) W3)|].
  exact (read_keeps_order_of_sorted_file path x w W1 W2).
Defined.

Lemma put_file_in_place_keeps_new_copy_witness :
  let source := "/etc/passwd.upwd-write"%string in
  let target := "/etc/passwd"%string in
  let orig := Ex2.passwd_file in
  let staged := Ex.staged_file [t_passwd Ex.root; t_passwd Ex.alice] in
  let e := EOTHER in
  let fl := @nil (option errno) in
  let w := Ex.world_of Ex.fs_publish [None; None; Some EOTHER] in
  aside_name_fits target = true
  ∧ w_fs w !! target = Some orig
  ∧ w_fs w !! source = Some staged
  ∧ w_faults w = None :: None :: Some e :: fl
  ∧ ∃ w', put_file_in_place source target w = (Ret false, w')
          ∧ w_fs w' !! target = Some staged
          ∧ w_fs w' !! source = None
          ∧ w_fs w' !! String.append target UNLINK_EXTENSION
            = if next_call_runs fl then None else Some orig.
Proof.
  intros source target orig staged e fl w.
  assert (aside_name_fits target = true) as W1 by reflexivity.
  assert (w_fs w !! target = Some orig) as W2 by (vm_compute; reflexivity).
  assert (w_fs w !! source = Some staged) as W3 by (vm_compute; reflexivity).
  assert (source ≠ target) as W4 by discriminate.
  assert (source ≠ String.append target UNLINK_EXTENSION) as W5 by discriminate.
  assert (w_faults w = None :: None :: Some e :: fl) as W6 by reflexivity.
  split; [exact W1|]. split; [exact W2|]. split; [exact W3|]. split; [exact W6|].
  exact (put_file_in_place_keeps_new_copy source target orig staged e fl w
           W1 W2 W3 W4 W5 W6).
Defined.
